(** * ToDoList: task lifecycle, delete/undo protocol and REST routes

    A shallow embedding of the to-do list manager:

    - [JS]      the JavaScript primitives the program relies on
                (strings as UTF-16 code units, [trim], [splice], [findIndex]);
    - [Task]    the [Task] class shared by both clients;
    - [Server]  the Express routes of [routes/taskRoutes.js] over the
                [tasks] relation;
    - [Ui]      the snackbar and the timers of the browser event loop;
    - [Api]     the client of [public/app.js] (PostgreSQL version), which
                talks to [Server];
    - [Local]   the client of [public/app.js] (localStorage version).

    Rendering and the [isLoading] flag only drive the DOM and are not
    part of the model.  An asynchronous operation starts at one clock
    reading and goes on after its [await] at a later one; the timers
    that expire in between fire before it goes on, and no other handler
    runs in between.  Task objects are modelled by value; the one
    object the source shares, the record a failed delete leaves behind,
    which is the very object put back in the array, appears as two equal
    values. *)

From Stdlib Require Import String Ascii.
From Stdlib Require Import ZArith NArith List Bool Lia.
From Stdlib Require Import Sorted Permutation.
From Stdlib Require Import DecimalString DecimalZ.
Import ListNotations.

Local Open Scope Z_scope.

(* ====================================================================== *)
(** ** JavaScript primitives *)
(* ====================================================================== *)

Module JS.

(** A JavaScript string is a sequence of UTF-16 code units. *)
Definition jsstring := list N.

(** Literals of the source, which are all ASCII. *)
Definition str (s : string) : jsstring :=
  map N_of_ascii (list_ascii_of_string s).

(** The code unit of the double quote, used in template literals. *)
Definition quote : N := 34%N.

(** [WhiteSpace] and [LineTerminator] of ECMAScript: what [trim] strips. *)
Definition isWhiteSpace (c : N) : bool :=
  ((9 <=? c) && (c <=? 13) ||
   (c =? 32) || (c =? 160) || (c =? 5760) ||
   (8192 <=? c) && (c <=? 8202) ||
   (c =? 8232) || (c =? 8233) || (c =? 8239) || (c =? 8287) ||
   (c =? 12288) || (c =? 65279))%N.

Fixpoint trimStart (s : jsstring) : jsstring :=
  match s with
  | [] => []
  | c :: r => if isWhiteSpace c then trimStart r else s
  end.

Definition trimEnd (s : jsstring) : jsstring := rev (trimStart (rev s)).

(** [String.prototype.trim] *)
Definition trim (s : jsstring) : jsstring := trimEnd (trimStart s).

(** Truthiness of a string: [!s] holds exactly for the empty string. *)
Definition truthy (s : jsstring) : bool :=
  match s with [] => false | _ :: _ => true end.

(** [a === b] on strings *)
Fixpoint eqb (a b : jsstring) : bool :=
  match a, b with
  | [], [] => true
  | x :: a', y :: b' => N.eqb x y && eqb a' b'
  | _, _ => false
  end.

(** [Number.prototype.toString] on an integer: its decimal numeral. *)
Definition toString (z : Z) : jsstring :=
  str (NilEmpty.string_of_int (Z.to_int z)).

(** [Array.prototype.splice(start, deleteCount, ...items)], with the
    clamping of [start] and [deleteCount] ECMAScript prescribes. *)
Definition splice {A} (start deleteCount : Z) (items l : list A) : list A :=
  let len := Z.of_nat (length l) in
  let s := if start <? 0 then Z.max (len + start) 0 else Z.min start len in
  let d := Z.min (Z.max deleteCount 0) (len - s) in
  firstn (Z.to_nat s) l ++ items ++ skipn (Z.to_nat (s + d)) l.

Fixpoint findIndexFrom {A} (p : A -> bool) (l : list A) (i : Z) : Z :=
  match l with
  | [] => -1
  | x :: r => if p x then i else findIndexFrom p r (i + 1)
  end.

(** [Array.prototype.findIndex]: index of the first match, [-1] if none. *)
Definition findIndex {A} (p : A -> bool) (l : list A) : Z :=
  findIndexFrom p l 0.

(** [Array.prototype.find]: the first match, [undefined] if none. *)
Definition find {A} (p : A -> bool) (l : list A) : option A :=
  List.find p l.

(** Assignment to a field of the object returned by [find]: the first
    match is replaced, the array keeps its order. *)
Fixpoint assignFirst {A} (p : A -> bool) (f : A -> A) (l : list A) : list A :=
  match l with
  | [] => []
  | x :: r => if p x then f x :: r else x :: assignFirst p f r
  end.

(** [l[i]] *)
Definition index {A} (l : list A) (i : Z) : option A :=
  if i <? 0 then None else nth_error l (Z.to_nat i).

End JS.

(* ====================================================================== *)
(** ** The Task model *)
(* ====================================================================== *)

Module Task.

(** [createdAt] is the instant of creation in milliseconds; the source
    keeps its ISO-8601 rendering. *)
Record t := new {
  id : JS.jsstring;
  title : JS.jsstring;
  isDone : bool;
  createdAt : Z
}.

(** [Task.create(title)], at clock reading [now]. *)
Definition create (now : Z) (title : JS.jsstring) : t :=
  new (JS.toString now) (JS.trim title) false now.

(** The plain object of [toJSON] has the same four fields. *)
Definition toJSON (task : t) : t :=
  new (id task) (title task) (isDone task) (createdAt task).

Definition fromJSON (obj : t) : t :=
  new (id obj) (title obj) (isDone obj) (createdAt obj).

Definition hasId (i : JS.jsstring) (task : t) : bool := JS.eqb (id task) i.

Definition setIsDone (b : bool) (task : t) : t :=
  new (id task) (title task) b (createdAt task).

Definition setTitle (s : JS.jsstring) (task : t) : t :=
  new (id task) s (isDone task) (createdAt task).

End Task.

(* ====================================================================== *)
(** ** The REST routes over the [tasks] relation *)
(* ====================================================================== *)

Module Server.

(** [tasks(id PRIMARY KEY, title NOT NULL, is_done, created_at, updated_at)] *)
Record row := mkRow {
  r_id : JS.jsstring;
  r_title : JS.jsstring;
  r_is_done : bool;
  r_created_at : Z;
  r_updated_at : Z
}.

Definition table := list row.

Definition hasId (i : JS.jsstring) (r : row) : bool := JS.eqb (r_id r) i.

(** [RETURNING id, title, is_done as "isDone", created_at as "createdAt"] *)
Definition returning (r : row) : Task.t :=
  Task.new (r_id r) (r_title r) (r_is_done r) (r_created_at r).

Fixpoint insertDesc (r : row) (l : list row) : list row :=
  match l with
  | [] => [r]
  | x :: xs =>
      if r_created_at x <=? r_created_at r then r :: l
      else x :: insertDesc r xs
  end.

(** [ORDER BY created_at DESC]; rows of equal [created_at] keep the
    order of the table. *)
Definition orderByCreatedAtDesc (l : list row) : list row :=
  fold_right insertDesc [] l.

(** [SELECT ... FROM tasks ORDER BY created_at DESC] *)
Definition sqlSelect (tbl : table) : list Task.t :=
  map returning (orderByCreatedAtDesc tbl).

(** [INSERT INTO tasks ... RETURNING ...]; the primary key makes the
    statement fail when the id is taken. *)
Definition sqlInsert (r : row) (tbl : table) : option (list Task.t * table) :=
  if existsb (hasId (r_id r)) tbl then None
  else Some ([returning r], tbl ++ [r]).

(** The [SET] clause the PUT route assembles: [updated_at = NOW()]
    always, [title] and [is_done] when the route pushed a value. *)
Definition setClause (title : option JS.jsstring) (isDone : option bool)
    (now : Z) (r : row) : row :=
  mkRow (r_id r)
        (match title with Some s => s | None => r_title r end)
        (match isDone with Some b => b | None => r_is_done r end)
        (r_created_at r)
        now.

(** [UPDATE tasks SET ... WHERE id = $n RETURNING ...] *)
Definition sqlUpdate (i : JS.jsstring) (title : option JS.jsstring)
    (isDone : option bool) (now : Z) (tbl : table) : list Task.t * table :=
  (map returning (map (setClause title isDone now) (filter (hasId i) tbl)),
   map (fun r => if hasId i r then setClause title isDone now r else r) tbl).

(** [DELETE FROM tasks WHERE id = $1 RETURNING ...] *)
Definition sqlDelete (i : JS.jsstring) (tbl : table) : list Task.t * table :=
  (map returning (filter (hasId i) tbl),
   filter (fun r => negb (hasId i r)) tbl).

(** [DELETE FROM tasks WHERE is_done = true]: [rowCount] and the table. *)
Definition sqlDeleteCompleted (tbl : table) : nat * table :=
  (length (filter r_is_done tbl), filter (fun r => negb (r_is_done r)) tbl).

Inductive payload :=
| NoData
| TaskData (task : Task.t)
| TaskList (l : list Task.t).

(** The envelope [{success, data?, error?, message?, deletedCount?}]
    together with the HTTP status. *)
Record response := mkResponse {
  status : Z;
  success : bool;
  data : payload;
  error : option JS.jsstring;
  message : option JS.jsstring;
  deletedCount : option nat
}.

Definition failure (code : Z) (msg : string) : response :=
  mkResponse code false NoData (Some (JS.str msg)) None None.

Definition ok (code : Z) (d : payload) : response :=
  mkResponse code true d None None None.

(** The requests of the REST surface.  A body field that is absent
    ([undefined]) is [None]; [title] is a string and [isDone] a boolean,
    as the routes document. *)
Inductive request :=
| GetTasks
| PostTask (title : option JS.jsstring)
| PutTask (i : JS.jsstring) (title : option JS.jsstring) (isDone : option bool)
| DeleteTask (i : JS.jsstring)
| DeleteCompleted.

(** In every route [up] tells whether [query] resolves ([true]) or
    throws, and [now] is the clock of the server. *)

(** [router.get('/tasks')] *)
Definition getTasks (up : bool) (tbl : table) : response * table :=
  if up then (ok 200 (TaskList (sqlSelect tbl)), tbl)
  else (failure 500 "Failed to fetch tasks", tbl).

(** [router.post('/tasks')]: [!title || title.trim() === ''] is the
    guard; an absent title is [None].  The route reads the clock for the
    id and again for [createdAt]; the model takes the two readings to be
    the same, [now]. *)
Definition postTask (up : bool) (now : Z) (title : option JS.jsstring)
    (tbl : table) : response * table :=
  match title with
  | None => (failure 400 "Title is required", tbl)
  | Some s =>
      if negb (JS.truthy s) || JS.eqb (JS.trim s) [] then
        (failure 400 "Title is required", tbl)
      else
        let i := JS.toString now in
        let createdAt := now in
        if up then
          match
            sqlInsert (mkRow i (JS.trim s) false createdAt createdAt) tbl
          with
          | Some (r :: _, tbl') => (ok 201 (TaskData r), tbl')
          | Some ([], tbl') => (ok 201 NoData, tbl')
          | None => (failure 500 "Failed to create task", tbl)
          end
        else (failure 500 "Failed to create task", tbl)
  end.

(** [title !== undefined && title.trim() !== ''], then [title.trim()] *)
Definition pushedTitle (title : option JS.jsstring) : option JS.jsstring :=
  match title with
  | Some s => if JS.eqb (JS.trim s) [] then None else Some (JS.trim s)
  | None => None
  end.

(** [router.put('/tasks/:id')] *)
Definition putTask (up : bool) (now : Z) (i : JS.jsstring)
    (title : option JS.jsstring) (isDone : option bool) (tbl : table)
    : response * table :=
  if up then
    match sqlUpdate i (pushedTitle title) isDone now tbl with
    | ([], tbl') => (failure 404 "Task not found", tbl')
    | (r :: _, tbl') => (ok 200 (TaskData r), tbl')
    end
  else (failure 500 "Failed to update task", tbl).

(** [router.delete('/tasks/:id')] *)
Definition deleteTask (up : bool) (i : JS.jsstring) (tbl : table)
    : response * table :=
  if up then
    match sqlDelete i tbl with
    | ([], tbl') => (failure 404 "Task not found", tbl')
    | (r :: _, tbl') =>
        (mkResponse 200 true (TaskData r) None
           (Some (JS.str "Task deleted successfully")) None, tbl')
    end
  else (failure 500 "Failed to delete task", tbl).

(** [router.delete('/tasks-completed')] *)
Definition deleteCompleted (up : bool) (tbl : table) : response * table :=
  if up then
    let (n, tbl') := sqlDeleteCompleted tbl in
    (mkResponse 200 true NoData None
       (Some (JS.str "Completed tasks cleared")) (Some n), tbl')
  else (failure 500 "Failed to clear completed tasks", tbl).

Definition handle (up : bool) (now : Z) (req : request) (tbl : table)
    : response * table :=
  match req with
  | GetTasks => getTasks up tbl
  | PostTask title => postTask up now title tbl
  | PutTask i title isDone => putTask up now i title isDone tbl
  | DeleteTask i => deleteTask up i tbl
  | DeleteCompleted => deleteCompleted up tbl
  end.

End Server.

(* ====================================================================== *)
(** ** The snackbar and the timers of the event loop *)
(* ====================================================================== *)

Module Ui.

Section Callbacks.

(** The closures handed to [setTimeout], one tag per closure. *)
Variable callback : Type.
Variable hide : callback.

Record timer := mkTimer {
  handle : nat;
  due : Z;
  action : callback
}.

(** [snackbarTimeout] is [None] for [null]; handles start at 1. *)
Record t := mk {
  snackbarTimeout : option nat;
  snackbarMessage : JS.jsstring;
  snackbarActive : bool;
  timers : list timer;
  nextHandle : nat
}.

Definition init : t := mk None [] false [] 1%nat.

Definition clearTimeout (h : nat) (u : t) : t :=
  mk (snackbarTimeout u) (snackbarMessage u) (snackbarActive u)
     (filter (fun x => negb (Nat.eqb (handle x) h)) (timers u))
     (nextHandle u).

(** [setTimeout(cb, delay)] at clock reading [now] *)
Definition setTimeout (cb : callback) (delay now : Z) (u : t) : nat * t :=
  (nextHandle u,
   mk (snackbarTimeout u) (snackbarMessage u) (snackbarActive u)
      (timers u ++ [mkTimer (nextHandle u) (now + delay) cb])
      (S (nextHandle u))).

Definition cancelSnackbarTimeout (u : t) : t :=
  match snackbarTimeout u with
  | Some h => clearTimeout h u
  | None => u
  end.

Definition showSnackbar (now : Z) (msg : JS.jsstring) (u : t) : t :=
  let u1 := cancelSnackbarTimeout u in
  let u2 := mk (snackbarTimeout u1) msg true (timers u1) (nextHandle u1) in
  let (h, u3) := setTimeout hide 4000 now u2 in
  mk (Some h) (snackbarMessage u3) (snackbarActive u3) (timers u3)
     (nextHandle u3).

Definition hideSnackbar (u : t) : t :=
  cancelSnackbarTimeout
    (mk (snackbarTimeout u) (snackbarMessage u) false (timers u)
        (nextHandle u)).

Definition pending (h : nat) (u : t) : bool :=
  existsb (fun x => Nat.eqb (handle x) h) (timers u).

Fixpoint insertByDue (x : timer) (l : list timer) : list timer :=
  match l with
  | [] => [x]
  | y :: r => if due x <=? due y then x :: l else y :: insertByDue x r
  end.

(** The timers that have expired at [now], earliest first. *)
Definition expired (now : Z) (u : t) : list timer :=
  fold_right insertByDue [] (filter (fun x => due x <=? now) (timers u)).

End Callbacks.

Arguments mkTimer {callback}.
Arguments handle {callback}.
Arguments due {callback}.
Arguments action {callback}.
Arguments mk {callback}.
Arguments snackbarTimeout {callback}.
Arguments snackbarMessage {callback}.
Arguments snackbarActive {callback}.
Arguments timers {callback}.
Arguments nextHandle {callback}.
Arguments init {callback}.
Arguments clearTimeout {callback}.
Arguments setTimeout {callback}.
Arguments cancelSnackbarTimeout {callback}.
Arguments showSnackbar {callback}.
Arguments hideSnackbar {callback}.
Arguments pending {callback}.
Arguments expired {callback}.

End Ui.

(* ====================================================================== *)
(** ** The client over the REST API *)
(* ====================================================================== *)

Module Api.

Inductive callback := ClearUndo | HideSnackbar.

Record App := mkApp {
  tasks : list Task.t;
  deletedTask : option Task.t;
  deletedTaskIndex : Z;
  ui : Ui.t callback
}.

(** The fields the constructor sets before [loadTasks]. *)
Definition init : App := mkApp [] None (-1) Ui.init.

(** What happens to one request on the way: it is answered, it never
    reaches the server, or the answer is lost on the way back.  The
    string is the message of the error [fetch] rejects with. *)
Inductive link :=
| Delivered
| RequestLost (msg : JS.jsstring)
| ResponseLost (msg : JS.jsstring).

(** The environment of one operation: the clock of the browser when the
    handler starts and when it goes on after its [await], the clock of
    the server, whether the database answers, the network. *)
Record env := mkEnv {
  started : Z;
  now : Z;
  serverNow : Z;
  dbUp : bool;
  net : link
}.

Record world := mkWorld {
  app : App;
  db : Server.table
}.

Definition setTasks (l : list Task.t) (a : App) : App :=
  mkApp l (deletedTask a) (deletedTaskIndex a) (ui a).

Definition setDeleted (d : option Task.t) (i : Z) (a : App) : App :=
  mkApp (tasks a) d i (ui a).

Definition setUi (u : Ui.t callback) (a : App) : App :=
  mkApp (tasks a) (deletedTask a) (deletedTaskIndex a) u.

Definition showSnackbar (t : Z) (msg : JS.jsstring) (a : App) : App :=
  setUi (Ui.showSnackbar HideSnackbar t msg (ui a)) a.

Definition hideSnackbar (a : App) : App :=
  setUi (Ui.hideSnackbar (ui a)) a.

(** The body of each closure handed to [setTimeout]. *)
Definition run (cb : callback) (a : App) : App :=
  match cb with
  | ClearUndo => setDeleted None (-1) a
  | HideSnackbar => hideSnackbar a
  end.

(** A timer fires once, unless [clearTimeout] removed it before. *)
Definition fire (x : Ui.timer callback) (a : App) : App :=
  if Ui.pending (Ui.handle x) (ui a) then
    run (Ui.action x) (setUi (Ui.clearTimeout (Ui.handle x) (ui a)) a)
  else a.

(** The timers that have expired at [t] fire, earliest first: before a
    handler starts, and while it waits for the answer of the backend. *)
Definition runTimers (t : Z) (a : App) : App :=
  fold_left (fun acc x => fire x acc) (Ui.expired t (ui a)) a.

(** [response.ok] *)
Definition responseOk (r : Server.response) : bool :=
  (200 <=? Server.status r) && (Server.status r <=? 299).

Definition fetch (e : env) (req : Server.request) (tbl : Server.table)
    : (JS.jsstring + Server.response) * Server.table :=
  match net e with
  | RequestLost m => (inl m, tbl)
  | ResponseLost m =>
      (inl m, snd (Server.handle (dbUp e) (serverNow e) req tbl))
  | Delivered =>
      let (r, tbl') := Server.handle (dbUp e) (serverNow e) req tbl in
      (inr r, tbl')
  end.

(** [error.error || `API error: ${response.status}`] *)
Definition errorMessage (r : Server.response) : JS.jsstring :=
  match Server.error r with
  | Some m =>
      if JS.truthy m then m
      else JS.str "API error: " ++ JS.toString (Server.status r)
  | None => JS.str "API error: " ++ JS.toString (Server.status r)
  end.

(** The body of the [try] block of [apiCall]: [inl msg] when it throws
    [Error(msg)], [inr r] when it returns the envelope [r]. *)
Definition exchange (e : env) (req : Server.request) (tbl : Server.table)
    : (JS.jsstring + Server.response) * Server.table :=
  let (res, tbl') := fetch e req tbl in
  (match res with
   | inl m => inl m
   | inr r => if responseOk r then inr r else inl (errorMessage r)
   end, tbl').

(** [apiCall]: the caller goes on at [now e], after the timers that
    expired while it waited; the [catch] block shows the snackbar and
    throws again. *)
Definition apiCall (e : env) (req : Server.request) (w : world)
    : (JS.jsstring + Server.response) * world :=
  let (outcome, tbl') := exchange e req (db w) in
  let a := runTimers (now e) (app w) in
  match outcome with
  | inl m =>
      (inl m, mkWorld (showSnackbar (now e) (JS.str "Error: " ++ m) a) tbl')
  | inr r => (inr r, mkWorld a tbl')
  end.

(** In the operations below an envelope whose [data] has another shape
    than the route sends makes the operation throw inside its own [try]:
    the [catch] of [loadTasks] empties the array, the others only log. *)

(** [loadTasks] *)
Definition loadTasks (e : env) (w : world) : world :=
  match apiCall e Server.GetTasks w with
  | (inr r, w1) =>
      if Server.success r then
        match Server.data r with
        | Server.TaskList l =>
            mkWorld (setTasks (map Task.fromJSON l) (app w1)) (db w1)
        | _ => mkWorld (setTasks [] (app w1)) (db w1)
        end
      else w1
  | (inl _, w1) => mkWorld (setTasks [] (app w1)) (db w1)
  end.

(** [addTask(title)] *)
Definition addTask (e : env) (title : JS.jsstring) (w : world) : world :=
  match apiCall e (Server.PostTask (Some title)) w with
  | (inr r, w1) =>
      if Server.success r then
        match Server.data r with
        | Server.TaskData obj =>
            let newTask := Task.fromJSON obj in
            let a := setTasks (newTask :: tasks (app w1)) (app w1) in
            mkWorld
              (showSnackbar (now e) (JS.str "Task added successfully") a)
              (db w1)
        | _ => w1
        end
      else w1
  | (inl _, w1) => w1
  end.

(** [toggleTask(id)] *)
Definition toggleTask (e : env) (i : JS.jsstring) (w : world) : world :=
  match JS.find (Task.hasId i) (tasks (app w)) with
  | None => w
  | Some task =>
      match apiCall e
              (Server.PutTask i None (Some (negb (Task.isDone task)))) w with
      | (inr r, w1) =>
          if Server.success r then
            match Server.data r with
            | Server.TaskData d =>
                mkWorld
                  (setTasks
                     (JS.assignFirst (Task.hasId i)
                        (Task.setIsDone (Task.isDone d)) (tasks (app w1)))
                     (app w1))
                  (db w1)
            | _ => w1
            end
          else w1
      | (inl _, w1) => w1
      end
  end.

(** [deleteTask(id)]; after the [await] the record is read again, in
    the [try] block, where a cleared record makes the template literal
    throw, and in the guard of the [catch] block. *)
Definition deleteTask (e : env) (i : JS.jsstring) (w : world) : world :=
  let index := JS.findIndex (Task.hasId i) (tasks (app w)) in
  if index =? -1 then w
  else
    let a1 := setDeleted (JS.index (tasks (app w)) index) index (app w) in
    let a2 := setTasks (JS.splice index 1 [] (tasks a1)) a1 in
    match apiCall e (Server.DeleteTask i) (mkWorld a2 (db w)) with
    | (inr _, w1) =>
        match deletedTask (app w1) with
        | Some d =>
            let a3 :=
              showSnackbar (now e)
                (JS.str "Deleted " ++ [JS.quote] ++ Task.title d ++ [JS.quote])
                (app w1) in
            let (_, u) := Ui.setTimeout ClearUndo 5000 (now e) (ui a3) in
            mkWorld (setUi u a3) (db w1)
        | None => w1
        end
    | (inl _, w1) =>
        match deletedTask (app w1) with
        | Some d =>
            if negb (deletedTaskIndex (app w1) =? -1) then
              mkWorld
                (setTasks
                   (JS.splice (deletedTaskIndex (app w1)) 0 [d]
                      (tasks (app w1)))
                   (app w1))
                (db w1)
            else w1
        | None => w1
        end
    end.

(** [undoDelete()]; the title is read before the [await], the index
    after it. *)
Definition undoDelete (e : env) (w : world) : world :=
  match deletedTask (app w) with
  | None => w
  | Some d =>
      match apiCall e (Server.PostTask (Some (Task.title d))) w with
      | (inr r, w1) =>
          if Server.success r then
            match Server.data r with
            | Server.TaskData obj =>
                let restoredTask := Task.fromJSON obj in
                let a1 :=
                  setTasks
                    (JS.splice (deletedTaskIndex (app w1)) 0 [restoredTask]
                       (tasks (app w1)))
                    (app w1) in
                let a2 := setDeleted None (-1) (hideSnackbar a1) in
                mkWorld (showSnackbar (now e) (JS.str "Task restored") a2)
                  (db w1)
            | _ => w1
            end
          else w1
      | (inl _, w1) => w1
      end
  end.

(** [editTask(id, newTitle)] *)
Definition editTask (e : env) (i newTitle : JS.jsstring) (w : world)
    : world :=
  if negb (JS.truthy (JS.trim newTitle)) then w
  else
    match apiCall e (Server.PutTask i (Some newTitle) None) w with
    | (inr r, w1) =>
        if Server.success r then
          match JS.find (Task.hasId i) (tasks (app w1)), Server.data r with
          | Some _, Server.TaskData d =>
              let a :=
                setTasks
                  (JS.assignFirst (Task.hasId i)
                     (Task.setTitle (Task.title d)) (tasks (app w1)))
                  (app w1) in
              mkWorld
                (showSnackbar (now e) (JS.str "Task updated successfully") a)
                (db w1)
          | _, _ => w1
          end
        else w1
    | (inl _, w1) => w1
    end.

(** The record a successful POST hands to [addTask], if any. *)
Definition created (e : env) (title : JS.jsstring) (tbl : Server.table)
    : option Task.t :=
  match fst (exchange e (Server.PostTask (Some title)) tbl) with
  | inr r =>
      if Server.success r then
        match Server.data r with
        | Server.TaskData obj => Some (Task.fromJSON obj)
        | _ => None
        end
      else None
  | inl _ => None
  end.

(** A run of [addTask] calls, and the records their successful POSTs
    handed back, oldest first. *)
Fixpoint addAll (l : list (env * JS.jsstring)) (w : world) : world :=
  match l with
  | [] => w
  | (e, title) :: r => addAll r (addTask e title w)
  end.

Fixpoint createdAll (l : list (env * JS.jsstring)) (w : world)
    : list Task.t :=
  match l with
  | [] => []
  | (e, title) :: r =>
      match created e title (db w) with
      | Some task => task :: createdAll r (addTask e title w)
      | None => createdAll r (addTask e title w)
      end
  end.

(** What can happen to a session: the page is opened, the user acts, or
    another client sends a request to the server. *)
Inductive event :=
| Start
| Add (title : JS.jsstring)
| Toggle (i : JS.jsstring)
| Edit (i newTitle : JS.jsstring)
| Delete (i : JS.jsstring)
| UndoDelete
| Foreign (req : Server.request).

Definition step (e : env) (ev : event) (w : world) : world :=
  let w0 := mkWorld (runTimers (started e) (app w)) (db w) in
  match ev with
  | Start => loadTasks e (mkWorld init (db w))
  | Add title => addTask e title w0
  | Toggle i => toggleTask e i w0
  | Edit i newTitle => editTask e i newTitle w0
  | Delete i => deleteTask e i w0
  | UndoDelete => undoDelete e w0
  | Foreign req =>
      mkWorld (app w0)
        (snd (Server.handle (dbUp e) (serverNow e) req (db w0)))
  end.

Definition run_events (l : list (env * event)) (w : world) : world :=
  fold_left (fun acc x => step (fst x) (snd x) acc) l w.

(** An empty database and a page that has not been opened yet. *)
Definition initial : world := mkWorld init [].

Inductive reachable : world -> Prop :=
| reachable_initial : reachable initial
| reachable_step e ev w : reachable w -> reachable (step e ev w).

End Api.

(* ====================================================================== *)
(** ** The client over localStorage *)
(* ====================================================================== *)

Module Local.

Inductive callback := HideSnackbar.

Record App := mkApp {
  tasks : list Task.t;
  deletedTask : option Task.t;
  deletedTaskIndex : Z;
  ui : Ui.t callback
}.

Definition init : App := mkApp [] None (-1) Ui.init.

(** The environment of one operation: the clock of the browser and
    whether [localStorage.setItem] accepts the write. *)
Record env := mkEnv {
  now : Z;
  quotaOk : bool
}.

(** [storage] is the document under the key [todo_tasks], [None] when
    the key is absent; the JSON text is identified with the array of
    plain objects it encodes. *)
Record world := mkWorld {
  app : App;
  storage : option (list Task.t)
}.

Definition setTasks (l : list Task.t) (a : App) : App :=
  mkApp l (deletedTask a) (deletedTaskIndex a) (ui a).

Definition setDeleted (d : option Task.t) (i : Z) (a : App) : App :=
  mkApp (tasks a) d i (ui a).

Definition setUi (u : Ui.t callback) (a : App) : App :=
  mkApp (tasks a) (deletedTask a) (deletedTaskIndex a) u.

Definition showSnackbar (t : Z) (msg : JS.jsstring) (a : App) : App :=
  setUi (Ui.showSnackbar HideSnackbar t msg (ui a)) a.

Definition hideSnackbar (a : App) : App :=
  setUi (Ui.hideSnackbar (ui a)) a.

(** [loadTasks]; the document is one [saveTasks] wrote, so [JSON.parse]
    does not throw. *)
Definition loadTasks (w : world) : world :=
  match storage w with
  | Some parsed =>
      mkWorld (setTasks (map Task.fromJSON parsed) (app w)) (storage w)
  | None => w
  end.

(** [saveTasks] *)
Definition saveTasks (e : env) (w : world) : world :=
  if quotaOk e then
    mkWorld (app w) (Some (map Task.toJSON (tasks (app w))))
  else w.

(** [addTask()]; [input] is [this.taskInput.value]. *)
Definition addTask (e : env) (input : JS.jsstring) (w : world) : world :=
  let title := JS.trim input in
  if negb (JS.truthy title) then w
  else
    let task := Task.create (now e) title in
    saveTasks e
      (mkWorld (setTasks (task :: tasks (app w)) (app w)) (storage w)).

(** [toggleTask(id)] *)
Definition toggleTask (e : env) (i : JS.jsstring) (w : world) : world :=
  match JS.find (Task.hasId i) (tasks (app w)) with
  | Some task =>
      saveTasks e
        (mkWorld
           (setTasks
              (JS.assignFirst (Task.hasId i)
                 (Task.setIsDone (negb (Task.isDone task))) (tasks (app w)))
              (app w))
           (storage w))
  | None => w
  end.

(** [deleteTask(id)] *)
Definition deleteTask (e : env) (i : JS.jsstring) (w : world) : world :=
  let index := JS.findIndex (Task.hasId i) (tasks (app w)) in
  if index =? -1 then w
  else
    let a1 := setDeleted (JS.index (tasks (app w)) index) index (app w) in
    let a2 := setTasks (JS.splice index 1 [] (tasks a1)) a1 in
    let w1 := saveTasks e (mkWorld a2 (storage w)) in
    match deletedTask (app w1) with
    | Some d =>
        mkWorld
          (showSnackbar (now e)
             (JS.str "Deleted " ++ [JS.quote] ++ Task.title d ++ [JS.quote])
             (app w1))
          (storage w1)
    | None => w1
    end.

(** [undoDelete()] *)
Definition undoDelete (e : env) (w : world) : world :=
  match deletedTask (app w) with
  | Some d =>
      if negb (deletedTaskIndex (app w) =? -1) then
        let a1 :=
          setTasks (JS.splice (deletedTaskIndex (app w)) 0 [d] (tasks (app w)))
            (app w) in
        let w1 := saveTasks e (mkWorld a1 (storage w)) in
        mkWorld (setDeleted None (-1) (hideSnackbar (app w1))) (storage w1)
      else w
  | None => w
  end.

(** [editTask(id, newTitle)] *)
Definition editTask (e : env) (i newTitle : JS.jsstring) (w : world)
    : world :=
  match JS.find (Task.hasId i) (tasks (app w)) with
  | Some _ =>
      if JS.truthy (JS.trim newTitle) then
        saveTasks e
          (mkWorld
             (setTasks
                (JS.assignFirst (Task.hasId i)
                   (Task.setTitle (JS.trim newTitle)) (tasks (app w)))
                (app w))
             (storage w))
      else w
  | None => w
  end.

(** The task [addTask] creates, if the input is not blank. *)
Definition created (e : env) (input : JS.jsstring) : option Task.t :=
  if JS.truthy (JS.trim input) then
    Some (Task.create (now e) (JS.trim input))
  else None.

(** A run of [addTask] calls, and the tasks they created, oldest
    first. *)
Fixpoint addAll (l : list (env * JS.jsstring)) (w : world) : world :=
  match l with
  | [] => w
  | (e, input) :: r => addAll r (addTask e input w)
  end.

Fixpoint createdAll (l : list (env * JS.jsstring)) : list Task.t :=
  match l with
  | [] => []
  | (e, input) :: r =>
      match created e input with
      | Some task => task :: createdAll r
      | None => createdAll r
      end
  end.

Definition run (cb : callback) (a : App) : App :=
  match cb with
  | HideSnackbar => hideSnackbar a
  end.

Definition fire (x : Ui.timer callback) (a : App) : App :=
  if Ui.pending (Ui.handle x) (ui a) then
    run (Ui.action x) (setUi (Ui.clearTimeout (Ui.handle x) (ui a)) a)
  else a.

Definition runTimers (t : Z) (a : App) : App :=
  fold_left (fun acc x => fire x acc) (Ui.expired t (ui a)) a.

Inductive event :=
| Start
| Add (input : JS.jsstring)
| Toggle (i : JS.jsstring)
| Edit (i newTitle : JS.jsstring)
| Delete (i : JS.jsstring)
| UndoDelete.

Definition step (e : env) (ev : event) (w : world) : world :=
  let w0 := mkWorld (runTimers (now e) (app w)) (storage w) in
  match ev with
  | Start => loadTasks (mkWorld init (storage w))
  | Add input => addTask e input w0
  | Toggle i => toggleTask e i w0
  | Edit i newTitle => editTask e i newTitle w0
  | Delete i => deleteTask e i w0
  | UndoDelete => undoDelete e w0
  end.

Definition run_events (l : list (env * event)) (w : world) : world :=
  fold_left (fun acc x => step (fst x) (snd x) acc) l w.

(** A browser whose storage has no [todo_tasks] key yet. *)
Definition initial : world := mkWorld init None.

Inductive reachable : world -> Prop :=
| reachable_initial : reachable initial
| reachable_step e ev w : reachable w -> reachable (step e ev w).

End Local.

(* ====================================================================== *)
(** ** Properties of titles, tables and sessions *)
(* ====================================================================== *)

(** A title as the program stores it: trimmed and not empty. *)
Definition stored_title (s : JS.jsstring) : Prop :=
  JS.trim s = s /\ s <> [].

(** A whitespace-only (possibly empty) input. *)
Definition blank (s : JS.jsstring) : Prop :=
  forallb JS.isWhiteSpace s = true.

Definition tasks_stored (l : list Task.t) : Prop :=
  Forall (fun task => stored_title (Task.title task)) l.

(** No row of the table has the id [i]. *)
Definition no_row (i : JS.jsstring) (tbl : Server.table) : Prop :=
  Forall (fun r => Server.r_id r <> i) tbl.

Definition titles_stored (tbl : Server.table) : Prop :=
  Forall (fun r => stored_title (Server.r_title r)) tbl.

Definition ids_unique (tbl : Server.table) : Prop :=
  NoDup (map Server.r_id tbl).

Definition payload_stored (d : Server.payload) : Prop :=
  match d with
  | Server.NoData => True
  | Server.TaskData task => stored_title (Task.title task)
  | Server.TaskList l => tasks_stored l
  end.

Definition record_stored (d : option Task.t) : Prop :=
  match d with
  | Some task => stored_title (Task.title task)
  | None => True
  end.



(** No undo countdown runs out by the clock reading [t]: the timers of
    [a] that are due by then only hide the snackbar. *)
Definition quiet (t : Z) (a : Api.App) : Prop :=
  Forall (fun x => Ui.due x <= t -> Ui.action x = Api.HideSnackbar)
    (Ui.timers (Api.ui a)).

(** Every task in memory has a row in the table. *)
Definition synced (l : list Task.t) (tbl : Server.table) : Prop :=
  Forall (fun task => existsb (Server.hasId (Task.id task)) tbl = true) l.

(** What identifies a task and never changes: its id and creation time. *)
Definition identity (task : Task.t) : JS.jsstring * Z :=
  (Task.id task, Task.createdAt task).

(** Each id names one task of the array, the task of the pending-undo
    record is not in the array, and each id names one task of the stored
    document. *)
Definition local_ids_unique (w : Local.world) : Prop :=
  NoDup (map Task.id (Local.tasks (Local.app w))) /\
  (forall d, Local.deletedTask (Local.app w) = Some d ->
     ~ In (Task.id d) (map Task.id (Local.tasks (Local.app w)))) /\
  match Local.storage w with
  | Some l => NoDup (map Task.id l)
  | None => True
  end.

(** The clock reading of [e] gave its numeral to no task the session
    holds. *)
Definition local_clock_fresh (e : Local.env) (w : Local.world) : Prop :=
  ~ In (JS.toString (Local.now e))
       (map Task.id (Local.tasks (Local.app w))) /\
  (forall d, Local.deletedTask (Local.app w) = Some d ->
     Task.id d <> JS.toString (Local.now e)).

(** The sessions of the localStorage client in which every add reads a
    fresh clock value. *)
Inductive local_reachable_fresh : Local.world -> Prop :=
| fresh_initial : local_reachable_fresh Local.initial
| fresh_add e input w :
    local_reachable_fresh w -> local_clock_fresh e w ->
    local_reachable_fresh (Local.step e (Local.Add input) w)
| fresh_other e ev w :
    local_reachable_fresh w -> (forall input, ev <> Local.Add input) ->
    local_reachable_fresh (Local.step e ev w).

(* ====================================================================== *)
(** ** Sample sessions *)
(* ====================================================================== *)

Module Sample.

(** A working backend at clock reading [t], the same on both sides. *)
Definition healthy (t : Z) : Api.env :=
  Api.mkEnv t t t true Api.Delivered.

(** The database does not answer. *)
Definition dbDown (t : Z) : Api.env :=
  Api.mkEnv t t t false Api.Delivered.



Definition browser (t : Z) : Local.env := Local.mkEnv t true.

Definition milk : Task.t :=
  Task.new (JS.str "1000") (JS.str "Buy milk") false 1000.

Definition bob : Task.t :=
  Task.new (JS.str "2000") (JS.str "Call Bob") false 2000.

Definition milkRow : Server.row :=
  Server.mkRow (JS.str "1000") (JS.str "Buy milk") false 1000 1000.

Definition bobRow : Server.row :=
  Server.mkRow (JS.str "2000") (JS.str "Call Bob") false 2000 2000.

(** Two tasks added through the API client. *)
Definition twoTasks : Api.world :=
  Api.run_events
    [(healthy 1000, Api.Add (JS.str "Buy milk"));
     (healthy 2000, Api.Add (JS.str "Call Bob"))]
    Api.initial.

(** Both tasks deleted, the second one 3 seconds after the first. *)
Definition twoDeletes : Api.world :=
  Api.run_events
    [(healthy 10000, Api.Delete (JS.str "1000"));
     (healthy 13000, Api.Delete (JS.str "2000"))]
    twoTasks.

(** One task, and a delete while the database is down. *)
Definition failedDelete : Api.world :=
  Api.run_events
    [(healthy 1000, Api.Add (JS.str "Buy milk"));
     (dbDown 2000, Api.Delete (JS.str "1000"))]
    Api.initial.

(** Two adds within the same millisecond in the localStorage client. *)
Definition sameMillisecond : Local.world :=
  Local.run_events
    [(browser 1000, Local.Add (JS.str "Buy milk"));
     (browser 1000, Local.Add (JS.str "Call Bob"))]
    Local.initial.

(** Add, toggle, delete: the session right before an undo, in each
    client. *)
Definition localBeforeUndo : Local.world :=
  Local.run_events
    [(browser 1000, Local.Add (JS.str "Buy milk"));
     (browser 2000, Local.Toggle (JS.str "1000"));
     (browser 3000, Local.Delete (JS.str "1000"))]
    Local.initial.

Definition apiBeforeUndo : Api.world :=
  Api.run_events
    [(healthy 1000, Api.Add (JS.str "Buy milk"));
     (healthy 2000, Api.Toggle (JS.str "1000"));
     (healthy 3000, Api.Delete (JS.str "1000"))]
    Api.initial.





End Sample.

(* ====================================================================== *)
(** ** Further properties of tables *)
(* ====================================================================== *)

(** What no statement of the routes rewrites: the id and the creation
    time of a row. *)
Definition row_key (r : Server.row) : JS.jsstring * Z :=
  (Server.r_id r, Server.r_created_at r).

Definition newer (a b : Server.row) : Prop :=
  Server.r_created_at b <= Server.r_created_at a.

(** Newest first: [ORDER BY created_at DESC]. *)
Definition newest_first (l : list Task.t) : Prop :=
  StronglySorted (fun a b => Task.createdAt b <= Task.createdAt a) l.

(* ====================================================================== *)
(** ** The statistics chips and the stored document *)
(* ====================================================================== *)

Module Stats.

(** [this.tasks.filter(t => !t.isDone).length] *)
Definition pendingCount (l : list Task.t) : nat :=
  length (filter (fun t => negb (Task.isDone t)) l).

(** [this.tasks.filter(t => t.isDone).length] *)
Definition doneCount (l : list Task.t) : nat :=
  length (filter Task.isDone l).

(** [renderStats]: [None] when the element is emptied, else the numbers
    of the "pending" and the "done" chip. *)
Definition renderStats (l : list Task.t) : option (nat * nat) :=
  if Nat.eqb (length l) 0 then None
  else Some (pendingCount l, doneCount l).

End Stats.

(** The stored document is the task array; no document yet goes with an
    empty array. *)
Definition local_saved (w : Local.world) : Prop :=
  match Local.storage w with
  | Some l => l = Local.tasks (Local.app w)
  | None => Local.tasks (Local.app w) = []
  end.

(* ====================================================================== *)
(** ** Properties of the timers of the API client *)
(* ====================================================================== *)

Module Timers.

Definition isHide (x : Ui.timer Api.callback) : bool :=
  match Ui.action x with
  | Api.HideSnackbar => true
  | Api.ClearUndo => false
  end.

Definition isCountdown (x : Ui.timer Api.callback) : bool :=
  match Ui.action x with
  | Api.ClearUndo => true
  | Api.HideSnackbar => false
  end.

(** The pending timers that hide the snackbar, and the pending undo
    countdowns. *)
Definition hideTimers (u : Ui.t Api.callback) : list (Ui.timer Api.callback) :=
  filter isHide (Ui.timers u).

Definition countdowns (u : Ui.t Api.callback) : list (Ui.timer Api.callback) :=
  filter isCountdown (Ui.timers u).

(** Firing the timers of a list one after the other. *)
Definition fireAll (l : list (Ui.timer Api.callback)) (a : Api.App) : Api.App :=
  fold_left (fun acc x => Api.fire x acc) l a.

(** Handles are handed out once: the pending timers have distinct
    handles below the next one, and so has [snackbarTimeout]. *)
Definition handles_fresh (u : Ui.t Api.callback) : Prop :=
  NoDup (map Ui.handle (Ui.timers u)) /\
  Forall (fun x => (Ui.handle x < Ui.nextHandle u)%nat) (Ui.timers u) /\
  (forall h, Ui.snackbarTimeout u = Some h -> (h < Ui.nextHandle u)%nat).

(** The pending timers that hide the snackbar are those [snackbarTimeout]
    names. *)
Definition snackbar_timer (u : Ui.t Api.callback) : Prop :=
  handles_fresh u /\
  (forall x, In x (Ui.timers u) ->
     (Ui.action x = Api.HideSnackbar <->
      Ui.snackbarTimeout u = Some (Ui.handle x))).

(** Moreover the snackbar is shown exactly while such a timer is
    pending. *)
Definition snackbar_ok (u : Ui.t Api.callback) : Prop :=
  snackbar_timer u /\
  (Ui.snackbarActive u = true <->
   exists x, In x (Ui.timers u) /\ Ui.action x = Api.HideSnackbar).

End Timers.

(* ====================================================================== *)
(** ** The modal form *)
(* ====================================================================== *)

Module Modal.

(** What the form handlers read and write: [editingTaskId] ([None] for
    [null]), [taskInput.value], [modalTitle.textContent] and the class
    [active] of [modalOverlay].  The label of the submit button and the
    timer that focuses the input touch nothing else and are left out. *)
Record t := mk {
  editingTaskId : option JS.jsstring;
  taskInput : JS.jsstring;
  modalTitle : JS.jsstring;
  active : bool
}.

Definition setEditing (i : option JS.jsstring) (f : t) : t :=
  mk i (taskInput f) (modalTitle f) (active f).

(** The user types [s] into the input. *)
Definition typeInput (s : JS.jsstring) (f : t) : t :=
  mk (editingTaskId f) s (modalTitle f) (active f).

(** [if (taskId)] and [if (this.editingTaskId)]: the id, when it is
    neither [null] nor the empty string. *)
Definition given (i : option JS.jsstring) : option JS.jsstring :=
  match i with
  | Some s => if JS.truthy s then Some s else None
  | None => None
  end.

(** [openModal(taskId)], the same in both clients *)
Definition openModal (taskId : option JS.jsstring) (tasks : list Task.t)
    (f : t) : t :=
  let f1 := setEditing taskId f in
  let f2 :=
    match given taskId with
    | Some i =>
        match JS.find (Task.hasId i) tasks with
        | Some task =>
            mk (editingTaskId f1) (Task.title task) (JS.str "Edit Task")
               (active f1)
        | None => f1
        end
    | None => mk (editingTaskId f1) [] (JS.str "Add New Task") (active f1)
    end in
  mk (editingTaskId f2) (taskInput f2) (modalTitle f2) true.

(** [closeModal()] *)
Definition closeModal (f : t) : t :=
  mk (editingTaskId f) (taskInput f) (modalTitle f) false.

(** [this.closeModal(); this.editingTaskId = null] *)
Definition dismiss (f : t) : t := setEditing None (closeModal f).

(** What [addTask] of the API client does to the form: it is dismissed
    when the POST succeeded. *)
Definition apiAddTask (e : Api.env) (title : JS.jsstring)
    (p : t * Api.world) : t * Api.world :=
  (match Api.created e title (Api.db (snd p)) with
   | Some _ => dismiss (fst p)
   | None => fst p
   end,
   Api.addTask e title (snd p)).

(** [handleSubmit()] of the API client; the call it starts runs to its
    end before the next event, as in [Api.step]. *)
Definition apiHandleSubmit (e : Api.env) (p : t * Api.world)
    : t * Api.world :=
  let title := JS.trim (taskInput (fst p)) in
  if negb (JS.truthy title) then p
  else
    let p1 :=
      match given (editingTaskId (fst p)) with
      | Some i => (fst p, Api.editTask e i title (snd p))
      | None => apiAddTask e title p
      end in
    (dismiss (fst p1), snd p1).

(** What [addTask()] of the localStorage client does to the form; it
    reads the input itself. *)
Definition localAddTask (e : Local.env) (p : t * Local.world)
    : t * Local.world :=
  if negb (JS.truthy (JS.trim (taskInput (fst p)))) then p
  else (dismiss (fst p), Local.addTask e (taskInput (fst p)) (snd p)).

(** [handleSubmit()] of the localStorage client *)
Definition localHandleSubmit (e : Local.env) (p : t * Local.world)
    : t * Local.world :=
  let title := JS.trim (taskInput (fst p)) in
  if negb (JS.truthy title) then p
  else
    let p1 :=
      match given (editingTaskId (fst p)) with
      | Some i => (fst p, Local.editTask e i title (snd p))
      | None => localAddTask e p
      end in
    (dismiss (fst p1), snd p1).

End Modal.

(* ====================================================================== *)
(** ** The task array against the table *)
(* ====================================================================== *)

(** The task array holds the rows of the table, each once. *)
Definition mirrors (w : Api.world) : Prop :=
  Permutation (Api.tasks (Api.app w)) (map Server.returning (Api.db w)) /\
  ids_unique (Api.db w).





(* ====================================================================== *)
(** ** Facts about the JavaScript primitives *)
(* ====================================================================== *)

Module JSFacts.

Import JS.

Lemma eqb_refl (a : jsstring) : eqb a a = true.
Proof.
  induction a as [|x a IH]; simpl; [reflexivity|].
  now rewrite N.eqb_refl, IH.
Qed.

Lemma eqb_eq (a b : jsstring) : eqb a b = true <-> a = b.
Proof.
  split.
  - revert b; induction a as [|x a IH]; intros [|y b] H; simpl in H;
      try discriminate; [reflexivity|].
    apply andb_true_iff in H as [Hxy Hab].
    apply N.eqb_eq in Hxy. apply IH in Hab. now subst.
  - intros ->. apply eqb_refl.
Qed.

Lemma eqb_neq (a b : jsstring) : eqb a b = false <-> a <> b.
Proof.
  split.
  - intros H E. apply eqb_eq in E. congruence.
  - intros H. destruct (eqb a b) eqn:E; [|reflexivity].
    apply eqb_eq in E. contradiction.
Qed.


(** *** trim *)

Lemma trimStart_head c r s :
  trimStart s = c :: r -> isWhiteSpace c = false.
Proof.
  induction s as [|x s IH]; simpl; [discriminate|].
  destruct (isWhiteSpace x) eqn:E; [exact IH|].
  intros [= <- _]. exact E.
Qed.

Lemma trimStart_fixed c r :
  isWhiteSpace c = false -> trimStart (c :: r) = c :: r.
Proof. intros H. simpl. now rewrite H. Qed.

Lemma trimStart_idem s : trimStart (trimStart s) = trimStart s.
Proof.
  destruct (trimStart s) as [|c r] eqn:E; [reflexivity|].
  apply trimStart_fixed. eapply trimStart_head; eassumption.
Qed.

Lemma trimStart_suffix s : exists w, s = w ++ trimStart s.
Proof.
  induction s as [|x s [w IH]]; simpl.
  - now exists [].
  - destruct (isWhiteSpace x).
    + exists (x :: w). simpl. now f_equal.
    + now exists [].
Qed.

Lemma trimEnd_prefix s : exists w, s = trimEnd s ++ w.
Proof.
  unfold trimEnd. destruct (trimStart_suffix (rev s)) as [w Hw].
  exists (rev w).
  rewrite <- rev_app_distr, <- Hw. symmetry. apply rev_involutive.
Qed.

Lemma trimEnd_idem s : trimEnd (trimEnd s) = trimEnd s.
Proof.
  unfold trimEnd. now rewrite rev_involutive, trimStart_idem.
Qed.

Lemma trimStart_trim s : trimStart (trim s) = trim s.
Proof.
  unfold trim.
  destruct (trimEnd_prefix (trimStart s)) as [w Hw].
  destruct (trimEnd (trimStart s)) as [|c r] eqn:E; [reflexivity|].
  apply trimStart_fixed.
  apply (trimStart_head c (r ++ w) s). exact Hw.
Qed.

Lemma trim_idem s : trim (trim s) = trim s.
Proof.
  unfold trim at 1. rewrite trimStart_trim.
  unfold trim. apply trimEnd_idem.
Qed.

Lemma trimStart_blank s :
  forallb isWhiteSpace s = true -> trimStart s = [].
Proof.
  induction s as [|c s IH]; simpl; [reflexivity|].
  intros H. apply andb_true_iff in H as [Hc Hs]. rewrite Hc. now apply IH.
Qed.

Lemma trim_blank s : forallb isWhiteSpace s = true -> trim s = [].
Proof.
  intros H. unfold trim. now rewrite (trimStart_blank s H).
Qed.

(** *** toString *)



(** *** splice *)

Lemma splice_insert {A} (n : nat) (x : A) (l : list A) :
  (n <= length l)%nat ->
  splice (Z.of_nat n) 0 [x] l = firstn n l ++ x :: skipn n l.
Proof.
  intros H. unfold splice.
  assert (E : (Z.of_nat n <? 0) = false) by (apply Z.ltb_ge; lia).
  rewrite E.
  replace (Z.min (Z.of_nat n) (Z.of_nat (length l))) with (Z.of_nat n) by lia.
  replace (Z.min (Z.max 0 0) (Z.of_nat (length l) - Z.of_nat n)) with 0 by lia.
  rewrite Z.add_0_r, Nat2Z.id. reflexivity.
Qed.


Lemma splice_remove {A} (n : nat) (l : list A) :
  (n < length l)%nat ->
  splice (Z.of_nat n) 1 [] l = firstn n l ++ skipn (S n) l.
Proof.
  intros H. unfold splice.
  assert (E : (Z.of_nat n <? 0) = false) by (apply Z.ltb_ge; lia).
  rewrite E.
  replace (Z.min (Z.of_nat n) (Z.of_nat (length l))) with (Z.of_nat n) by lia.
  replace (Z.min (Z.max 1 0) (Z.of_nat (length l) - Z.of_nat n)) with 1 by lia.
  replace (Z.to_nat (Z.of_nat n + 1)) with (S n) by lia.
  rewrite Nat2Z.id. reflexivity.
Qed.

Lemma skipn_nth_error {A} (n : nat) (x : A) (l : list A) :
  nth_error l n = Some x -> skipn n l = x :: skipn (S n) l.
Proof.
  revert l; induction n as [|n IH]; intros [|y l] H; simpl in H;
    try discriminate.
  - now injection H as ->.
  - simpl. now apply IH.
Qed.

(** Removing the element at [n] and inserting it there again gives the
    array back. *)
Lemma splice_remove_insert {A} (n : nat) (x : A) (l : list A) :
  nth_error l n = Some x ->
  splice (Z.of_nat n) 0 [x] (splice (Z.of_nat n) 1 [] l) = l.
Proof.
  intros H.
  assert (Hn : (n < length l)%nat) by (apply nth_error_Some; congruence).
  rewrite (splice_remove n l Hn).
  assert (Hlen : length (firstn n l) = n) by (apply firstn_length_le; lia).
  rewrite splice_insert by (rewrite length_app, Hlen; lia).
  rewrite firstn_app, Hlen, Nat.sub_diag, firstn_O, app_nil_r.
  rewrite firstn_firstn, Nat.min_id.
  rewrite skipn_app, Hlen, Nat.sub_diag, skipn_O.
  rewrite (skipn_all2 (firstn n l)) by lia.
  rewrite app_nil_l, <- (skipn_nth_error n x l H). apply firstn_skipn.
Qed.





(** *** find, findIndex, assignFirst *)

Lemma findIndexFrom_spec {A} (p : A -> bool) (l : list A) (k : Z) :
  0 <= k ->
  (findIndexFrom p l k = -1 /\ List.find p l = None) \/
  (exists (n : nat) (x : A),
      findIndexFrom p l k = k + Z.of_nat n /\
      nth_error l n = Some x /\ p x = true /\ List.find p l = Some x).
Proof.
  revert k; induction l as [|y l IH]; intros k Hk; simpl.
  - now left.
  - destruct (p y) eqn:E.
    + right. exists 0%nat, y. simpl. repeat split; auto. lia.
    + destruct (IH (k + 1) ltac:(lia)) as [[H1 H2]|(n & x & H1 & H2 & H3 & H4)].
      * now left.
      * right. exists (S n), x. simpl. repeat split; auto. lia.
Qed.

Lemma findIndex_spec {A} (p : A -> bool) (l : list A) :
  (findIndex p l = -1 /\ find p l = None) \/
  (exists (n : nat) (x : A),
      findIndex p l = Z.of_nat n /\
      nth_error l n = Some x /\ p x = true /\ find p l = Some x).
Proof.
  unfold findIndex, find.
  destruct (findIndexFrom_spec p l 0 ltac:(lia)) as [H|(n & x & H)]; auto.
  right. exists n, x. now rewrite Z.add_0_l in H.
Qed.

Lemma index_of_nat {A} (l : list A) (n : nat) :
  index l (Z.of_nat n) = nth_error l n.
Proof.
  unfold index.
  assert (E : (Z.of_nat n <? 0) = false) by (apply Z.ltb_ge; lia).
  now rewrite E, Nat2Z.id.
Qed.

Lemma assignFirst_length {A} (p : A -> bool) (f : A -> A) (l : list A) :
  length (assignFirst p f l) = length l.
Proof.
  induction l as [|x l IH]; simpl; [reflexivity|].
  destruct (p x); simpl; now rewrite ?IH.
Qed.

Lemma assignFirst_map {A B} (g : A -> B) (p : A -> bool) (f : A -> A)
    (l : list A) :
  (forall x, g (f x) = g x) -> map g (assignFirst p f l) = map g l.
Proof.
  intros H. induction l as [|x l IH]; simpl; [reflexivity|].
  destruct (p x); simpl; now rewrite ?H, ?IH.
Qed.



(** Whatever the start index, an insertion puts the item between a
    prefix and the matching suffix of the array. *)
Lemma splice_insert_shape {A} (i : Z) (x : A) (l : list A) :
  exists n, splice i 0 [x] l = firstn n l ++ x :: skipn n l.
Proof.
  unfold splice.
  set (s := if i <? 0 then Z.max (Z.of_nat (length l) + i) 0
            else Z.min i (Z.of_nat (length l))).
  assert (Hs : 0 <= s <= Z.of_nat (length l)).
  { unfold s. destruct (i <? 0) eqn:E; [lia|]. apply Z.ltb_ge in E. lia. }
  exists (Z.to_nat s).
  replace (Z.min (Z.max 0 0) (Z.of_nat (length l) - s)) with 0 by lia.
  now rewrite Z.add_0_r.
Qed.

Lemma NoDup_map_insert {A B} (f : A -> B) (n : nat) (x : A) (l : list A) :
  NoDup (map f l) -> ~ In (f x) (map f l) ->
  NoDup (map f (firstn n l ++ x :: skipn n l)).
Proof.
  intros Hl Hx. rewrite map_app. simpl.
  apply NoDup_Add
    with (a := f x) (l := map f (firstn n l) ++ map f (skipn n l)).
  - apply Add_app.
  - rewrite <- map_app, firstn_skipn. split; assumption.
Qed.

Lemma NoDup_map_remove {A B} (f : A -> B) (n : nat) (x : A) (l : list A) :
  nth_error l n = Some x -> NoDup (map f l) ->
  NoDup (map f (firstn n l ++ skipn (S n) l)) /\
  ~ In (f x) (map f (firstn n l ++ skipn (S n) l)).
Proof.
  intros Hx Hl.
  rewrite <- (firstn_skipn n l), (skipn_nth_error n x l Hx) in Hl.
  rewrite map_app in Hl. simpl in Hl.
  rewrite map_app. now apply NoDup_remove.
Qed.

End JSFacts.

(* ====================================================================== *)
(** ** Facts about the routes *)
(* ====================================================================== *)

Lemma stored_title_trim (s : JS.jsstring) :
  JS.eqb (JS.trim s) [] = false -> stored_title (JS.trim s).
Proof.
  intros H. split; [apply JSFacts.trim_idem|].
  now apply JSFacts.eqb_neq.
Qed.



Module ServerFacts.

Import Server.

Lemma hasId_false i r : r_id r <> i -> hasId i r = false.
Proof. intros H. now apply JSFacts.eqb_neq. Qed.

Lemma hasId_true i r : hasId i r = true -> r_id r = i.
Proof. apply JSFacts.eqb_eq. Qed.

Lemma no_row_filter i tbl : no_row i tbl -> filter (hasId i) tbl = [].
Proof.
  induction 1 as [|r tbl Hr _ IH]; simpl; [reflexivity|].
  now rewrite (hasId_false i r Hr).
Qed.

Lemma no_row_keep i tbl :
  no_row i tbl -> filter (fun r => negb (hasId i r)) tbl = tbl.
Proof.
  induction 1 as [|r tbl Hr _ IH]; simpl; [reflexivity|].
  rewrite (hasId_false i r Hr). simpl. now rewrite IH.
Qed.

Lemma no_row_update i (f : row -> row) tbl :
  no_row i tbl -> map (fun r => if hasId i r then f r else r) tbl = tbl.
Proof.
  induction 1 as [|r tbl Hr _ IH]; simpl; [reflexivity|].
  rewrite (hasId_false i r Hr). now rewrite IH.
Qed.

Lemma no_row_existsb i tbl : existsb (hasId i) tbl = false <-> no_row i tbl.
Proof.
  unfold no_row. induction tbl as [|r tbl IH]; simpl.
  - split; [constructor|reflexivity].
  - rewrite orb_false_iff, IH. split.
    + intros [H1 H2]. constructor; [|exact H2].
      now apply JSFacts.eqb_neq.
    + intros H. inversion H; subst. split; [|assumption].
      now apply hasId_false.
Qed.

Lemma find_filter {A} (p : A -> bool) (l : list A) (x : A) :
  List.find p l = Some x -> exists r, filter p l = x :: r.
Proof.
  induction l as [|y l IH]; simpl; [discriminate|].
  destruct (p y) eqn:E.
  - intros [= ->]. eauto.
  - exact IH.
Qed.

(** *** The table after each statement *)

Lemma insertDesc_In r l x : In x (insertDesc r l) -> x = r \/ In x l.
Proof.
  induction l as [|y l IH]; simpl.
  - intros [H|[]]; auto.
  - destruct (r_created_at y <=? r_created_at r); simpl.
    + intros [H|[H|H]]; auto.
    + intros [H|H]; auto. destruct (IH H); auto.
Qed.

Lemma orderBy_In l x : In x (orderByCreatedAtDesc l) -> In x l.
Proof.
  induction l as [|y l IH]; simpl; [tauto|].
  intros H. apply insertDesc_In in H as [H|H]; auto.
Qed.

Lemma insertDesc_length r l : length (insertDesc r l) = S (length l).
Proof.
  induction l as [|y l IH]; simpl; [reflexivity|].
  destruct (r_created_at y <=? r_created_at r); simpl; now rewrite ?IH.
Qed.

Lemma setClause_id t d n r : r_id (setClause t d n r) = r_id r.
Proof. reflexivity. Qed.

Lemma update_ids i t d n tbl :
  map r_id (map (fun r => if hasId i r then setClause t d n r else r) tbl)
  = map r_id tbl.
Proof.
  rewrite map_map. apply map_ext. intros r. now destruct (hasId i r).
Qed.

Lemma NoDup_map_filter {A B} (g : A -> B) (p : A -> bool) (l : list A) :
  NoDup (map g l) -> NoDup (map g (filter p l)).
Proof.
  induction l as [|x l IH]; simpl; [auto|].
  intros H. inversion H as [|? ? Hx Hl]; subst.
  destruct (p x); simpl; [|auto].
  constructor; [|auto].
  intros Hin. apply Hx. apply in_map_iff in Hin as (y & Hy & Hin).
  apply filter_In in Hin as [Hin _]. apply in_map_iff. eauto.
Qed.

(** The primary key: no statement of the routes makes an id occur
    twice in the table. *)
Lemma handle_ids_unique up now req tbl :
  ids_unique tbl -> ids_unique (snd (handle up now req tbl)).
Proof.
  unfold ids_unique. intros H.
  destruct req as [|title|i title isDone|i|]; simpl.
  - unfold getTasks. now destruct up.
  - unfold postTask. destruct title as [s|]; [|exact H].
    destruct (negb (JS.truthy s) || JS.eqb (JS.trim s) []); [exact H|].
    destruct up; [|exact H].
    unfold sqlInsert. simpl.
    destruct (existsb _ tbl) eqn:E; [exact H|]. simpl.
    rewrite map_app. simpl.
    apply no_row_existsb in E.
    apply NoDup_app; [exact H|repeat constructor; simpl; tauto|].
    intros x Hx [Hx'|[]]. subst x.
    apply in_map_iff in Hx as (r & Hr & Hin).
    unfold no_row in E. rewrite Forall_forall in E. now apply (E r Hin).
  - unfold putTask. destruct up; [|exact H].
    unfold sqlUpdate.
    destruct (map returning _); simpl; now rewrite update_ids.
  - unfold deleteTask. destruct up; [|exact H].
    unfold sqlDelete.
    destruct (map returning _); simpl; now apply NoDup_map_filter.
  - unfold deleteCompleted. destruct up; [|exact H].
    simpl. now apply NoDup_map_filter.
Qed.

Lemma Forall_filter {A} (P : A -> Prop) (p : A -> bool) (l : list A) :
  Forall P l -> Forall P (filter p l).
Proof.
  intros H. apply Forall_forall. intros x Hx.
  apply filter_In in Hx as [Hx _]. rewrite Forall_forall in H. auto.
Qed.

Lemma pushedTitle_stored title s :
  pushedTitle title = Some s -> stored_title s.
Proof.
  destruct title as [t|]; simpl; [|discriminate].
  destruct (JS.eqb (JS.trim t) []) eqn:E; [discriminate|].
  intros [= <-]. now apply stored_title_trim.
Qed.

Lemma setClause_stored title d n r :
  stored_title (r_title r) ->
  stored_title (r_title (setClause (pushedTitle title) d n r)).
Proof.
  intros H. simpl. destruct (pushedTitle title) as [s|] eqn:E; [|exact H].
  eapply pushedTitle_stored; eassumption.
Qed.

(** Every title in the table stays trimmed and non-empty. *)
Lemma handle_titles_stored up now req tbl :
  titles_stored tbl -> titles_stored (snd (handle up now req tbl)).
Proof.
  unfold titles_stored. intros H.
  destruct req as [|title|i title isDone|i|]; simpl.
  - unfold getTasks. now destruct up.
  - unfold postTask. destruct title as [s|]; [|exact H].
    destruct (JS.truthy s); simpl; [|exact H].
    destruct (JS.eqb (JS.trim s) []) eqn:E; [exact H|].
    destruct up; [|exact H].
    unfold sqlInsert. simpl.
    destruct (existsb _ tbl); [exact H|]. simpl.
    apply Forall_app. split; [exact H|].
    constructor; [|constructor]. simpl. now apply stored_title_trim.
  - unfold putTask. destruct up; [|exact H].
    unfold sqlUpdate.
    assert (G : Forall (fun r => stored_title (r_title r))
                  (map (fun r => if hasId i r
                                 then setClause (pushedTitle title) isDone now r
                                 else r) tbl)).
    { apply Forall_map. eapply Forall_impl; [|exact H].
      intros r Hr. destruct (hasId i r); [|exact Hr].
      now apply setClause_stored. }
    destruct (map returning _); simpl; exact G.
  - unfold deleteTask. destruct up; [|exact H].
    unfold sqlDelete.
    destruct (map returning _); simpl; now apply Forall_filter.
  - unfold deleteCompleted. destruct up; [|exact H].
    simpl. now apply Forall_filter.
Qed.

(** What a route hands back comes out of the table it leaves. *)
Lemma handle_payload_stored up now req tbl :
  titles_stored tbl ->
  payload_stored (data (fst (handle up now req tbl))).
Proof.
  unfold titles_stored. intros H.
  destruct req as [|title|i title isDone|i|]; simpl.
  - unfold getTasks. destruct up; simpl; [|exact I].
    unfold sqlSelect. apply Forall_map. apply Forall_forall.
    intros r Hr. apply orderBy_In in Hr.
    rewrite Forall_forall in H. now apply H.
  - unfold postTask. destruct title as [s|]; [|exact I].
    destruct (JS.truthy s); simpl; [|exact I].
    destruct (JS.eqb (JS.trim s) []) eqn:E; [exact I|].
    destruct up; [|exact I].
    unfold sqlInsert. simpl.
    destruct (existsb _ tbl); [exact I|]. simpl.
    now apply stored_title_trim.
  - unfold putTask. destruct up; [|exact I].
    unfold sqlUpdate.
    destruct (filter (hasId i) tbl) as [|r l] eqn:E; simpl; [exact I|].
    apply (setClause_stored title isDone now r).
    assert (Hin : In r (filter (hasId i) tbl)) by (rewrite E; now left).
    apply filter_In in Hin as [Hin _].
    rewrite Forall_forall in H. now apply H.
  - unfold deleteTask. destruct up; [|exact I].
    unfold sqlDelete.
    destruct (filter (hasId i) tbl) as [|r l] eqn:E; simpl; [exact I|].
    assert (Hin : In r (filter (hasId i) tbl)) by (rewrite E; now left).
    apply filter_In in Hin as [Hin _].
    rewrite Forall_forall in H. now apply H.
  - unfold deleteCompleted. destruct up; simpl; exact I.
Qed.


End ServerFacts.

(* ====================================================================== *)
(** ** Facts about the client over the REST API *)
(* ====================================================================== *)

Module ApiFacts.

Import Api.

Lemma exchange_lost e req tbl m :
  net e = RequestLost m -> exchange e req tbl = (inl m, tbl).
Proof. intros H. unfold exchange, fetch. now rewrite H. Qed.

Lemma exchange_delivered e req tbl :
  net e = Delivered ->
  exchange e req tbl =
  (let r := fst (Server.handle (dbUp e) (serverNow e) req tbl) in
   if responseOk r then inr r else inl (errorMessage r),
   snd (Server.handle (dbUp e) (serverNow e) req tbl)).
Proof.
  intros H. unfold exchange, fetch. rewrite H.
  now destruct (Server.handle (dbUp e) (serverNow e) req tbl).
Qed.

(** The table after an exchange is the one the route left, or the old
    one when the request was lost. *)
Lemma exchange_table e req tbl :
  snd (exchange e req tbl) = tbl \/
  snd (exchange e req tbl) = snd (Server.handle (dbUp e) (serverNow e) req tbl).
Proof.
  unfold exchange, fetch. destruct (net e); simpl; auto.
  destruct (Server.handle (dbUp e) (serverNow e) req tbl). simpl. auto.
Qed.

Lemma exchange_response e req tbl r :
  fst (exchange e req tbl) = inr r ->
  r = fst (Server.handle (dbUp e) (serverNow e) req tbl) /\
  snd (exchange e req tbl) =
    snd (Server.handle (dbUp e) (serverNow e) req tbl) /\
  net e = Delivered /\ responseOk r = true.
Proof.
  unfold exchange, fetch. destruct (net e); simpl; try discriminate.
  destruct (Server.handle (dbUp e) (serverNow e) req tbl) as [r' tbl'].
  simpl. destruct (responseOk r') eqn:E; [|discriminate].
  intros [= <-]. auto.
Qed.

Lemma exchange_titles_stored e req tbl :
  titles_stored tbl -> titles_stored (snd (exchange e req tbl)).
Proof.
  intros H. destruct (exchange_table e req tbl) as [-> | ->]; [exact H|].
  now apply ServerFacts.handle_titles_stored.
Qed.

Lemma exchange_ids_unique e req tbl :
  ids_unique tbl -> ids_unique (snd (exchange e req tbl)).
Proof.
  intros H. destruct (exchange_table e req tbl) as [-> | ->]; [exact H|].
  now apply ServerFacts.handle_ids_unique.
Qed.

Lemma exchange_payload_stored e req tbl r :
  titles_stored tbl ->
  fst (exchange e req tbl) = inr r ->
  payload_stored (Server.data r).
Proof.
  intros H E. apply exchange_response in E as (-> & _).
  now apply ServerFacts.handle_payload_stored.
Qed.

Lemma apiCall_eq e req w :
  apiCall e req w =
  match exchange e req (db w) with
  | (inl m, tbl') =>
      (inl m,
       mkWorld
         (showSnackbar (now e) (JS.str "Error: " ++ m)
            (runTimers (now e) (app w))) tbl')
  | (inr r, tbl') => (inr r, mkWorld (runTimers (now e) (app w)) tbl')
  end.
Proof.
  unfold apiCall. now destruct (exchange e req (db w)) as [[m|r] tbl'].
Qed.

(** *** Timers *)

Lemma fire_tasks x a : tasks (fire x a) = tasks a.
Proof.
  unfold fire. destruct (Ui.pending _ _); [|reflexivity].
  now destruct (Ui.action x).
Qed.

Lemma fire_deleted x a :
  deletedTask (fire x a) = deletedTask a \/ deletedTask (fire x a) = None.
Proof.
  unfold fire. destruct (Ui.pending _ _); [|now left].
  destruct (Ui.action x); simpl; auto.
Qed.

Lemma runTimers_tasks t a : tasks (runTimers t a) = tasks a.
Proof.
  unfold runTimers. generalize (Ui.expired t (ui a)) as l.
  intros l. revert a. induction l as [|x l IH]; intros a; simpl.
  - reflexivity.
  - now rewrite IH, fire_tasks.
Qed.

Lemma runTimers_deleted t a :
  deletedTask (runTimers t a) = deletedTask a \/
  deletedTask (runTimers t a) = None.
Proof.
  unfold runTimers. generalize (Ui.expired t (ui a)) as l.
  intros l. revert a. induction l as [|x l IH]; intros a; simpl.
  - now left.
  - destruct (IH (fire x a)) as [H|H]; [|now right].
    rewrite H. apply fire_deleted.
Qed.

Lemma fire_index x a :
  deletedTaskIndex (fire x a) = deletedTaskIndex a \/
  deletedTaskIndex (fire x a) = -1.
Proof.
  unfold fire. destruct (Ui.pending _ _); [|now left].
  destruct (Ui.action x); simpl; auto.
Qed.

Lemma insertByDue_elem (x : Ui.timer callback) l y :
  In y (Ui.insertByDue callback x l) -> y = x \/ In y l.
Proof.
  induction l as [|z l IH]; simpl; [intuition|].
  destruct (Ui.due x <=? Ui.due z); simpl; [intuition|].
  intros [H|H]; [auto|]. destruct (IH H); auto.
Qed.

Lemma expired_elem t (u : Ui.t callback) y :
  In y (Ui.expired t u) -> In y (Ui.timers u) /\ Ui.due y <= t.
Proof.
  unfold Ui.expired. intros H.
  assert (Hin : In y (filter (fun x => Ui.due x <=? t) (Ui.timers u))).
  { revert H. generalize (filter (fun x => Ui.due x <=? t) (Ui.timers u)).
    induction l as [|z l IH]; simpl; [tauto|].
    intros H. apply insertByDue_elem in H as [H|H]; auto. }
  apply filter_In in Hin as [H1 H2]. now rewrite Z.leb_le in H2.
Qed.

(** The timers of the snackbar leave the pending-undo record alone. *)
Lemma runTimers_quiet t a :
  quiet t a ->
  deletedTask (runTimers t a) = deletedTask a /\
  deletedTaskIndex (runTimers t a) = deletedTaskIndex a.
Proof.
  intros Hq. unfold runTimers.
  assert (H : Forall (fun x => Ui.action x = HideSnackbar)
                (Ui.expired t (ui a))).
  { apply Forall_forall. intros x Hx.
    apply expired_elem in Hx as [H1 H2].
    unfold quiet in Hq. rewrite Forall_forall in Hq. now apply Hq. }
  revert H. generalize (Ui.expired t (ui a)). intros l. revert a Hq.
  induction l as [|x l IH]; intros a _ H; [now split|].
  inversion H as [|? ? Hx Hl]; subst. simpl.
  assert (E : deletedTask (fire x a) = deletedTask a /\
              deletedTaskIndex (fire x a) = deletedTaskIndex a).
  { unfold fire. destruct (Ui.pending _ _); [|now split].
    rewrite Hx. now split. }
  destruct E as [<- <-].
  assert (G : forall b,
             deletedTask (fold_left (fun acc y => fire y acc) l b) =
               deletedTask b /\
             deletedTaskIndex (fold_left (fun acc y => fire y acc) l b) =
               deletedTaskIndex b).
  { clear - Hl. induction l as [|y l IH]; intros b; [now split|].
    inversion Hl as [|? ? Hy Hl']; subst. simpl.
    destruct (IH Hl' (fire y b)) as [-> ->].
    unfold fire. destruct (Ui.pending _ _); [|now split].
    rewrite Hy. now split. }
  apply G.
Qed.

(** The callback of the undo countdown clears whatever record is
    current when it runs. *)
Lemma run_ClearUndo a :
  deletedTask (run ClearUndo a) = None /\
  deletedTaskIndex (run ClearUndo a) = -1.
Proof. split; reflexivity. Qed.

(** *** Titles stay trimmed and non-empty *)

Lemma exchange_inv e req tbl out tbl' :
  titles_stored tbl ->
  exchange e req tbl = (out, tbl') ->
  titles_stored tbl' /\
  match out with
  | inr r => payload_stored (Server.data r)
  | inl _ => True
  end.
Proof.
  intros H E. split.
  - change tbl' with (snd (out, tbl')). rewrite <- E.
    now apply exchange_titles_stored.
  - destruct out as [m|r]; [exact I|].
    apply (exchange_payload_stored e req tbl r H). now rewrite E.
Qed.

Lemma runTimers_record t a :
  record_stored (deletedTask a) -> record_stored (deletedTask (runTimers t a)).
Proof.
  intros H. destruct (runTimers_deleted t a) as [-> | ->]; [exact H|exact I].
Qed.

Ltac triple :=
  split; [|split]; cbn; rewrite ?runTimers_tasks;
  auto using runTimers_record.

Ltac settle := simpl; rewrite ?runTimers_tasks; try reflexivity.

Ltac exchange_cases e req w Hdb :=
  rewrite (apiCall_eq e req w);
  let E := fresh "E" in
  let m := fresh "m" in
  let r := fresh "r" in
  let tbl' := fresh "tbl'" in
  let Ht := fresh "Ht" in
  let Hp := fresh "Hp" in
  destruct (exchange e req (db w)) as [[m|r] tbl'] eqn:E;
  destruct (exchange_inv e req (db w) _ _ Hdb E) as [Ht Hp].











(** *** What each operation does to the task array *)

Lemma addTask_tasks e title w :
  tasks (app (addTask e title w)) =
  match created e title (db w) with
  | Some task => task :: tasks (app w)
  | None => tasks (app w)
  end.
Proof.
  unfold addTask, created. rewrite apiCall_eq.
  destruct (exchange e _ (db w)) as [[m|r] tbl']; simpl;
    rewrite ?runTimers_tasks; [reflexivity|].
  destruct (Server.success r); simpl; rewrite ?runTimers_tasks;
    [|reflexivity].
  destruct (Server.data r); simpl; now rewrite ?runTimers_tasks.
Qed.

Lemma addTask_db e title w :
  db (addTask e title w) =
  snd (exchange e (Server.PostTask (Some title)) (db w)).
Proof.
  unfold addTask. rewrite apiCall_eq.
  destruct (exchange e _ (db w)) as [[m|r] tbl']; simpl; [reflexivity|].
  destruct (Server.success r); [|reflexivity].
  now destruct (Server.data r).
Qed.

Lemma trim_nonempty s : JS.trim s <> [] -> JS.truthy s = true.
Proof. destruct s; [now intros []|reflexivity]. Qed.

(** A POST that reaches a working server at a clock reading whose
    numeral is not taken creates the record. *)
Lemma post_created up t title tbl :
  up = true -> JS.trim title <> [] -> no_row (JS.toString t) tbl ->
  Server.postTask up t (Some title) tbl =
  (Server.ok 201
     (Server.TaskData (Task.new (JS.toString t) (JS.trim title) false t)),
   tbl ++ [Server.mkRow (JS.toString t) (JS.trim title) false t t]).
Proof.
  intros -> Ht Hn. unfold Server.postTask.
  rewrite (trim_nonempty title Ht). simpl.
  apply JSFacts.eqb_neq in Ht. rewrite Ht.
  unfold Server.sqlInsert. simpl.
  apply ServerFacts.no_row_existsb in Hn. now rewrite Hn.
Qed.

Lemma created_new e title tbl :
  net e = Delivered -> dbUp e = true -> JS.trim title <> [] ->
  no_row (JS.toString (serverNow e)) tbl ->
  created e title tbl =
  Some (Task.new (JS.toString (serverNow e)) (JS.trim title) false
          (serverNow e)).
Proof.
  intros Hn Hu Ht Hr. unfold created.
  rewrite (exchange_delivered e _ tbl Hn). cbn [Server.handle].
  now rewrite (post_created (dbUp e) (serverNow e) title tbl Hu Ht Hr).
Qed.

(** A blank title never gets past the guard of the POST route. *)
Lemma post_blank up t title tbl :
  JS.trim title = [] ->
  Server.postTask up t (Some title) tbl =
  (Server.failure 400 "Title is required", tbl).
Proof.
  intros H. unfold Server.postTask. rewrite H. simpl.
  now rewrite orb_true_r.
Qed.

Lemma exchange_blank e title tbl :
  JS.trim title = [] ->
  snd (exchange e (Server.PostTask (Some title)) tbl) = tbl /\
  exists m,
    fst (exchange e (Server.PostTask (Some title)) tbl) = inl m /\
    (net e = Delivered -> m = JS.str "Title is required").
Proof.
  intros H. unfold exchange, fetch.
  destruct (net e) as [|m|m]; cbn [Server.handle];
    rewrite ?(post_blank _ _ _ _ H); cbn.
  - split; [reflexivity|]. eexists. split; reflexivity.
  - split; [reflexivity|]. exists m. split; [reflexivity|discriminate].
  - split; [reflexivity|]. exists m. split; [reflexivity|discriminate].
Qed.

Lemma addTask_failure e title w m :
  fst (apiCall e (Server.PostTask (Some title)) w) = inl m ->
  app (addTask e title w) =
  showSnackbar (now e) (JS.str "Error: " ++ m) (runTimers (now e) (app w)).
Proof.
  unfold addTask. rewrite apiCall_eq.
  destruct (exchange e _ (db w)) as [[m'|r] tbl']; simpl; [|discriminate].
  now intros [= ->].
Qed.

Lemma existsb_filter {A} (p : A -> bool) (l : list A) :
  existsb p l = true -> exists x r, filter p l = x :: r /\ p x = true.
Proof.
  induction l as [|y l IH]; simpl; [discriminate|].
  destruct (p y) eqn:E; [eauto|]. simpl. exact IH.
Qed.

Lemma put_found up t i title isDone tbl :
  up = true -> existsb (Server.hasId i) tbl = true ->
  exists r tbl',
    Server.putTask up t i title isDone tbl =
    (Server.ok 200
       (Server.TaskData
          (Server.returning
             (Server.setClause (Server.pushedTitle title) isDone t r))),
     tbl').
Proof.
  intros -> H. apply existsb_filter in H as (x & r & H & _).
  unfold Server.putTask, Server.sqlUpdate. rewrite H. simpl. eauto.
Qed.

Lemma delete_found up i tbl :
  up = true -> existsb (Server.hasId i) tbl = true ->
  exists r tbl',
    Server.deleteTask up i tbl =
    (Server.mkResponse 200 true (Server.TaskData r) None
       (Some (JS.str "Task deleted successfully")) None, tbl').
Proof.
  intros -> H. apply existsb_filter in H as (x & r & H & _).
  unfold Server.deleteTask, Server.sqlDelete. rewrite H. simpl. eauto.
Qed.

Lemma synced_find i l tbl task :
  synced l tbl -> JS.find (Task.hasId i) l = Some task ->
  existsb (Server.hasId i) tbl = true.
Proof.
  intros Hs Hf. apply find_some in Hf as [Hin Hp].
  unfold synced in Hs. rewrite Forall_forall in Hs.
  apply JSFacts.eqb_eq in Hp. rewrite <- Hp. now apply Hs.
Qed.

Lemma toggleTask_tasks e i w task :
  net e = Delivered -> dbUp e = true ->
  existsb (Server.hasId i) (db w) = true ->
  JS.find (Task.hasId i) (tasks (app w)) = Some task ->
  tasks (app (toggleTask e i w)) =
  JS.assignFirst (Task.hasId i)
    (Task.setIsDone (negb (Task.isDone task))) (tasks (app w)).
Proof.
  intros Hn Hu Hr Hf. unfold toggleTask. rewrite Hf, apiCall_eq.
  rewrite (exchange_delivered e _ (db w) Hn). cbn [Server.handle].
  destruct (put_found (dbUp e) (serverNow e) i None
              (Some (negb (Task.isDone task))) (db w) Hu Hr)
    as (r & tbl' & ->).
  simpl. now rewrite runTimers_tasks.
Qed.

Lemma toggleTask_unknown e i w :
  JS.find (Task.hasId i) (tasks (app w)) = None -> toggleTask e i w = w.
Proof. intros H. unfold toggleTask. now rewrite H. Qed.

Lemma editTask_blank e i newTitle w :
  JS.trim newTitle = [] -> editTask e i newTitle w = w.
Proof. intros H. unfold editTask. now rewrite H. Qed.

Lemma editTask_tasks e i newTitle w task :
  net e = Delivered -> dbUp e = true ->
  existsb (Server.hasId i) (db w) = true ->
  JS.trim newTitle <> [] ->
  JS.find (Task.hasId i) (tasks (app w)) = Some task ->
  tasks (app (editTask e i newTitle w)) =
  JS.assignFirst (Task.hasId i)
    (Task.setTitle (JS.trim newTitle)) (tasks (app w)).
Proof.
  intros Hn Hu Hr Ht Hf. unfold editTask.
  assert (E : JS.truthy (JS.trim newTitle) = true)
    by (destruct (JS.trim newTitle); [now destruct Ht|reflexivity]).
  rewrite E, apiCall_eq. simpl.
  rewrite (exchange_delivered e _ (db w) Hn). cbn [Server.handle].
  destruct (put_found (dbUp e) (serverNow e) i (Some newTitle) None
              (db w) Hu Hr) as (r & tbl' & ->).
  simpl. rewrite runTimers_tasks, Hf. simpl.
  apply JSFacts.eqb_neq in Ht. now rewrite Ht.
Qed.

Lemma editTask_unknown e i newTitle w :
  JS.find (Task.hasId i) (tasks (app w)) = None ->
  tasks (app (editTask e i newTitle w)) = tasks (app w).
Proof.
  intros Hf. unfold editTask.
  destruct (negb (JS.truthy (JS.trim newTitle))); [reflexivity|].
  rewrite apiCall_eq.
  destruct (exchange e _ (db w)) as [[m|r] tbl']; simpl;
    rewrite ?runTimers_tasks; [reflexivity|].
  destruct (Server.success r); simpl; rewrite ?runTimers_tasks;
    [|reflexivity].
  rewrite Hf. simpl. now rewrite runTimers_tasks.
Qed.

Lemma deleteTask_unknown e i w :
  JS.findIndex (Task.hasId i) (tasks (app w)) = -1 -> deleteTask e i w = w.
Proof. intros H. unfold deleteTask. now rewrite H. Qed.

(** After a DELETE the server confirms the task is gone from the array;
    the record names it unless an undo countdown ran out meanwhile. *)
Lemma deleteTask_success e i w n task :
  net e = Delivered -> dbUp e = true ->
  existsb (Server.hasId i) (db w) = true ->
  JS.findIndex (Task.hasId i) (tasks (app w)) = Z.of_nat n ->
  nth_error (tasks (app w)) n = Some task ->
  tasks (app (deleteTask e i w)) =
    JS.splice (Z.of_nat n) 1 [] (tasks (app w)) /\
  (quiet (now e) (app w) ->
   deletedTask (app (deleteTask e i w)) = Some task /\
   deletedTaskIndex (app (deleteTask e i w)) = Z.of_nat n).
Proof.
  intros Hn Hu Hr Hi Hx. unfold deleteTask. rewrite Hi.
  assert (E : (Z.of_nat n =? -1) = false) by (apply Z.eqb_neq; lia).
  rewrite E, apiCall_eq. cbn [db app].
  rewrite (exchange_delivered e _ (db w) Hn). cbn [Server.handle].
  destruct (delete_found (dbUp e) i (db w) Hu Hr) as (r & tbl' & ->).
  cbn [fst snd responseOk Server.status Z.leb Z.compare Pos.compare
       Pos.compare_cont andb app db].
  rewrite JSFacts.index_of_nat, Hx.
  set (a2 := setTasks _ _).
  assert (T : tasks (runTimers (now e) a2) =
              JS.splice (Z.of_nat n) 1 [] (tasks (app w)))
    by apply runTimers_tasks.
  assert (Q : quiet (now e) (app w) ->
              deletedTask (runTimers (now e) a2) = Some task /\
              deletedTaskIndex (runTimers (now e) a2) = Z.of_nat n)
    by (intros Hq; now apply (runTimers_quiet (now e) a2)).
  clearbody a2. revert T Q. generalize (runTimers (now e) a2). intros a' T Q.
  destruct (deletedTask a') as [d|] eqn:Ed; cbn.
  - split; [exact T|]. intros Hq. destruct (Q Hq) as [Q1 Q2].
    split; [congruence|exact Q2].
  - split; [exact T|]. intros Hq. destruct (Q Hq) as [Q1 _]. congruence.
Qed.

(** When the DELETE call throws and no undo countdown runs out
    meanwhile, the array is put back but the record of the deleted task
    stays. *)
Lemma deleteTask_failure e i w n task m :
  JS.findIndex (Task.hasId i) (tasks (app w)) = Z.of_nat n ->
  nth_error (tasks (app w)) n = Some task ->
  fst (exchange e (Server.DeleteTask i) (db w)) = inl m ->
  quiet (now e) (app w) ->
  tasks (app (deleteTask e i w)) = tasks (app w) /\
  deletedTask (app (deleteTask e i w)) = Some task /\
  deletedTaskIndex (app (deleteTask e i w)) = Z.of_nat n /\
  Ui.snackbarMessage (ui (app (deleteTask e i w))) = JS.str "Error: " ++ m.
Proof.
  intros Hi Hx Hm Hq. unfold deleteTask. rewrite Hi.
  assert (E : (Z.of_nat n =? -1) = false) by (apply Z.eqb_neq; lia).
  rewrite E, apiCall_eq. cbn [db app].
  destruct (exchange e _ (db w)) as [[m'|r] tbl']; simpl in Hm;
    [|discriminate].
  injection Hm as ->.
  rewrite JSFacts.index_of_nat, Hx.
  set (a2 := setTasks _ _).
  assert (T : tasks (runTimers (now e) a2) =
              JS.splice (Z.of_nat n) 1 [] (tasks (app w)))
    by apply runTimers_tasks.
  destruct (runTimers_quiet (now e) a2 Hq) as [Q1 Q2].
  change (deletedTask a2) with (Some task) in Q1.
  change (deletedTaskIndex a2) with (Z.of_nat n) in Q2.
  clearbody a2. revert T Q1 Q2. generalize (runTimers (now e) a2).
  intros a' T Q1 Q2. cbn. rewrite Q1, Q2. cbn. rewrite E. cbn.
  rewrite T, Q1, Q2, (JSFacts.splice_remove_insert n task _ Hx). auto.
Qed.

(** When the DELETE call throws after an undo countdown has run out,
    the guard of the [catch] block is false: the task stays out of the
    array although the server still has its row. *)
Lemma deleteTask_failure_late e i w n task m :
  JS.findIndex (Task.hasId i) (tasks (app w)) = Z.of_nat n ->
  nth_error (tasks (app w)) n = Some task ->
  fst (exchange e (Server.DeleteTask i) (db w)) = inl m ->
  deletedTask
    (runTimers (now e)
       (setTasks (JS.splice (Z.of_nat n) 1 [] (tasks (app w)))
          (setDeleted (Some task) (Z.of_nat n) (app w)))) = None ->
  tasks (app (deleteTask e i w)) =
    JS.splice (Z.of_nat n) 1 [] (tasks (app w)) /\
  deletedTask (app (deleteTask e i w)) = None.
Proof.
  intros Hi Hx Hm Hl. unfold deleteTask. rewrite Hi.
  assert (E : (Z.of_nat n =? -1) = false) by (apply Z.eqb_neq; lia).
  rewrite E, apiCall_eq. cbn [db app].
  destruct (exchange e _ (db w)) as [[m'|r] tbl']; simpl in Hm;
    [|discriminate].
  injection Hm as ->.
  rewrite JSFacts.index_of_nat, Hx.
  cbn [tasks setDeleted] in *.
  set (a2 := setTasks _ _) in *.
  assert (T : tasks (runTimers (now e) a2) =
              JS.splice (Z.of_nat n) 1 [] (tasks (app w)))
    by apply runTimers_tasks.
  clearbody a2. revert T Hl. generalize (runTimers (now e) a2).
  intros a' T Hl. cbn. rewrite Hl. cbn. auto.
Qed.



Lemma reachable_run_events l w : reachable w -> reachable (run_events l w).
Proof.
  unfold run_events. revert w. induction l as [|[e ev] l IH]; intros w H.
  - exact H.
  - simpl. apply IH. now apply reachable_step.
Qed.

(** *** Order of the task array *)

Lemma apiCall_fst e req w :
  fst (apiCall e req w) = fst (exchange e req (db w)).
Proof.
  rewrite apiCall_eq. now destruct (exchange e req (db w)) as [[m|r] tbl'].
Qed.

Lemma toggleTask_identity e i w :
  map identity (tasks (app (toggleTask e i w))) = map identity (tasks (app w)).
Proof.
  unfold toggleTask.
  destruct (JS.find (Task.hasId i) (tasks (app w))) as [task|]; [|reflexivity].
  rewrite apiCall_eq.
  destruct (exchange e _ (db w)) as [[m|r] tbl']; settle.
  destruct (Server.success r); settle.
  destruct (Server.data r); settle.
  now apply JSFacts.assignFirst_map.
Qed.

Lemma editTask_identity e i newTitle w :
  map identity (tasks (app (editTask e i newTitle w))) =
  map identity (tasks (app w)).
Proof.
  unfold editTask.
  destruct (negb (JS.truthy (JS.trim newTitle))); [reflexivity|].
  rewrite apiCall_eq.
  destruct (exchange e _ (db w)) as [[m|r] tbl']; settle.
  destruct (Server.success r); settle.
  destruct (JS.find (Task.hasId i) (tasks (app w))); settle.
  destruct (Server.data r); settle.
  now apply JSFacts.assignFirst_map.
Qed.

Lemma addAll_tasks l w :
  tasks (app (addAll l w)) = rev (createdAll l w) ++ tasks (app w).
Proof.
  revert w. induction l as [|[e title] l IH]; intros w; simpl.
  - reflexivity.
  - rewrite IH, addTask_tasks.
    destruct (created e title (db w)); [|reflexivity].
    simpl. now rewrite <- app_assoc.
Qed.

(** A record is created only from a title that is not blank; it holds
    the trimmed title and is not done. *)
Lemma created_task e title tbl task :
  created e title tbl = Some task ->
  Task.title task = JS.trim title /\ JS.trim title <> [] /\
  Task.isDone task = false.
Proof.
  unfold created.
  destruct (fst (exchange e _ tbl)) as [m|r] eqn:E; [discriminate|].
  apply exchange_response in E as (-> & _).
  cbn [Server.handle]. unfold Server.postTask.
  destruct (JS.truthy title); simpl; [|discriminate].
  destruct (JS.eqb (JS.trim title) []) eqn:Et; [discriminate|].
  apply JSFacts.eqb_neq in Et.
  destruct (dbUp e); [|discriminate].
  unfold Server.sqlInsert. simpl.
  destruct (existsb _ tbl); [discriminate|]. simpl.
  intros [= <-]. simpl. auto.
Qed.

(** *** The primary key over a session *)

Lemma apiCall_db e req w :
  db (snd (apiCall e req w)) = snd (exchange e req (db w)).
Proof.
  rewrite apiCall_eq. now destruct (exchange e req (db w)) as [[m|r] tbl'].
Qed.

(** A property of the table the routes keep is kept by every event. *)
Lemma step_table (P : Server.table -> Prop) :
  (forall up t req tbl, P tbl -> P (snd (Server.handle up t req tbl))) ->
  forall e ev w, P (db w) -> P (db (step e ev w)).
Proof.
  intros HP e ev w Hw.
  assert (Hx : forall req tbl, P tbl -> P (snd (exchange e req tbl))).
  { intros req tbl H. destruct (exchange_table e req tbl) as [-> | ->]; auto. }
  assert (Hc : forall req a, P (db (snd (apiCall e req (mkWorld a (db w)))))).
  { intros req a. rewrite apiCall_db. now apply Hx. }
  destruct ev; cbn [step].
  - unfold loadTasks. specialize (Hc Server.GetTasks init).
    destruct (apiCall e Server.GetTasks _) as [[m|r] w1]; cbn in *; [exact Hc|].
    destruct (Server.success r); [|exact Hc].
    destruct (Server.data r); exact Hc.
  - unfold addTask.
    specialize (Hc (Server.PostTask (Some title))
                  (runTimers (started e) (app w))).
    destruct (apiCall e _ _) as [[m|r] w1]; cbn in *; [exact Hc|].
    destruct (Server.success r); [|exact Hc].
    destruct (Server.data r); exact Hc.
  - unfold toggleTask. cbn [app db].
    destruct (JS.find _ _) as [task|]; [|exact Hw].
    specialize (Hc (Server.PutTask i None (Some (negb (Task.isDone task))))
                  (runTimers (started e) (app w))).
    destruct (apiCall e _ _) as [[m|r] w1]; cbn in *; [exact Hc|].
    destruct (Server.success r); [|exact Hc].
    destruct (Server.data r); exact Hc.
  - unfold editTask.
    destruct (negb (JS.truthy (JS.trim newTitle))); [exact Hw|].
    specialize (Hc (Server.PutTask i (Some newTitle) None)
                  (runTimers (started e) (app w))).
    destruct (apiCall e _ _) as [[m|r] w1]; cbn in *; [exact Hc|].
    destruct (Server.success r); [|exact Hc].
    destruct (JS.find _ _); [|exact Hc].
    destruct (Server.data r); exact Hc.
  - unfold deleteTask. cbn [app db].
    destruct (_ =? -1); [exact Hw|].
    match goal with
    | |- context [apiCall e ?req (mkWorld ?a (db w))] =>
        specialize (Hc req a); destruct (apiCall e req (mkWorld a (db w)))
          as [[m|r] w1]
    end; cbn in *.
    + destruct (deletedTask (app w1)); [|exact Hc].
      destruct (negb _); exact Hc.
    + destruct (deletedTask (app w1)); exact Hc.
  - unfold undoDelete. cbn [app db].
    destruct (deletedTask _) as [d|]; [|exact Hw].
    specialize (Hc (Server.PostTask (Some (Task.title d)))
                  (runTimers (started e) (app w))).
    destruct (apiCall e _ _) as [[m|r] w1]; cbn in *; [exact Hc|].
    destruct (Server.success r); [|exact Hc].
    destruct (Server.data r); exact Hc.
  - cbn. now apply HP.
Qed.

(** No id occurs twice in the table, whatever the session did. *)
Lemma reachable_table_ids_unique w : reachable w -> ids_unique (db w).
Proof.
  induction 1 as [|e ev w _ IH].
  - constructor.
  - apply (step_table ids_unique); [|exact IH].
    intros up t req tbl. apply ServerFacts.handle_ids_unique.
Qed.

End ApiFacts.

(* ====================================================================== *)
(** ** Facts about the client over localStorage *)
(* ====================================================================== *)

Module LocalFacts.

Import Local.

Ltac triple := split; [|split]; cbn; auto.

Lemma saveTasks_app e w : app (saveTasks e w) = app w.
Proof. unfold saveTasks. now destruct (quotaOk e). Qed.



Lemma local_fire_tasks x a : tasks (fire x a) = tasks a.
Proof.
  unfold fire. destruct (Ui.pending _ _); [|reflexivity].
  now destruct (Ui.action x).
Qed.

Lemma local_fire_deleted x a : deletedTask (fire x a) = deletedTask a.
Proof.
  unfold fire. destruct (Ui.pending _ _); [|reflexivity].
  now destruct (Ui.action x).
Qed.

Lemma local_runTimers_tasks t a : tasks (runTimers t a) = tasks a.
Proof.
  unfold runTimers. generalize (Ui.expired t (ui a)) as l.
  intros l. revert a. induction l as [|x l IH]; intros a; simpl.
  - reflexivity.
  - now rewrite IH, local_fire_tasks.
Qed.

Lemma local_runTimers_deleted t a : deletedTask (runTimers t a) = deletedTask a.
Proof.
  unfold runTimers. generalize (Ui.expired t (ui a)) as l.
  intros l. revert a. induction l as [|x l IH]; intros a; simpl.
  - reflexivity.
  - now rewrite IH, local_fire_deleted.
Qed.










(** *** What each operation does to the task array *)

Lemma local_addTask_tasks e input w :
  tasks (app (addTask e input w)) =
  match created e input with
  | Some task => task :: tasks (app w)
  | None => tasks (app w)
  end.
Proof.
  unfold addTask, created.
  destruct (JS.truthy (JS.trim input)); simpl; [|reflexivity].
  now rewrite saveTasks_app.
Qed.


Lemma local_toggleTask_tasks e i w task :
  JS.find (Task.hasId i) (tasks (app w)) = Some task ->
  tasks (app (toggleTask e i w)) =
  JS.assignFirst (Task.hasId i)
    (Task.setIsDone (negb (Task.isDone task))) (tasks (app w)).
Proof.
  intros H. unfold toggleTask. rewrite H. now rewrite saveTasks_app.
Qed.

Lemma local_toggleTask_unknown e i w :
  JS.find (Task.hasId i) (tasks (app w)) = None -> toggleTask e i w = w.
Proof. intros H. unfold toggleTask. now rewrite H. Qed.

Lemma local_editTask_blank e i newTitle w :
  JS.trim newTitle = [] -> editTask e i newTitle w = w.
Proof.
  intros H. unfold editTask. rewrite H. simpl.
  now destruct (JS.find (Task.hasId i) (tasks (app w))).
Qed.

Lemma local_editTask_tasks e i newTitle w task :
  JS.trim newTitle <> [] ->
  JS.find (Task.hasId i) (tasks (app w)) = Some task ->
  tasks (app (editTask e i newTitle w)) =
  JS.assignFirst (Task.hasId i)
    (Task.setTitle (JS.trim newTitle)) (tasks (app w)).
Proof.
  intros Ht Hf. unfold editTask. rewrite Hf.
  assert (E : JS.truthy (JS.trim newTitle) = true)
    by (destruct (JS.trim newTitle); [now destruct Ht|reflexivity]).
  rewrite E. now rewrite saveTasks_app.
Qed.

Lemma local_editTask_unknown e i newTitle w :
  JS.find (Task.hasId i) (tasks (app w)) = None -> editTask e i newTitle w = w.
Proof. intros H. unfold editTask. now rewrite H. Qed.

Lemma local_deleteTask_unknown e i w :
  JS.findIndex (Task.hasId i) (tasks (app w)) = -1 -> deleteTask e i w = w.
Proof. intros H. unfold deleteTask. now rewrite H. Qed.

Lemma deleteTask_found e i w n task :
  JS.findIndex (Task.hasId i) (tasks (app w)) = Z.of_nat n ->
  nth_error (tasks (app w)) n = Some task ->
  tasks (app (deleteTask e i w)) =
    JS.splice (Z.of_nat n) 1 [] (tasks (app w)) /\
  deletedTask (app (deleteTask e i w)) = Some task /\
  deletedTaskIndex (app (deleteTask e i w)) = Z.of_nat n.
Proof.
  intros Hi Hx. unfold deleteTask. rewrite Hi.
  assert (E : (Z.of_nat n =? -1) = false) by (apply Z.eqb_neq; lia).
  rewrite E, saveTasks_app. cbn.
  rewrite JSFacts.index_of_nat, Hx. cbn. auto.
Qed.

(** [undoDelete] puts the captured task itself back. *)
Lemma undoDelete_found e w d :
  deletedTask (app w) = Some d ->
  deletedTaskIndex (app w) <> -1 ->
  tasks (app (undoDelete e w)) =
    JS.splice (deletedTaskIndex (app w)) 0 [d] (tasks (app w)) /\
  deletedTask (app (undoDelete e w)) = None /\
  deletedTaskIndex (app (undoDelete e w)) = -1.
Proof.
  intros Hd Hi. unfold undoDelete. rewrite Hd.
  apply Z.eqb_neq in Hi. rewrite Hi. cbn.
  rewrite saveTasks_app. cbn. auto.
Qed.


Lemma local_reachable_run_events l w :
  reachable w -> reachable (run_events l w).
Proof.
  unfold run_events. revert w. induction l as [|[e ev] l IH]; intros w H.
  - exact H.
  - simpl. apply IH. now apply reachable_step.
Qed.

(** *** Order of the task array *)

Lemma local_toggleTask_identity e i w :
  map identity (tasks (app (toggleTask e i w))) = map identity (tasks (app w)).
Proof.
  unfold toggleTask.
  destruct (JS.find (Task.hasId i) (tasks (app w))) as [task|]; [|reflexivity].
  rewrite saveTasks_app. simpl. now apply JSFacts.assignFirst_map.
Qed.

Lemma local_editTask_identity e i newTitle w :
  map identity (tasks (app (editTask e i newTitle w))) =
  map identity (tasks (app w)).
Proof.
  unfold editTask.
  destruct (JS.find (Task.hasId i) (tasks (app w))) as [task|]; [|reflexivity].
  destruct (JS.truthy (JS.trim newTitle)); [|reflexivity].
  rewrite saveTasks_app. simpl. now apply JSFacts.assignFirst_map.
Qed.

Lemma local_addAll_tasks l w :
  tasks (app (addAll l w)) = rev (createdAll l) ++ tasks (app w).
Proof.
  revert w. induction l as [|[e input] l IH]; intros w; simpl.
  - reflexivity.
  - rewrite IH, local_addTask_tasks.
    destruct (created e input); [|reflexivity].
    simpl. now rewrite <- app_assoc.
Qed.

Lemma local_created_task e input task :
  created e input = Some task ->
  Task.title task = JS.trim input /\ JS.trim input <> [] /\
  Task.isDone task = false.
Proof.
  unfold created. destruct (JS.truthy (JS.trim input)) eqn:E; [|discriminate].
  intros [= <-]. simpl. rewrite JSFacts.trim_idem.
  split; [reflexivity|]. split; [|reflexivity].
  intros H. now rewrite H in E.
Qed.

(** *** Ids while every add reads a fresh clock value *)

Lemma saveTasks_ids e w :
  local_ids_unique w -> local_ids_unique (saveTasks e w).
Proof.
  intros (Ht & Hd & Hs). unfold saveTasks.
  destruct (quotaOk e); [|now repeat split].
  split; [exact Ht|]. split; [exact Hd|].
  cbn. rewrite map_map. exact Ht.
Qed.

Lemma addTask_ids e input w :
  local_clock_fresh e w -> local_ids_unique w ->
  local_ids_unique (addTask e input w).
Proof.
  intros (Hf & Hfd) (Ht & Hd & Hs). unfold addTask.
  destruct (negb (JS.truthy (JS.trim input))); [now repeat split|].
  apply saveTasks_ids. split; [|split]; cbn.
  - constructor; assumption.
  - intros d Hdd [Hin|Hin]; [now apply (Hfd d Hdd)|now apply (Hd d Hdd)].
  - exact Hs.
Qed.

Lemma toggleTask_ids e i w :
  local_ids_unique w -> local_ids_unique (toggleTask e i w).
Proof.
  intros (Ht & Hd & Hs). unfold toggleTask.
  destruct (JS.find (Task.hasId i) (tasks (app w))) as [task|];
    [|now repeat split].
  apply saveTasks_ids. split; [|split]; cbn; [| |exact Hs];
    rewrite JSFacts.assignFirst_map by reflexivity; assumption.
Qed.

Lemma editTask_ids e i newTitle w :
  local_ids_unique w -> local_ids_unique (editTask e i newTitle w).
Proof.
  intros (Ht & Hd & Hs). unfold editTask.
  destruct (JS.find (Task.hasId i) (tasks (app w))) as [task|];
    [|now repeat split].
  destruct (JS.truthy (JS.trim newTitle)); [|now repeat split].
  apply saveTasks_ids. split; [|split]; cbn; [| |exact Hs];
    rewrite JSFacts.assignFirst_map by reflexivity; assumption.
Qed.

Lemma deleteTask_ids e i w :
  local_ids_unique w -> local_ids_unique (deleteTask e i w).
Proof.
  intros (Ht & Hd & Hs).
  destruct (JSFacts.findIndex_spec (Task.hasId i) (tasks (app w)))
    as [[Hi _]|(n & x & Hi & Hx & _)].
  - rewrite (local_deleteTask_unknown e i w Hi). now repeat split.
  - assert (Hn : (n < length (tasks (app w)))%nat)
      by (apply nth_error_Some; congruence).
    destruct (JSFacts.NoDup_map_remove Task.id n x _ Hx Ht) as [Hr Hnx].
    unfold deleteTask. rewrite Hi.
    assert (E : (Z.of_nat n =? -1) = false) by (apply Z.eqb_neq; lia).
    rewrite E. cbn [tasks setTasks setDeleted].
    rewrite JSFacts.index_of_nat, Hx, (JSFacts.splice_remove n _ Hn).
    set (w1 := saveTasks e _).
    assert (H1 : local_ids_unique w1).
    { apply saveTasks_ids. split; [|split]; cbn; [exact Hr| |exact Hs].
      now intros d [= <-]. }
    assert (Hd1 : deletedTask (app w1) = Some x)
      by (unfold w1; now rewrite saveTasks_app).
    rewrite Hd1. destruct H1 as (Ht1 & Hdd1 & Hs1).
    split; [|split]; cbn; assumption.
Qed.

Lemma saveTasks_storage_ids e w :
  NoDup (map Task.id (tasks (app w))) ->
  match storage w with
  | Some l => NoDup (map Task.id l)
  | None => True
  end ->
  match storage (saveTasks e w) with
  | Some l => NoDup (map Task.id l)
  | None => True
  end.
Proof.
  intros Ht Hs. unfold saveTasks. destruct (quotaOk e); [|exact Hs].
  cbn. now rewrite map_map.
Qed.

Lemma undoDelete_ids e w :
  local_ids_unique w -> local_ids_unique (undoDelete e w).
Proof.
  intros H. pose proof H as (Ht & Hd & Hs). unfold undoDelete.
  destruct (deletedTask (app w)) as [d|] eqn:Ed; [|exact H].
  destruct (negb (deletedTaskIndex (app w) =? -1)); [|exact H].
  destruct (JSFacts.splice_insert_shape (deletedTaskIndex (app w)) d
              (tasks (app w))) as [n Hn].
  rewrite Hn.
  assert (Hi : NoDup (map Task.id
                        (firstn n (tasks (app w)) ++
                         d :: skipn n (tasks (app w)))))
    by (apply JSFacts.NoDup_map_insert; [exact Ht|now apply Hd]).
  split; [|split]; cbn.
  - now rewrite saveTasks_app.
  - discriminate.
  - now apply saveTasks_storage_ids.
Qed.

Lemma runTimers_ids t w :
  local_ids_unique w ->
  local_ids_unique (mkWorld (runTimers t (app w)) (storage w)).
Proof.
  intros (Ht & Hd & Hs). split; [|split]; cbn.
  - now rewrite local_runTimers_tasks.
  - rewrite local_runTimers_tasks, local_runTimers_deleted. exact Hd.
  - exact Hs.
Qed.

Lemma runTimers_fresh e w :
  local_clock_fresh e w ->
  local_clock_fresh e (mkWorld (runTimers (now e) (app w)) (storage w)).
Proof.
  intros (Hf & Hd). split; cbn.
  - now rewrite local_runTimers_tasks.
  - now rewrite local_runTimers_deleted.
Qed.

Lemma loadTasks_ids w :
  match storage w with
  | Some l => NoDup (map Task.id l)
  | None => True
  end ->
  local_ids_unique (loadTasks (mkWorld init (storage w))).
Proof.
  intros Hs. unfold loadTasks. cbn.
  destruct (storage w) as [l|] eqn:E; split; [|split| |split]; cbn.
  - rewrite map_map. exact Hs.
  - discriminate.
  - exact Hs.
  - constructor.
  - discriminate.
  - exact I.
Qed.

(** While every add reads a fresh clock value, no id occurs twice. *)
Lemma fresh_ids_unique w : local_reachable_fresh w -> local_ids_unique w.
Proof.
  induction 1 as [|e input w _ IH Hf|e ev w _ IH Hev].
  - split; [|split]; cbn; [constructor|discriminate|exact I].
  - cbn [step]. apply addTask_ids.
    + now apply runTimers_fresh.
    + now apply runTimers_ids.
  - pose proof (runTimers_ids (now e) w IH) as H0.
    destruct ev; cbn [step].
    + apply loadTasks_ids. now destruct IH as (_ & _ & Hs).
    + now destruct (Hev input).
    + now apply toggleTask_ids.
    + now apply editTask_ids.
    + now apply deleteTask_ids.
    + now apply undoDelete_ids.
Qed.

End LocalFacts.

(* ====================================================================== *)
(** ** The REST surface *)
(* ====================================================================== *)

(** Claim C9.  When no row of the [tasks] table has the id of the request,
    PUT [/api/tasks/:id] and DELETE [/api/tasks/:id] answer HTTP 404 with
    the body [{success: false, error: "Task not found"}] and leave the
    table as it was.  The answer is that of a query that resolves (first
    argument [true]); the table is left alone whether or not it does. *)
Theorem put_delete_unknown_id_not_found
    (up : bool) (now : Z) (i : JS.jsstring) (title : option JS.jsstring)
    (isDone : option bool) (tbl : Server.table) :
  no_row i tbl ->
  Server.putTask true now i title isDone tbl =
    (Server.mkResponse 404 false Server.NoData
       (Some (JS.str "Task not found")) None None, tbl) /\
  Server.deleteTask true i tbl =
    (Server.mkResponse 404 false Server.NoData
       (Some (JS.str "Task not found")) None None, tbl) /\
  snd (Server.putTask up now i title isDone tbl) = tbl /\
  snd (Server.deleteTask up i tbl) = tbl.
Proof.
  intros H.
  assert (Hput : forall u, snd (Server.putTask u now i title isDone tbl) = tbl
            /\ (u = true -> fst (Server.putTask u now i title isDone tbl)
                             = Server.failure 404 "Task not found")).
  { intros [|]; unfold Server.putTask, Server.sqlUpdate.
    - rewrite (ServerFacts.no_row_filter i tbl H),
              (ServerFacts.no_row_update i _ tbl H). now split.
    - split; [reflexivity|discriminate]. }
  assert (Hdel : forall u, snd (Server.deleteTask u i tbl) = tbl
            /\ (u = true -> fst (Server.deleteTask u i tbl)
                             = Server.failure 404 "Task not found")).
  { intros [|]; unfold Server.deleteTask, Server.sqlDelete.
    - rewrite (ServerFacts.no_row_filter i tbl H),
              (ServerFacts.no_row_keep i tbl H). now split.
    - split; [reflexivity|discriminate]. }
  repeat split.
  - destruct (Hput true) as [H1 H2].
    rewrite (surjective_pairing (Server.putTask true now i title isDone tbl)).
    now rewrite H1, H2.
  - destruct (Hdel true) as [H1 H2].
    rewrite (surjective_pairing (Server.deleteTask true i tbl)).
    now rewrite H1, H2.
  - apply Hput.
  - apply Hdel.
Qed.

(** Claim C10.  For an existing task, a PUT [/api/tasks/:id] whose body
    has no [isDone] and whose [title] is absent or whitespace-only is
    answered with HTTP 200 and the task as it was: no row changes its
    [id], [title], [is_done] or [created_at], and only the [updated_at]
    of the rows with that id is set to the current time. *)
Theorem put_without_fields_touches_only_updated_at
    (now : Z) (i : JS.jsstring) (title : option JS.jsstring)
    (tbl : Server.table) (r : Server.row) :
  (title = None \/ exists s, title = Some s /\ blank s) ->
  List.find (Server.hasId i) tbl = Some r ->
  exists tbl',
    Server.putTask true now i title None tbl =
      (Server.mkResponse 200 true
         (Server.TaskData
            (Task.new (Server.r_id r) (Server.r_title r)
               (Server.r_is_done r) (Server.r_created_at r)))
         None None None, tbl') /\
    map Server.returning tbl' = map Server.returning tbl /\
    tbl' =
      map (fun x =>
             if Server.hasId i x then
               Server.mkRow (Server.r_id x) (Server.r_title x)
                 (Server.r_is_done x) (Server.r_created_at x) now
             else x) tbl.
Proof.
  intros Ht Hf.
  assert (Hp : Server.pushedTitle title = None).
  { destruct Ht as [-> | (s & -> & Hs)]; [reflexivity|].
    simpl. now rewrite (JSFacts.trim_blank s Hs). }
  destruct (ServerFacts.find_filter _ _ _ Hf) as (l & Hl).
  eexists. unfold Server.putTask, Server.sqlUpdate. rewrite Hp, Hl. simpl.
  split; [reflexivity|]. split; [|reflexivity].
  rewrite map_map. apply map_ext. intros x.
  now destruct (Server.hasId i x).
Qed.

(** Witness of claim C9: a table that holds the task 1000 only, and a
    request for the id 2000. *)
Lemma put_delete_unknown_id_not_found_witness :
  no_row (JS.str "2000") [Sample.milkRow] /\
  Server.putTask true 5000 (JS.str "2000") (Some (JS.str "x")) (Some true)
    [Sample.milkRow] =
    (Server.mkResponse 404 false Server.NoData
       (Some (JS.str "Task not found")) None None, [Sample.milkRow]).
Proof.
  assert (H : no_row (JS.str "2000") [Sample.milkRow]).
  { constructor; [|constructor]. intros E. vm_compute in E. discriminate. }
  split; [exact H|].
  apply (put_delete_unknown_id_not_found true 5000 (JS.str "2000")
           (Some (JS.str "x")) (Some true) [Sample.milkRow] H).
Defined.

(** Witness of claim C10: a PUT with a whitespace-only title and no
    [isDone] for the task 1000. *)
Lemma put_without_fields_touches_only_updated_at_witness :
  exists tbl',
    Server.putTask true 5000 (JS.str "1000") (Some (JS.str "   ")) None
      [Sample.milkRow; Sample.bobRow] =
      (Server.mkResponse 200 true (Server.TaskData Sample.milk)
         None None None, tbl') /\
    map Server.returning tbl' =
      map Server.returning [Sample.milkRow; Sample.bobRow].
Proof.
  destruct (put_without_fields_touches_only_updated_at 5000 (JS.str "1000")
              (Some (JS.str "   ")) [Sample.milkRow; Sample.bobRow]
              Sample.milkRow)
    as (tbl' & H1 & H2 & _).
  - right. exists (JS.str "   "). split; reflexivity.
  - reflexivity.
  - exists tbl'. split; [exact H1|exact H2].
Defined.

(* ====================================================================== *)
(** ** The delete/undo protocol *)
(* ====================================================================== *)

(** Claim C1.  The specification asks that an expiring countdown clear
    the pending-undo record only when the record is still the one the
    countdown was started for, so that after two deletes an undo between
    the two expiries restores the second task.  The callback of
    [deleteTask] clears the record without looking at it: with deletes at
    10000 and 13000, the record of the second task is pending until the
    first countdown expires at 15000, an undo at 14000 re-creates the
    task, and an undo at 16000 finds no record and restores nothing. *)
Theorem first_countdown_clears_second_record :
  Api.reachable Sample.twoDeletes /\
  Api.tasks (Api.app Sample.twoDeletes) = [] /\
  Api.deletedTask (Api.app Sample.twoDeletes) = Some Sample.bob /\
  map (fun x => (Ui.due x, Ui.action x))
      (Ui.timers (Api.ui (Api.app Sample.twoDeletes))) =
    [(15000, Api.ClearUndo); (17000, Api.HideSnackbar);
     (18000, Api.ClearUndo)] /\
  map Task.title
      (Api.tasks (Api.app (Api.step (Sample.healthy 14000) Api.UndoDelete
                             Sample.twoDeletes))) =
    [JS.str "Call Bob"] /\
  Api.deletedTask
    (Api.runTimers 16000 (Api.app Sample.twoDeletes)) = None /\
  Api.tasks (Api.app (Api.step (Sample.healthy 16000) Api.UndoDelete
                        Sample.twoDeletes)) = [].
Proof.
  split.
  - unfold Sample.twoDeletes, Sample.twoTasks.
    repeat apply ApiFacts.reachable_run_events. apply Api.reachable_initial.
  - repeat split; vm_compute; reflexivity.
Qed.

(** Claim C2.  The specification asks that a failed backend delete put
    the task back and clear the pending-undo record.  [deleteTask] puts
    the task back at its position and shows the error, but the record
    stays (for every session in which no undo countdown runs out during
    the call, [ApiFacts.deleteTask_failure]): after a
    delete that fails because the database is down the record still names
    the task, and a later undo adds a second copy of it. *)
Theorem failed_delete_keeps_undo_record :
  Api.reachable Sample.failedDelete /\
  Api.tasks (Api.app Sample.failedDelete) = [Sample.milk] /\
  Ui.snackbarMessage (Api.ui (Api.app Sample.failedDelete)) =
    JS.str "Error: Failed to delete task" /\
  Api.deletedTask (Api.app Sample.failedDelete) = Some Sample.milk /\
  Api.deletedTaskIndex (Api.app Sample.failedDelete) = 0 /\
  map Task.title
      (Api.tasks (Api.app (Api.step (Sample.healthy 3000) Api.UndoDelete
                             Sample.failedDelete))) =
    [JS.str "Buy milk"; JS.str "Buy milk"].
Proof.
  split.
  - unfold Sample.failedDelete.
    apply ApiFacts.reachable_run_events. apply Api.reachable_initial.
  - repeat split; vm_compute; reflexivity.
Qed.

(** Claim C6.  The specification asks that every id occur once in the
    task array and in the store.  [Task.create] takes the id from the
    clock: two adds within the same millisecond in the localStorage client
    give two tasks with the id 1000, in memory and in the stored document.
    Ids are unique as long as every add reads a fresh clock value
    ([LocalFacts.fresh_ids_unique]), and always in the table
    ([ApiFacts.reachable_table_ids_unique]). *)
Theorem same_millisecond_adds_share_id :
  Local.reachable Sample.sameMillisecond /\
  map Task.id (Local.tasks (Local.app Sample.sameMillisecond)) =
    [JS.str "1000"; JS.str "1000"] /\
  map Task.title (Local.tasks (Local.app Sample.sameMillisecond)) =
    [JS.str "Call Bob"; JS.str "Buy milk"] /\
  Local.storage Sample.sameMillisecond =
    Some (Local.tasks (Local.app Sample.sameMillisecond)) /\
  ~ NoDup (map Task.id (Local.tasks (Local.app Sample.sameMillisecond))).
Proof.
  split.
  - unfold Sample.sameMillisecond.
    apply LocalFacts.local_reachable_run_events. apply Local.reachable_initial.
  - split; [vm_compute; reflexivity|].
    split; [vm_compute; reflexivity|].
    split; [vm_compute; reflexivity|].
    intros H. vm_compute in H. inversion H as [|x l Hx _]; subst.
    apply Hx. now left.
Qed.




(* ====================================================================== *)
(** ** The two clients side by side *)
(* ====================================================================== *)

(** Claim C4, as stated, fails for UndoDelete: from sessions with the same
    task array and the same pending-undo record, the localStorage client
    puts the task 1000 back while the API client inserts a new task
    4000. *)
Lemma undo_differs_between_clients :
  Local.tasks (Local.app Sample.localBeforeUndo) =
    Api.tasks (Api.app Sample.apiBeforeUndo) /\
  Local.deletedTask (Local.app Sample.localBeforeUndo) =
    Api.deletedTask (Api.app Sample.apiBeforeUndo) /\
  Local.deletedTaskIndex (Local.app Sample.localBeforeUndo) =
    Api.deletedTaskIndex (Api.app Sample.apiBeforeUndo) /\
  Local.tasks (Local.app (Local.undoDelete (Sample.browser 4000)
                            Sample.localBeforeUndo)) <>
    Api.tasks (Api.app (Api.undoDelete (Sample.healthy 4000)
                          Sample.apiBeforeUndo)).
Proof.
  split; [vm_compute; reflexivity|].
  split; [vm_compute; reflexivity|].
  split; [vm_compute; reflexivity|].
  intros H. vm_compute in H. discriminate.
Qed.

(** Claim C4, amended.  From the same task array, with a row in the table
    for every task in memory, a request that reaches a working server and
    the same clock on both sides, Toggle, Edit and Delete leave the same
    task array in both clients, and so does Add when the numeral of the
    clock is not taken as an id in the table.  UndoDelete is not covered. *)
Theorem clients_agree_when_backend_succeeds
    (el : Local.env) (ea : Api.env) (wl : Local.world) (wa : Api.world) :
  Local.tasks (Local.app wl) = Api.tasks (Api.app wa) ->
  synced (Api.tasks (Api.app wa)) (Api.db wa) ->
  Api.net ea = Api.Delivered ->
  Api.dbUp ea = true ->
  Local.now el = Api.serverNow ea ->
  (forall title,
      no_row (JS.toString (Api.serverNow ea)) (Api.db wa) ->
      Local.tasks (Local.app (Local.addTask el title wl)) =
      Api.tasks (Api.app (Api.addTask ea title wa))) /\
  (forall i,
      Local.tasks (Local.app (Local.toggleTask el i wl)) =
      Api.tasks (Api.app (Api.toggleTask ea i wa))) /\
  (forall i newTitle,
      Local.tasks (Local.app (Local.editTask el i newTitle wl)) =
      Api.tasks (Api.app (Api.editTask ea i newTitle wa))) /\
  (forall i,
      Local.tasks (Local.app (Local.deleteTask el i wl)) =
      Api.tasks (Api.app (Api.deleteTask ea i wa))).
Proof.
  intros Ht Hs Hn Hu Hc.
  split; [|split; [|split]].
  - intros title Hrow.
    rewrite LocalFacts.local_addTask_tasks, ApiFacts.addTask_tasks.
    destruct (JS.trim title) as [|c r] eqn:E.
    + unfold Local.created. rewrite E. simpl.
      unfold Api.created.
      destruct (ApiFacts.exchange_blank ea title (Api.db wa) E)
        as (_ & m & -> & _).
      exact Ht.
    + assert (Hne : JS.trim title <> []) by (rewrite E; discriminate).
      rewrite (ApiFacts.created_new ea title (Api.db wa) Hn Hu Hne Hrow).
      unfold Local.created. rewrite E. simpl. rewrite <- E.
      unfold Task.create. rewrite JSFacts.trim_idem, Hc, Ht. reflexivity.
  - intros i.
    destruct (JS.find (Task.hasId i) (Api.tasks (Api.app wa))) as [task|] eqn:E.
    + rewrite (ApiFacts.toggleTask_tasks ea i wa task Hn Hu
                 (ApiFacts.synced_find i _ _ task Hs E) E).
      rewrite <- Ht in E.
      rewrite (LocalFacts.local_toggleTask_tasks el i wl task E).
      now rewrite Ht.
    + rewrite (ApiFacts.toggleTask_unknown ea i wa E).
      rewrite <- Ht in E.
      now rewrite (LocalFacts.local_toggleTask_unknown el i wl E).
  - intros i newTitle.
    destruct (JS.trim newTitle) as [|c r] eqn:Et.
    + rewrite (ApiFacts.editTask_blank ea i newTitle wa Et).
      now rewrite (LocalFacts.local_editTask_blank el i newTitle wl Et).
    + assert (Hne : JS.trim newTitle <> []) by (rewrite Et; discriminate).
      destruct (JS.find (Task.hasId i) (Api.tasks (Api.app wa)))
        as [task|] eqn:E.
      * rewrite (ApiFacts.editTask_tasks ea i newTitle wa task Hn Hu
                   (ApiFacts.synced_find i _ _ task Hs E) Hne E).
        rewrite <- Ht in E.
        rewrite (LocalFacts.local_editTask_tasks el i newTitle wl task Hne E).
        now rewrite Ht.
      * rewrite (ApiFacts.editTask_unknown ea i newTitle wa E).
        rewrite <- Ht in E.
        now rewrite (LocalFacts.local_editTask_unknown el i newTitle wl E).
  - intros i.
    destruct (JSFacts.findIndex_spec (Task.hasId i) (Api.tasks (Api.app wa)))
      as [[Hi Hf]|(n & x & Hi & Hx & Hp & Hf)].
    + rewrite (ApiFacts.deleteTask_unknown ea i wa Hi).
      rewrite <- Ht in Hi.
      rewrite (LocalFacts.local_deleteTask_unknown el i wl Hi). exact Ht.
    + destruct (ApiFacts.deleteTask_success ea i wa n x Hn Hu
                  (ApiFacts.synced_find i _ _ x Hs Hf) Hi Hx)
        as (A1 & _).
      rewrite <- Ht in Hi, Hx.
      destruct (LocalFacts.deleteTask_found el i wl n x Hi Hx)
        as (L1 & L2 & L3).
      now rewrite A1, L1, Ht.
Qed.

(** Witness of claim C4: both clients hold the task 1000, the table has
    its row, and the clock reads 5000 on both sides. *)
Lemma clients_agree_when_backend_succeeds_witness :
  Local.tasks
    (Local.app (Local.toggleTask (Sample.browser 5000) (JS.str "1000")
                  (Local.mkWorld (Local.mkApp [Sample.milk] None (-1) Ui.init)
                     (Some [Sample.milk])))) =
  Api.tasks
    (Api.app (Api.toggleTask (Sample.healthy 5000) (JS.str "1000")
                (Api.mkWorld (Api.mkApp [Sample.milk] None (-1) Ui.init)
                   [Sample.milkRow]))) /\
  Local.tasks
    (Local.app (Local.addTask (Sample.browser 5000) (JS.str " Call Bob ")
                  (Local.mkWorld (Local.mkApp [Sample.milk] None (-1) Ui.init)
                     (Some [Sample.milk])))) =
  Api.tasks
    (Api.app (Api.addTask (Sample.healthy 5000) (JS.str " Call Bob ")
                (Api.mkWorld (Api.mkApp [Sample.milk] None (-1) Ui.init)
                   [Sample.milkRow]))).
Proof.
  destruct (clients_agree_when_backend_succeeds
              (Sample.browser 5000) (Sample.healthy 5000)
              (Local.mkWorld (Local.mkApp [Sample.milk] None (-1) Ui.init)
                 (Some [Sample.milk]))
              (Api.mkWorld (Api.mkApp [Sample.milk] None (-1) Ui.init)
                 [Sample.milkRow]))
    as (Hadd & Htoggle & _).
  - reflexivity.
  - constructor; [vm_compute; reflexivity|constructor].
  - reflexivity.
  - reflexivity.
  - reflexivity.
  - split; [apply Htoggle|]. apply Hadd.
    constructor; [|constructor]. intros E. vm_compute in E. discriminate.
Defined.

(* ====================================================================== *)
(** ** Adding tasks *)
(* ====================================================================== *)

(** Claim C5.  [addTask] of the API client with a title that is empty
    after trimming: the POST route answers 400 "Title is required" and
    leaves the table alone, the call throws, the task array keeps its
    content and length, and the error is shown, which is the validation
    error whenever the request reached the server.  And whenever the call
    to the backend throws, for any title, the task array is left as it
    was and the error is shown in the snackbar. *)
Theorem addTask_rejects_blank_title_and_survives_failure
    (e : Api.env) (title : JS.jsstring) (w : Api.world) :
  (JS.trim title = [] ->
   (forall up t tbl,
       Server.postTask up t (Some title) tbl =
       (Server.mkResponse 400 false Server.NoData
          (Some (JS.str "Title is required")) None None, tbl)) /\
   Api.db (Api.addTask e title w) = Api.db w /\
   Api.tasks (Api.app (Api.addTask e title w)) = Api.tasks (Api.app w) /\
   length (Api.tasks (Api.app (Api.addTask e title w))) =
     length (Api.tasks (Api.app w)) /\
   exists m,
     fst (Api.apiCall e (Server.PostTask (Some title)) w) = inl m /\
     (Api.net e = Api.Delivered -> m = JS.str "Title is required") /\
     Ui.snackbarMessage (Api.ui (Api.app (Api.addTask e title w))) =
       JS.str "Error: " ++ m /\
     Ui.snackbarActive (Api.ui (Api.app (Api.addTask e title w))) = true) /\
  (forall m,
      fst (Api.apiCall e (Server.PostTask (Some title)) w) = inl m ->
      Api.tasks (Api.app (Api.addTask e title w)) = Api.tasks (Api.app w) /\
      Ui.snackbarMessage (Api.ui (Api.app (Api.addTask e title w))) =
        JS.str "Error: " ++ m /\
      Ui.snackbarActive (Api.ui (Api.app (Api.addTask e title w))) = true).
Proof.
  assert (Hfail : forall m,
      fst (Api.apiCall e (Server.PostTask (Some title)) w) = inl m ->
      Api.tasks (Api.app (Api.addTask e title w)) = Api.tasks (Api.app w) /\
      Ui.snackbarMessage (Api.ui (Api.app (Api.addTask e title w))) =
        JS.str "Error: " ++ m /\
      Ui.snackbarActive (Api.ui (Api.app (Api.addTask e title w))) = true).
  { intros m Hm. rewrite (ApiFacts.addTask_failure e title w m Hm).
    split; [apply ApiFacts.runTimers_tasks|]. split; reflexivity. }
  split; [|exact Hfail].
  intros Hb.
  destruct (ApiFacts.exchange_blank e title (Api.db w) Hb)
    as (Hdb & m & Hm & Hd).
  rewrite <- ApiFacts.apiCall_fst in Hm.
  destruct (Hfail m Hm) as (H1 & H2 & H3).
  split; [intros up t tbl; now apply ApiFacts.post_blank|].
  split; [now rewrite ApiFacts.addTask_db|].
  split; [exact H1|].
  split; [now rewrite H1|].
  exists m. auto.
Qed.

(** Witness of claim C5: a whitespace-only title sent to a working
    backend, and any title sent while the database is down. *)
Lemma addTask_rejects_blank_title_and_survives_failure_witness :
  Api.tasks (Api.app (Api.addTask (Sample.healthy 5000) (JS.str "   ")
                        Sample.twoTasks)) =
    Api.tasks (Api.app Sample.twoTasks) /\
  Api.tasks (Api.app (Api.addTask (Sample.dbDown 5000) (JS.str "Feed cat")
                        Sample.twoTasks)) =
    Api.tasks (Api.app Sample.twoTasks).
Proof.
  split.
  - destruct (addTask_rejects_blank_title_and_survives_failure
                (Sample.healthy 5000) (JS.str "   ") Sample.twoTasks)
      as (H & _).
    destruct H as (_ & _ & H & _); [reflexivity|exact H].
  - destruct (addTask_rejects_blank_title_and_survives_failure
                (Sample.dbDown 5000) (JS.str "Feed cat") Sample.twoTasks)
      as (_ & H).
    destruct (H (JS.str "Failed to create task")) as (H1 & _);
      [vm_compute; reflexivity|exact H1].
Defined.

(** Claim C8.  A run of adds leaves the tasks of its successful adds in
    front of the array, most recent first, so that from an empty array its
    length is the number of successful adds; a task is created only from
    a title that is not blank; and Toggle and Edit keep every task at its
    position.  In both clients. *)
Theorem adds_prepend_and_toggle_edit_keep_order :
  (forall l w,
      Api.tasks (Api.app (Api.addAll l w)) =
      rev (Api.createdAll l w) ++ Api.tasks (Api.app w)) /\
  (forall l,
      Api.tasks (Api.app (Api.addAll l Api.initial)) =
        rev (Api.createdAll l Api.initial) /\
      length (Api.tasks (Api.app (Api.addAll l Api.initial))) =
        length (Api.createdAll l Api.initial)) /\
  (forall l w,
      Local.tasks (Local.app (Local.addAll l w)) =
      rev (Local.createdAll l) ++ Local.tasks (Local.app w)) /\
  (forall l,
      Local.tasks (Local.app (Local.addAll l Local.initial)) =
        rev (Local.createdAll l) /\
      length (Local.tasks (Local.app (Local.addAll l Local.initial))) =
        length (Local.createdAll l)) /\
  (forall e title tbl task,
      Api.created e title tbl = Some task ->
      Task.title task = JS.trim title /\ JS.trim title <> [] /\
      Task.isDone task = false) /\
  (forall e input task,
      Local.created e input = Some task ->
      Task.title task = JS.trim input /\ JS.trim input <> [] /\
      Task.isDone task = false) /\
  (forall e i w,
      map identity (Api.tasks (Api.app (Api.toggleTask e i w))) =
      map identity (Api.tasks (Api.app w))) /\
  (forall e i newTitle w,
      map identity (Api.tasks (Api.app (Api.editTask e i newTitle w))) =
      map identity (Api.tasks (Api.app w))) /\
  (forall e i w,
      map identity (Local.tasks (Local.app (Local.toggleTask e i w))) =
      map identity (Local.tasks (Local.app w))) /\
  (forall e i newTitle w,
      map identity (Local.tasks (Local.app (Local.editTask e i newTitle w))) =
      map identity (Local.tasks (Local.app w))).
Proof.
  split; [apply ApiFacts.addAll_tasks|].
  split.
  { intros l. rewrite ApiFacts.addAll_tasks. simpl. rewrite app_nil_r.
    split; [reflexivity|apply length_rev]. }
  split; [apply LocalFacts.local_addAll_tasks|].
  split.
  { intros l. rewrite LocalFacts.local_addAll_tasks. simpl. rewrite app_nil_r.
    split; [reflexivity|apply length_rev]. }
  split; [apply ApiFacts.created_task|].
  split; [apply LocalFacts.local_created_task|].
  split; [apply ApiFacts.toggleTask_identity|].
  split; [apply ApiFacts.editTask_identity|].
  split; [apply LocalFacts.local_toggleTask_identity|].
  apply LocalFacts.local_editTask_identity.
Qed.

(** Witness of claim C8: three adds, the second one blank, in each
    client. *)
Lemma adds_prepend_and_toggle_edit_keep_order_witness :
  map Task.title
    (Api.tasks
       (Api.app
          (Api.addAll
             [(Sample.healthy 1000, JS.str "Buy milk");
              (Sample.healthy 2000, JS.str "  ");
              (Sample.healthy 3000, JS.str " Call Bob ")]
             Api.initial))) =
    [JS.str "Call Bob"; JS.str "Buy milk"] /\
  (Task.title Sample.milk = JS.trim (JS.str " Buy milk ") /\
   JS.trim (JS.str " Buy milk ") <> [] /\
   Task.isDone Sample.milk = false).
Proof.
  destruct adds_prepend_and_toggle_edit_keep_order
    as (_ & Hadd & _ & _ & _ & Hcreated & _).
  split.
  - destruct (Hadd [(Sample.healthy 1000, JS.str "Buy milk");
                    (Sample.healthy 2000, JS.str "  ");
                    (Sample.healthy 3000, JS.str " Call Bob ")]) as (-> & _).
    vm_compute. reflexivity.
  - apply (Hcreated (Sample.browser 1000) (JS.str " Buy milk ") Sample.milk).
    vm_compute. reflexivity.
Defined.

(* ====================================================================== *)
(** ** Titles *)
(* ====================================================================== *)



(* ====================================================================== *)
(** ** More about the routes *)
(* ====================================================================== *)

Module RouteFacts.

Import Server.

Lemma insertDesc_perm r l : Permutation (insertDesc r l) (r :: l).
Proof.
  induction l as [|x l IH]; simpl; [reflexivity|].
  destruct (r_created_at x <=? r_created_at r); [reflexivity|].
  rewrite IH. apply perm_swap.
Qed.

Lemma orderBy_perm l : Permutation (orderByCreatedAtDesc l) l.
Proof.
  induction l as [|x l IH]; simpl; [reflexivity|].
  rewrite insertDesc_perm. now constructor.
Qed.

Lemma insertDesc_sorted r l :
  StronglySorted newer l -> StronglySorted newer (insertDesc r l).
Proof.
  induction 1 as [|x l Hl IH Hx]; simpl.
  - repeat constructor.
  - destruct (r_created_at x <=? r_created_at r) eqn:E.
    + apply Z.leb_le in E. constructor; [now constructor|].
      constructor; [exact E|].
      eapply Forall_impl; [|exact Hx]. unfold newer. intros y Hy. lia.
    + apply Z.leb_gt in E. constructor; [exact IH|].
      apply Forall_forall. intros y Hy.
      apply (Permutation_in _ (insertDesc_perm r l)) in Hy.
      destruct Hy as [<-|Hy]; [unfold newer; lia|].
      rewrite Forall_forall in Hx. now apply Hx.
Qed.

Lemma orderBy_sorted l : StronglySorted newer (orderByCreatedAtDesc l).
Proof.
  induction l as [|x l IH]; simpl; [constructor|].
  now apply insertDesc_sorted.
Qed.

Lemma StronglySorted_map {A B} (R : A -> A -> Prop) (S : B -> B -> Prop)
    (f : A -> B) (l : list A) :
  (forall a b, R a b -> S (f a) (f b)) ->
  StronglySorted R l -> StronglySorted S (map f l).
Proof.
  intros H. induction 1 as [|x l Hl IH Hx]; simpl; constructor; [exact IH|].
  apply Forall_map. eapply Forall_impl; [|exact Hx]. intros y. apply H.
Qed.

Lemma filter_split_length {A} (p : A -> bool) (l : list A) :
  length l =
  (length (filter p l) + length (filter (fun x => negb (p x)) l))%nat.
Proof.
  induction l as [|x l IH]; simpl; [reflexivity|].
  destruct (p x); simpl; lia.
Qed.

Lemma filter_none {A} (p : A -> bool) (l : list A) :
  filter p (filter (fun x => negb (p x)) l) = [].
Proof.
  induction l as [|x l IH]; simpl; [reflexivity|].
  destruct (p x) eqn:E; simpl; [exact IH|]. now rewrite E.
Qed.

Lemma filter_twice {A} (p : A -> bool) (l : list A) :
  filter p (filter p l) = filter p l.
Proof.
  induction l as [|x l IH]; simpl; [reflexivity|].
  destruct (p x) eqn:E; simpl; [|exact IH]. now rewrite E, IH.
Qed.

Lemma kept_no_row i tbl : no_row i (filter (fun r => negb (hasId i r)) tbl).
Proof.
  apply Forall_forall. intros r Hr. apply filter_In in Hr as [_ Hr].
  apply negb_true_iff in Hr. now apply JSFacts.eqb_neq.
Qed.

Lemma setClause_twice t d n r :
  setClause t d n (setClause t d n r) = setClause t d n r.
Proof. unfold setClause. simpl. now destruct t, d. Qed.

Lemma update_twice i t d n tbl :
  sqlUpdate i t d n (snd (sqlUpdate i t d n tbl)) = sqlUpdate i t d n tbl.
Proof.
  unfold sqlUpdate. cbn [snd]. f_equal.
  - f_equal. induction tbl as [|r tbl IH]; simpl; [reflexivity|].
    destruct (hasId i r) eqn:E; simpl.
    + assert (E' : hasId i (setClause t d n r) = true) by exact E.
      rewrite E'. simpl. now rewrite setClause_twice, IH.
    + rewrite E. exact IH.
  - rewrite map_map. apply map_ext. intros r.
    destruct (hasId i r) eqn:E.
    + assert (E' : hasId i (setClause t d n r) = true) by exact E.
      now rewrite E', setClause_twice.
    + now rewrite E.
Qed.

End RouteFacts.

(** GET [/api/tasks] answers 200 with every row of the table exactly
    once, newest first, and leaves the table alone; when the query throws
    it answers 500 "Failed to fetch tasks". *)
Theorem get_tasks_lists_every_row_newest_first (tbl : Server.table) :
  Server.getTasks true tbl =
    (Server.mkResponse 200 true (Server.TaskList (Server.sqlSelect tbl))
       None None None, tbl) /\
  Permutation (Server.sqlSelect tbl) (map Server.returning tbl) /\
  newest_first (Server.sqlSelect tbl) /\
  Server.getTasks false tbl =
    (Server.mkResponse 500 false Server.NoData
       (Some (JS.str "Failed to fetch tasks")) None None, tbl).
Proof.
  split; [reflexivity|]. split; [|split; [|reflexivity]].
  - unfold Server.sqlSelect. apply Permutation_map.
    apply RouteFacts.orderBy_perm.
  - unfold newest_first, Server.sqlSelect.
    apply (RouteFacts.StronglySorted_map newer);
      [|apply RouteFacts.orderBy_sorted].
    intros a b H. exact H.
Qed.

(** DELETE [/api/tasks-completed] removes exactly the rows that are done
    and reports their number: the rows left are those that were not done,
    the count and the rows left add up to the table, and a second call
    removes nothing.  When the query throws the table is left alone. *)
Theorem delete_completed_removes_exactly_done_rows (tbl : Server.table) :
  let n := length (filter Server.r_is_done tbl) in
  let tbl' := snd (Server.deleteCompleted true tbl) in
  Server.deleteCompleted true tbl =
    (Server.mkResponse 200 true Server.NoData None
       (Some (JS.str "Completed tasks cleared")) (Some n), tbl') /\
  (forall r, In r tbl' <-> In r tbl /\ Server.r_is_done r = false) /\
  length tbl = (n + length tbl')%nat /\
  Server.deleteCompleted true tbl' =
    (Server.mkResponse 200 true Server.NoData None
       (Some (JS.str "Completed tasks cleared")) (Some 0%nat), tbl') /\
  snd (Server.deleteCompleted false tbl) = tbl.
Proof.
  cbn. split; [reflexivity|]. split; [|split; [|split; [|reflexivity]]].
  - intros r. rewrite filter_In, negb_true_iff. reflexivity.
  - apply RouteFacts.filter_split_length.
  - rewrite (RouteFacts.filter_none Server.r_is_done tbl).
    rewrite (RouteFacts.filter_twice (fun r => negb (Server.r_is_done r))).
    reflexivity.
Qed.

(** A POST with a title that is not blank, at a clock reading whose
    numeral is not an id of the table, answers 201 with the new task (id
    the numeral, title trimmed, not done, created now), adds one row, and
    a GET lists the task; the DELETE of that id then answers 200 with the
    same task and gives back the table as it was before the POST. *)
Theorem post_then_delete_restores_table
    (now : Z) (title : JS.jsstring) (tbl : Server.table) :
  JS.trim title <> [] ->
  no_row (JS.toString now) tbl ->
  let task := Task.new (JS.toString now) (JS.trim title) false now in
  let tbl1 := snd (Server.postTask true now (Some title) tbl) in
  Server.postTask true now (Some title) tbl =
    (Server.mkResponse 201 true (Server.TaskData task) None None None,
     tbl1) /\
  length tbl1 = S (length tbl) /\
  In task (Server.sqlSelect tbl1) /\
  Server.deleteTask true (JS.toString now) tbl1 =
    (Server.mkResponse 200 true (Server.TaskData task) None
       (Some (JS.str "Task deleted successfully")) None, tbl).
Proof.
  intros Ht Hn. cbn zeta.
  rewrite (ApiFacts.post_created true now title tbl eq_refl Ht Hn).
  cbn [snd]. split; [reflexivity|].
  split; [rewrite length_app; simpl; lia|].
  split.
  - apply (Permutation_in _
             (Permutation_sym
                (Permutation_map Server.returning
                   (RouteFacts.orderBy_perm _)))).
    rewrite map_app. apply in_or_app. right. now left.
  - unfold Server.deleteTask, Server.sqlDelete.
    rewrite !filter_app.
    rewrite (ServerFacts.no_row_filter _ tbl Hn),
            (ServerFacts.no_row_keep _ tbl Hn).
    cbn [filter]. unfold Server.hasId at 1 3. cbn [Server.r_id].
    rewrite JSFacts.eqb_refl. cbn. now rewrite app_nil_r.
Qed.

(** Witness: a first task added to an empty table at clock 1000. *)
Lemma post_then_delete_restores_table_witness :
  Server.deleteTask true (JS.str "1000")
    (snd (Server.postTask true 1000 (Some (JS.str " Buy milk ")) [])) =
  (Server.mkResponse 200 true (Server.TaskData Sample.milk) None
     (Some (JS.str "Task deleted successfully")) None, []).
Proof.
  destruct (post_then_delete_restores_table 1000 (JS.str " Buy milk ") [])
    as (_ & _ & _ & H).
  - vm_compute. discriminate.
  - constructor.
  - exact H.
Defined.

(** The DELETE of an id the table holds answers 200 with the task of the
    first row of that id and removes the rows of that id and no other;
    the id is unknown afterwards, so the same DELETE again answers 404. *)
Theorem delete_removes_the_rows_of_the_id
    (i : JS.jsstring) (tbl : Server.table) (r : Server.row) :
  List.find (Server.hasId i) tbl = Some r ->
  let tbl' := snd (Server.deleteTask true i tbl) in
  Server.deleteTask true i tbl =
    (Server.mkResponse 200 true (Server.TaskData (Server.returning r)) None
       (Some (JS.str "Task deleted successfully")) None, tbl') /\
  (forall x, In x tbl' <-> In x tbl /\ Server.r_id x <> i) /\
  Server.deleteTask true i tbl' =
    (Server.mkResponse 404 false Server.NoData
       (Some (JS.str "Task not found")) None None, tbl').
Proof.
  intros Hf. cbn zeta.
  destruct (ServerFacts.find_filter _ _ _ Hf) as (l & Hl).
  assert (E : Server.deleteTask true i tbl =
              (Server.mkResponse 200 true
                 (Server.TaskData (Server.returning r)) None
                 (Some (JS.str "Task deleted successfully")) None,
               filter (fun x => negb (Server.hasId i x)) tbl)).
  { unfold Server.deleteTask, Server.sqlDelete. now rewrite Hl. }
  rewrite E. cbn [snd]. split; [reflexivity|]. split.
  - intros x. rewrite filter_In, negb_true_iff.
    unfold Server.hasId. now rewrite JSFacts.eqb_neq.
  - unfold Server.deleteTask, Server.sqlDelete.
    rewrite (ServerFacts.no_row_filter i _ (RouteFacts.kept_no_row i tbl)).
    rewrite (ServerFacts.no_row_keep i _ (RouteFacts.kept_no_row i tbl)).
    reflexivity.
Qed.

(** Witness: the task 1000 deleted from a table of two. *)
Lemma delete_removes_the_rows_of_the_id_witness :
  Server.deleteTask true (JS.str "1000") [Sample.milkRow; Sample.bobRow] =
  (Server.mkResponse 200 true (Server.TaskData Sample.milk) None
     (Some (JS.str "Task deleted successfully")) None, [Sample.bobRow]).
Proof.
  destruct (delete_removes_the_rows_of_the_id (JS.str "1000")
              [Sample.milkRow; Sample.bobRow] Sample.milkRow)
    as (H & _).
  - reflexivity.
  - exact H.
Defined.

(** A PUT is idempotent: sent again with the same body at the same time
    it gives the same answer and the same table.  For a task the table
    holds, a title that is not blank and an [isDone], the answer is 200
    with the task carrying the trimmed title and that [isDone], its id
    and creation time as before. *)
Theorem put_is_idempotent_and_answers_the_updated_task
    (now : Z) (i : JS.jsstring) (title : option JS.jsstring)
    (isDone : option bool) (tbl : Server.table) :
  Server.putTask true now i title isDone
    (snd (Server.putTask true now i title isDone tbl)) =
  Server.putTask true now i title isDone tbl /\
  (forall r s b,
      List.find (Server.hasId i) tbl = Some r ->
      title = Some s -> JS.trim s <> [] -> isDone = Some b ->
      fst (Server.putTask true now i title isDone tbl) =
      Server.mkResponse 200 true
        (Server.TaskData
           (Task.new (Server.r_id r) (JS.trim s) b (Server.r_created_at r)))
        None None None).
Proof.
  split.
  - unfold Server.putTask.
    assert (E : snd (match Server.sqlUpdate i (Server.pushedTitle title)
                             isDone now tbl with
                     | ([], tbl') => (Server.failure 404 "Task not found", tbl')
                     | (r :: _, tbl') =>
                         (Server.ok 200 (Server.TaskData r), tbl')
                     end) =
                snd (Server.sqlUpdate i (Server.pushedTitle title)
                       isDone now tbl)).
    { now destruct (Server.sqlUpdate _ _ _ _ _) as [[|x l] t]. }
    rewrite E, RouteFacts.update_twice. reflexivity.
  - intros r s b Hf -> Hs ->.
    destruct (ServerFacts.find_filter _ _ _ Hf) as (l & Hl).
    unfold Server.putTask, Server.sqlUpdate. rewrite Hl. cbn.
    apply JSFacts.eqb_neq in Hs. now rewrite Hs.
Qed.

(** Witness: the task 1000 renamed and marked done. *)
Lemma put_is_idempotent_and_answers_the_updated_task_witness :
  fst (Server.putTask true 5000 (JS.str "1000") (Some (JS.str " Buy tea "))
         (Some true) [Sample.milkRow; Sample.bobRow]) =
  Server.mkResponse 200 true
    (Server.TaskData (Task.new (JS.str "1000") (JS.str "Buy tea") true 1000))
    None None None.
Proof.
  destruct (put_is_idempotent_and_answers_the_updated_task 5000
              (JS.str "1000") (Some (JS.str " Buy tea ")) (Some true)
              [Sample.milkRow; Sample.bobRow]) as (_ & H).
  apply (H Sample.milkRow (JS.str " Buy tea ") true).
  - reflexivity.
  - reflexivity.
  - vm_compute. discriminate.
  - reflexivity.
Defined.

(** Whatever the request, the table and the state of the database, the
    answer of a route has one of the statuses 200, 201, 400, 404 and 500,
    its [success] says whether the status is a 2xx, a success carries no
    [error], and a failure carries no [data] and an [error] that is not
    empty, which is the message [apiCall] throws. *)
Theorem routes_answer_consistent_envelopes
    (up : bool) (now : Z) (req : Server.request) (tbl : Server.table) :
  let r := fst (Server.handle up now req tbl) in
  In (Server.status r) [200; 201; 400; 404; 500] /\
  Server.success r = Api.responseOk r /\
  if Server.success r then Server.error r = None
  else Server.data r = Server.NoData /\
       exists m, Server.error r = Some m /\ m <> [] /\
                 Api.errorMessage r = m.
Proof.
  assert (F : forall code msg,
             In code [400; 404; 500] -> JS.str msg <> [] ->
             let r := Server.failure code msg in
             In (Server.status r) [200; 201; 400; 404; 500] /\
             Server.success r = Api.responseOk r /\
             if Server.success r then Server.error r = None
             else Server.data r = Server.NoData /\
                  exists m, Server.error r = Some m /\ m <> [] /\
                            Api.errorMessage r = m).
  { intros code msg Hc Hm. cbn.
    split; [simpl in *; intuition|].
    split; [destruct Hc as [<-|[<-|[<-|[]]]]; reflexivity|].
    split; [reflexivity|]. exists (JS.str msg).
    split; [reflexivity|]. split; [exact Hm|].
    unfold Api.errorMessage. cbn.
    destruct (JS.str msg); [now destruct Hm|reflexivity]. }
  destruct req as [|title|i title isDone|i|]; cbn [Server.handle].
  - unfold Server.getTasks. destruct up; [cbn; intuition|].
    apply F; [simpl; intuition|discriminate].
  - unfold Server.postTask. destruct title as [s|];
      [|apply F; [simpl; intuition|discriminate]].
    destruct (negb (JS.truthy s) || JS.eqb (JS.trim s) []);
      [apply F; [simpl; intuition|discriminate]|].
    destruct up; [|apply F; [simpl; intuition|discriminate]].
    unfold Server.sqlInsert.
    destruct (existsb _ tbl);
      [apply F; [simpl; intuition|discriminate]|].
    cbn. intuition.
  - unfold Server.putTask.
    destruct up; [|apply F; [simpl; intuition|discriminate]].
    destruct (Server.sqlUpdate _ _ _ _ _) as [[|x l] t];
      [apply F; [simpl; intuition|discriminate]|].
    cbn. intuition.
  - unfold Server.deleteTask.
    destruct up; [|apply F; [simpl; intuition|discriminate]].
    destruct (Server.sqlDelete _ _) as [[|x l] t];
      [apply F; [simpl; intuition|discriminate]|].
    cbn. intuition.
  - unfold Server.deleteCompleted.
    destruct up; [|apply F; [simpl; intuition|discriminate]].
    cbn. intuition.
Qed.

(** No route rewrites the id or the creation time of a row: after any
    request every row has the id and creation time of a row that was
    there before, or is the row a POST has just created, whose id is the
    numeral of the clock reading the route took.  A PUT keeps them row
    by row. *)
Theorem routes_keep_id_and_creation_time
    (up : bool) (now : Z) (req : Server.request) (tbl : Server.table) :
  (forall k,
      In k (map row_key (snd (Server.handle up now req tbl))) ->
      In k (map row_key tbl) \/
      (exists title, req = Server.PostTask title) /\
      fst k = JS.toString now) /\
  (forall i title isDone,
      map row_key (snd (Server.putTask up now i title isDone tbl)) =
      map row_key tbl).
Proof.
  assert (Hput : forall i title isDone,
             map row_key (snd (Server.putTask up now i title isDone tbl)) =
             map row_key tbl).
  { intros i title isDone. unfold Server.putTask.
    destruct up; [|reflexivity]. unfold Server.sqlUpdate.
    destruct (map Server.returning _); cbn [snd]; rewrite map_map;
      apply map_ext; intros r; now destruct (Server.hasId i r). }
  split; [|exact Hput].
  intros k Hk. destruct req as [|title|i title isDone|i|];
    cbn [Server.handle] in Hk.
  - left. unfold Server.getTasks in Hk. now destruct up.
  - unfold Server.postTask in Hk. destruct title as [s|]; [|now left].
    destruct (negb (JS.truthy s) || JS.eqb (JS.trim s) []); [now left|].
    destruct up; [|now left].
    unfold Server.sqlInsert in Hk.
    destruct (existsb _ tbl); [now left|].
    cbn in Hk. rewrite map_app in Hk. apply in_app_or in Hk as [Hk|Hk];
      [now left|].
    right. split; [eauto|]. destruct Hk as [<-|[]]. reflexivity.
  - left. now rewrite Hput in Hk.
  - left. unfold Server.deleteTask in Hk. destruct up; [|exact Hk].
    unfold Server.sqlDelete in Hk.
    assert (Hk' : In k (map row_key
                          (filter (fun r => negb (Server.hasId i r)) tbl)))
      by (destruct (map Server.returning _); exact Hk).
    apply in_map_iff in Hk' as (r & <- & Hr).
    apply filter_In in Hr as [Hr _]. now apply in_map.
  - left. unfold Server.deleteCompleted in Hk. destruct up; [|exact Hk].
    cbn in Hk. apply in_map_iff in Hk as (r & <- & Hr).
    apply filter_In in Hr as [Hr _]. now apply in_map.
Qed.

(** Witness: a POST at 2000 to the table that holds the task 1000 adds
    the id 2000 and keeps the row 1000; a PUT that renames the task 1000
    and marks it done leaves the ids and creation times as they were. *)
Lemma routes_keep_id_and_creation_time_witness :
  let posted :=
    snd (Server.handle true 2000
           (Server.PostTask (Some (JS.str "Call Bob"))) [Sample.milkRow]) in
  In (JS.str "2000", 2000) (map row_key posted) /\
  ~ In (JS.str "2000", 2000) (map row_key [Sample.milkRow]) /\
  fst (JS.str "2000", 2000) = JS.toString 2000 /\
  map row_key
    (snd (Server.putTask true 5000 (JS.str "1000")
            (Some (JS.str "Buy tea")) (Some true)
            [Sample.milkRow; Sample.bobRow])) =
  [(JS.str "1000", 1000); (JS.str "2000", 2000)].
Proof.
  intros posted.
  assert (Hin : In (JS.str "2000", 2000) (map row_key posted))
    by (vm_compute; right; now left).
  assert (Hnot : ~ In (JS.str "2000", 2000) (map row_key [Sample.milkRow])).
  { intros [H|[]]. vm_compute in H. discriminate H. }
  split; [exact Hin|]. split; [exact Hnot|]. split.
  - destruct (routes_keep_id_and_creation_time true 2000
                (Server.PostTask (Some (JS.str "Call Bob")))
                [Sample.milkRow]) as (H & _).
    destruct (H (JS.str "2000", 2000) Hin) as [Hold|[_ Hid]];
      [contradiction|exact Hid].
  - destruct (routes_keep_id_and_creation_time true 5000
                Server.GetTasks [Sample.milkRow; Sample.bobRow]) as (_ & H).
    rewrite H. reflexivity.
Defined.

(* ====================================================================== *)
(** ** More about the localStorage client *)
(* ====================================================================== *)

Module LocalMore.

Import Local.

Lemma fromJSON_id task : Task.fromJSON task = task.
Proof. now destruct task. Qed.

Lemma toJSON_id task : Task.toJSON task = task.
Proof. now destruct task. Qed.

Lemma map_fromJSON l : map Task.fromJSON l = l.
Proof.
  induction l as [|x l IH]; simpl; [reflexivity|].
  now rewrite fromJSON_id, IH.
Qed.

Lemma map_toJSON l : map Task.toJSON l = l.
Proof.
  induction l as [|x l IH]; simpl; [reflexivity|].
  now rewrite toJSON_id, IH.
Qed.

Lemma saveTasks_saved e w : quotaOk e = true -> local_saved (saveTasks e w).
Proof.
  intros H. unfold saveTasks, local_saved. rewrite H. cbn.
  apply map_toJSON.
Qed.

Lemma saveTasks_failed e w : quotaOk e = false -> saveTasks e w = w.
Proof. intros H. unfold saveTasks. now rewrite H. Qed.

Lemma saved_ui (w : world) (a : App) :
  tasks a = tasks (app w) -> local_saved w ->
  local_saved (mkWorld a (storage w)).
Proof. unfold local_saved. cbn. intros ->. auto. Qed.

Lemma step_saved e ev w :
  quotaOk e = true -> local_saved w -> local_saved (step e ev w).
Proof.
  intros Hq Hs.
  assert (H0 : local_saved (mkWorld (runTimers (now e) (app w)) (storage w)))
    by (apply saved_ui; [apply LocalFacts.local_runTimers_tasks|exact Hs]).
  destruct ev; cbn [step].
  - unfold loadTasks, local_saved in *. cbn.
    destruct (storage w) as [l|]; cbn; [|reflexivity].
    now rewrite map_fromJSON.
  - unfold addTask. destruct (negb _); [exact H0|].
    now apply saveTasks_saved.
  - unfold toggleTask. destruct (JS.find _ _); [|exact H0].
    now apply saveTasks_saved.
  - unfold editTask. destruct (JS.find _ _); [|exact H0].
    destruct (JS.truthy _); [|exact H0]. now apply saveTasks_saved.
  - unfold deleteTask. destruct (_ =? -1); [exact H0|].
    set (w1 := saveTasks e _).
    assert (H1 : local_saved w1) by now apply saveTasks_saved.
    destruct (deletedTask (app w1)); [|exact H1].
    apply saved_ui; [reflexivity|exact H1].
  - unfold undoDelete. destruct (deletedTask _); [|exact H0].
    destruct (negb _); [|exact H0].
    set (w1 := saveTasks e _).
    assert (H1 : local_saved w1) by now apply saveTasks_saved.
    apply saved_ui; [reflexivity|exact H1].
Qed.

Lemma reload_saved e w :
  local_saved w ->
  tasks (app (step e Start w)) = tasks (app w) /\
  deletedTask (app (step e Start w)) = None /\
  deletedTaskIndex (app (step e Start w)) = -1.
Proof.
  unfold local_saved. cbn [step]. unfold loadTasks. cbn.
  destruct (storage w) as [l|]; cbn.
  - intros ->. now rewrite map_fromJSON.
  - intros ->. auto.
Qed.

(** *** Assignments to the first match *)

Lemma assignFirst_fixed {A} (p : A -> bool) (h : A -> A) (l : list A) (t : A) :
  JS.find p l = Some t -> h t = t -> JS.assignFirst p h l = l.
Proof.
  unfold JS.find. induction l as [|x l IH]; simpl; [discriminate|].
  destruct (p x).
  - intros [= ->] ->. reflexivity.
  - intros Hf Ht. now rewrite IH.
Qed.

Lemma assignFirst_twice {A} (p : A -> bool) (f g : A -> A) (l : list A) :
  (forall x, p (g x) = p x) ->
  JS.assignFirst p f (JS.assignFirst p g l) =
  JS.assignFirst p (fun x => f (g x)) l.
Proof.
  intros H. induction l as [|x l IH]; simpl; [reflexivity|].
  destruct (p x) eqn:E; simpl.
  - now rewrite H, E.
  - now rewrite E, IH.
Qed.

Lemma find_assignFirst {A} (p : A -> bool) (g : A -> A) (l : list A) :
  (forall x, p (g x) = p x) ->
  JS.find p (JS.assignFirst p g l) = option_map g (JS.find p l).
Proof.
  intros H. unfold JS.find. induction l as [|x l IH]; simpl; [reflexivity|].
  destruct (p x) eqn:E; simpl.
  - now rewrite H, E.
  - now rewrite E, IH.
Qed.

Lemma toggle_twice_array i (l : list Task.t) task :
  JS.find (Task.hasId i) l = Some task ->
  JS.assignFirst (Task.hasId i)
    (Task.setIsDone (negb (negb (Task.isDone task))))
    (JS.assignFirst (Task.hasId i)
       (Task.setIsDone (negb (Task.isDone task))) l) = l.
Proof.
  intros Hf. rewrite assignFirst_twice by reflexivity.
  apply (assignFirst_fixed _ _ l task Hf).
  rewrite negb_involutive. now destruct task.
Qed.

End LocalMore.

(** While every write to localStorage succeeds, the stored document is
    the task array after every event, so that opening the page again
    gives back the same array; the pending-undo record does not survive
    the reload.  A write that fails is only logged: the new task of an
    add whose write failed is in the array and is gone after a reload. *)
Theorem reload_restores_saved_array :
  local_saved Local.initial /\
  (forall e ev w,
      Local.quotaOk e = true -> local_saved w ->
      local_saved (Local.step e ev w)) /\
  (forall e w,
      local_saved w ->
      Local.tasks (Local.app (Local.step e Local.Start w)) =
        Local.tasks (Local.app w) /\
      Local.deletedTask (Local.app (Local.step e Local.Start w)) = None /\
      Local.deletedTaskIndex (Local.app (Local.step e Local.Start w)) = -1) /\
  (forall e e' input w task,
      Local.quotaOk e = false -> local_saved w ->
      Local.created e input = Some task ->
      Local.tasks (Local.app (Local.step e (Local.Add input) w)) =
        task :: Local.tasks (Local.app w) /\
      Local.tasks
        (Local.app (Local.step e' Local.Start
                      (Local.step e (Local.Add input) w))) =
        Local.tasks (Local.app w)).
Proof.
  split; [reflexivity|].
  split; [apply LocalMore.step_saved|].
  split; [apply LocalMore.reload_saved|].
  intros e e' input w task Hq Hs Hc. cbn [Local.step].
  split.
  - rewrite LocalFacts.local_addTask_tasks, Hc. cbn.
    now rewrite LocalFacts.local_runTimers_tasks.
  - unfold Local.addTask. unfold Local.created in Hc.
    destruct (JS.truthy (JS.trim input)); [|discriminate]. cbn.
    rewrite (LocalMore.saveTasks_failed e _ Hq). cbn.
    unfold Local.loadTasks, local_saved in *. cbn.
    destruct (Local.storage w) as [l|]; cbn.
    + now rewrite LocalMore.map_fromJSON.
    + now rewrite Hs.
Qed.

(** Witness: the session of the two adds, reloaded; and a third add
    whose write fails. *)
Lemma reload_restores_saved_array_witness :
  Local.tasks
    (Local.app (Local.step (Sample.browser 9000) Local.Start
                  Sample.sameMillisecond)) =
    Local.tasks (Local.app Sample.sameMillisecond) /\
  Local.tasks
    (Local.app
       (Local.step (Sample.browser 9000) Local.Start
          (Local.step (Local.mkEnv 5000 false) (Local.Add (JS.str "Feed cat"))
             Sample.sameMillisecond))) =
    Local.tasks (Local.app Sample.sameMillisecond).
Proof.
  destruct reload_restores_saved_array as (_ & _ & Hr & Hf).
  assert (Hs : local_saved Sample.sameMillisecond) by (vm_compute; reflexivity).
  split.
  - apply (Hr (Sample.browser 9000) Sample.sameMillisecond Hs).
  - apply (Hf (Local.mkEnv 5000 false) (Sample.browser 9000)
             (JS.str "Feed cat") Sample.sameMillisecond
             (Task.new (JS.str "5000") (JS.str "Feed cat") false 5000));
      [reflexivity|exact Hs|vm_compute; reflexivity].
Defined.

(** In the localStorage client a delete followed by an undo, however
    much later, gives back the task array as it was, the task at its
    position with its id and its done state, and clears the pending-undo
    record. *)
Theorem local_delete_then_undo_is_identity
    (e1 e2 : Local.env) (i : JS.jsstring) (w : Local.world) :
  JS.find (Task.hasId i) (Local.tasks (Local.app w)) <> None ->
  let w' := Local.step e2 Local.UndoDelete (Local.step e1 (Local.Delete i) w) in
  Local.tasks (Local.app w') = Local.tasks (Local.app w) /\
  Local.deletedTask (Local.app w') = None /\
  Local.deletedTaskIndex (Local.app w') = -1.
Proof.
  intros Hf. cbn zeta. cbn [Local.step].
  set (w0 := Local.mkWorld (Local.runTimers (Local.now e1) (Local.app w))
               (Local.storage w)).
  assert (Ht0 : Local.tasks (Local.app w0) = Local.tasks (Local.app w))
    by apply LocalFacts.local_runTimers_tasks.
  destruct (JSFacts.findIndex_spec (Task.hasId i) (Local.tasks (Local.app w0)))
    as [[_ Hn]|(n & x & Hi & Hx & _)].
  { rewrite Ht0 in Hn. contradiction. }
  destruct (LocalFacts.deleteTask_found e1 i w0 n x Hi Hx)
    as (D1 & D2 & D3).
  set (w1 := Local.deleteTask e1 i w0) in *.
  set (w2 := Local.mkWorld (Local.runTimers (Local.now e2) (Local.app w1))
               (Local.storage w1)).
  assert (T2 : Local.tasks (Local.app w2) = Local.tasks (Local.app w1))
    by apply LocalFacts.local_runTimers_tasks.
  assert (R2 : Local.deletedTask (Local.app w2) = Some x).
  { unfold w2. cbn. now rewrite LocalFacts.local_runTimers_deleted. }
  assert (I2 : Local.deletedTaskIndex (Local.app w2) = Z.of_nat n).
  { unfold w2. cbn. rewrite <- D3.
    unfold Local.runTimers. generalize (Ui.expired (Local.now e2)
                                          (Local.ui (Local.app w1))).
    intros l. generalize (Local.app w1). induction l as [|t l IH]; intros a.
    - reflexivity.
    - simpl. rewrite IH. unfold Local.fire.
      destruct (Ui.pending _ _); [|reflexivity]. now destruct (Ui.action t). }
  destruct (LocalFacts.undoDelete_found e2 w2 x R2) as (U1 & U2 & U3);
    [rewrite I2; lia|].
  rewrite U1, U2, U3, I2, T2, D1.
  rewrite (JSFacts.splice_remove_insert n x _ Hx). auto.
Qed.

(** Witness: the task 1000 deleted at 3000 and restored an hour later. *)
Lemma local_delete_then_undo_is_identity_witness :
  Local.tasks
    (Local.app
       (Local.step (Sample.browser 3603000) Local.UndoDelete
          (Local.step (Sample.browser 3000) (Local.Delete (JS.str "1000"))
             Sample.sameMillisecond))) =
  Local.tasks (Local.app Sample.sameMillisecond).
Proof.
  destruct (local_delete_then_undo_is_identity (Sample.browser 3000)
              (Sample.browser 3603000) (JS.str "1000") Sample.sameMillisecond)
    as (H & _).
  - vm_compute. discriminate.
  - exact H.
Defined.

(** In the localStorage client toggling a task twice gives back the task
    array as it was, whatever the session, and toggling an id that is not
    in the array changes nothing at all. *)
Theorem local_toggle_twice_is_identity
    (e1 e2 : Local.env) (i : JS.jsstring) (w : Local.world) :
  Local.tasks (Local.app (Local.toggleTask e2 i (Local.toggleTask e1 i w))) =
    Local.tasks (Local.app w) /\
  match JS.find (Task.hasId i) (Local.tasks (Local.app w)) with
  | Some task =>
      JS.find (Task.hasId i)
        (Local.tasks (Local.app (Local.toggleTask e1 i w))) =
      Some (Task.setIsDone (negb (Task.isDone task)) task)
  | None => Local.toggleTask e1 i w = w
  end.
Proof.
  destruct (JS.find (Task.hasId i) (Local.tasks (Local.app w)))
    as [task|] eqn:Hf.
  - assert (H1 : Local.tasks (Local.app (Local.toggleTask e1 i w)) =
                 JS.assignFirst (Task.hasId i)
                   (Task.setIsDone (negb (Task.isDone task)))
                   (Local.tasks (Local.app w)))
      by now apply LocalFacts.local_toggleTask_tasks.
    assert (H2 : JS.find (Task.hasId i)
                   (Local.tasks (Local.app (Local.toggleTask e1 i w))) =
                 Some (Task.setIsDone (negb (Task.isDone task)) task)).
    { rewrite H1, LocalMore.find_assignFirst by reflexivity. now rewrite Hf. }
    split; [|exact H2].
    rewrite (LocalFacts.local_toggleTask_tasks e2 i _ _ H2), H1. cbn.
    now apply LocalMore.toggle_twice_array.
  - rewrite !(LocalFacts.local_toggleTask_unknown _ i w Hf).
    split; reflexivity.
Qed.

(* ====================================================================== *)
(** ** The statistics chips *)
(* ====================================================================== *)

Module StatsFacts.

Lemma count_assignFirst {A} (p q : A -> bool) (f : A -> A) (l : list A) t :
  JS.find p l = Some t ->
  (length (filter q (JS.assignFirst p f l)) + (if q t then 1 else 0) =
   length (filter q l) + (if q (f t) then 1 else 0))%nat.
Proof.
  unfold JS.find. induction l as [|x l IH]; simpl; [discriminate|].
  destruct (p x).
  - intros [= ->]. simpl. destruct (q t), (q (f t)); simpl; lia.
  - intros Hf. simpl. specialize (IH Hf). destruct (q x); simpl; lia.
Qed.

Lemma count_perm {A} (q : A -> bool) (l l' : list A) :
  Permutation l l' -> length (filter q l) = length (filter q l').
Proof.
  induction 1 as [|x l l' _ IH|x y l|l l' l'' _ IH1 _ IH2]; simpl.
  - reflexivity.
  - destruct (q x); simpl; now rewrite IH.
  - destruct (q x), (q y); reflexivity.
  - now rewrite IH1.
Qed.

Lemma count_returning (tbl : Server.table) :
  length (filter Task.isDone (map Server.returning tbl)) =
  length (filter Server.r_is_done tbl).
Proof.
  induction tbl as [|r tbl IH]; simpl; [reflexivity|].
  destruct (Server.r_is_done r); simpl; now rewrite IH.
Qed.

End StatsFacts.

(** The two chips count every task once: the pending and the done number
    add up to the length of the array, and the chips are cleared exactly
    when the array is empty.  Toggling a task of the array moves one unit
    from one chip to the other.  The done number of the list GET answers
    is the number of rows DELETE [/api/tasks-completed] removes. *)
Theorem stats_chips_count_every_task :
  (forall l,
      (Stats.pendingCount l + Stats.doneCount l = length l)%nat /\
      (Stats.renderStats l = None <-> l = [])) /\
  (forall e i w task,
      JS.find (Task.hasId i) (Local.tasks (Local.app w)) = Some task ->
      let l := Local.tasks (Local.app w) in
      let l' := Local.tasks (Local.app (Local.toggleTask e i w)) in
      if Task.isDone task then
        Stats.pendingCount l' = S (Stats.pendingCount l) /\
        S (Stats.doneCount l') = Stats.doneCount l
      else
        S (Stats.pendingCount l') = Stats.pendingCount l /\
        Stats.doneCount l' = S (Stats.doneCount l)) /\
  (forall tbl,
      Server.deletedCount (fst (Server.deleteCompleted true tbl)) =
      Some (Stats.doneCount (Server.sqlSelect tbl))).
Proof.
  split; [|split].
  - intros l. split.
    + unfold Stats.pendingCount, Stats.doneCount.
      rewrite (RouteFacts.filter_split_length Task.isDone l). lia.
    + unfold Stats.renderStats. destruct l; simpl; split; congruence.
  - intros e i w task Hf. cbn zeta.
    rewrite (LocalFacts.local_toggleTask_tasks e i w task Hf).
    unfold Stats.pendingCount, Stats.doneCount.
    pose proof (StatsFacts.count_assignFirst (Task.hasId i) Task.isDone
                  (Task.setIsDone (negb (Task.isDone task))) _ task Hf) as Hd.
    pose proof (StatsFacts.count_assignFirst (Task.hasId i)
                  (fun t => negb (Task.isDone t))
                  (Task.setIsDone (negb (Task.isDone task))) _ task Hf) as Hp.
    cbn in Hd, Hp. destruct (Task.isDone task); cbn in *; lia.
  - intros tbl. cbn. f_equal. unfold Stats.doneCount, Server.sqlSelect.
    rewrite StatsFacts.count_returning.
    apply StatsFacts.count_perm. symmetry. apply RouteFacts.orderBy_perm.
Qed.

(** Witness: toggling the task 1000 of the session of the two adds. *)
Lemma stats_chips_count_every_task_witness :
  Stats.doneCount
    (Local.tasks
       (Local.app (Local.toggleTask (Sample.browser 5000) (JS.str "1000")
                     Sample.sameMillisecond))) =
  S (Stats.doneCount (Local.tasks (Local.app Sample.sameMillisecond))).
Proof.
  destruct stats_chips_count_every_task as (_ & H & _).
  specialize (H (Sample.browser 5000) (JS.str "1000") Sample.sameMillisecond
                (Task.new (JS.str "1000") (JS.str "Call Bob") false 1000)
                eq_refl).
  apply H.
Defined.

(* ====================================================================== *)
(** ** More about the client over the REST API *)
(* ====================================================================== *)

(** Opening the page of the API client: when the GET reaches a working
    server the task array is the table, every row once and newest first,
    and the table is left alone; when the call throws, the array is empty
    and the error is shown.  Nothing of an earlier session survives in
    the pending-undo record. *)
Theorem start_loads_the_table_or_empties_the_array
    (e : Api.env) (w : Api.world) :
  let w' := Api.step e Api.Start w in
  Api.deletedTask (Api.app w') = None /\
  (Api.net e = Api.Delivered -> Api.dbUp e = true ->
   Api.tasks (Api.app w') = Server.sqlSelect (Api.db w) /\
   Permutation (Api.tasks (Api.app w')) (map Server.returning (Api.db w)) /\
   newest_first (Api.tasks (Api.app w')) /\
   Api.db w' = Api.db w) /\
  (forall m,
      fst (Api.exchange e Server.GetTasks (Api.db w)) = inl m ->
      Api.tasks (Api.app w') = [] /\
      Ui.snackbarMessage (Api.ui (Api.app w')) = JS.str "Error: " ++ m /\
      Ui.snackbarActive (Api.ui (Api.app w')) = true).
Proof.
  cbn zeta. cbn [Api.step]. unfold Api.loadTasks.
  rewrite ApiFacts.apiCall_eq. cbn [Api.db Api.app].
  split; [|split].
  - destruct (Api.exchange e Server.GetTasks (Api.db w)) as [[m|r] tbl'];
      [reflexivity|].
    destruct (Server.success r); [|reflexivity].
    now destruct (Server.data r).
  - intros Hn Hu.
    rewrite (ApiFacts.exchange_delivered e _ _ Hn). cbn [Server.handle].
    rewrite Hu. cbn. rewrite LocalMore.map_fromJSON.
    destruct (get_tasks_lists_every_row_newest_first (Api.db w))
      as (_ & Hp & Hs & _).
    auto.
  - intros m Hm.
    destruct (Api.exchange e Server.GetTasks (Api.db w)) as [[m'|r] tbl'];
      [|discriminate].
    cbn in Hm. injection Hm as ->. cbn. auto.
Qed.

(** Witness: the page opened on the table of the two tasks, with a
    working server and with the database down. *)
Lemma start_loads_the_table_or_empties_the_array_witness :
  Api.tasks (Api.app (Api.step (Sample.healthy 9000) Api.Start
                        Sample.twoTasks)) =
    [Sample.bob; Sample.milk] /\
  Api.tasks (Api.app (Api.step (Sample.dbDown 9000) Api.Start
                        Sample.twoTasks)) = [].
Proof.
  split.
  - destruct (start_loads_the_table_or_empties_the_array
                (Sample.healthy 9000) Sample.twoTasks) as (_ & H & _).
    destruct (H eq_refl eq_refl) as (-> & _). vm_compute. reflexivity.
  - destruct (start_loads_the_table_or_empties_the_array
                (Sample.dbDown 9000) Sample.twoTasks) as (_ & _ & H).
    destruct (H (JS.str "Failed to fetch tasks")) as (-> & _);
      [vm_compute; reflexivity|reflexivity].
Defined.

(* ====================================================================== *)
(** ** The timers of the API client *)
(* ====================================================================== *)

Module TimerFacts.

Import Timers.

Lemma clearTimeout_In h (u : Ui.t Api.callback) x :
  In x (Ui.timers (Ui.clearTimeout h u)) <->
  In x (Ui.timers u) /\ Ui.handle x <> h.
Proof.
  unfold Ui.clearTimeout. cbn. rewrite filter_In, negb_true_iff.
  now rewrite Nat.eqb_neq.
Qed.

Lemma clearTimeout_fresh h u :
  handles_fresh u -> handles_fresh (Ui.clearTimeout h u).
Proof.
  intros (Hn & Hb & Hs). split; [|split]; cbn.
  - now apply ServerFacts.NoDup_map_filter.
  - now apply ServerFacts.Forall_filter.
  - exact Hs.
Qed.

Lemma clearTimeout_timer h u :
  snackbar_timer u -> snackbar_timer (Ui.clearTimeout h u).
Proof.
  intros (Hf & Hi). split; [now apply clearTimeout_fresh|].
  intros x Hx. apply clearTimeout_In in Hx as [Hx _]. now apply Hi.
Qed.

Lemma same_handle (u : Ui.t Api.callback) x y :
  NoDup (map Ui.handle (Ui.timers u)) ->
  In x (Ui.timers u) -> In y (Ui.timers u) ->
  Ui.handle x = Ui.handle y -> x = y.
Proof.
  generalize (Ui.timers u) as l. induction l as [|z l IH]; simpl; [tauto|].
  intros Hn Hx Hy E. inversion Hn as [|? ? Hz Hl]; subst.
  destruct Hx as [->|Hx], Hy as [->|Hy]; auto.
  - exfalso. apply Hz. rewrite E. now apply in_map.
  - exfalso. apply Hz. rewrite <- E. now apply in_map.
Qed.

Lemma pending_iff h (u : Ui.t Api.callback) :
  Ui.pending h u = true <-> exists z, In z (Ui.timers u) /\ Ui.handle z = h.
Proof.
  unfold Ui.pending. rewrite existsb_exists.
  split; intros (z & Hz & E); exists z; split; auto;
    now apply Nat.eqb_eq.
Qed.

Lemma hideSnackbar_fields (u : Ui.t Api.callback) :
  Ui.snackbarTimeout (Ui.hideSnackbar u) = Ui.snackbarTimeout u /\
  Ui.snackbarMessage (Ui.hideSnackbar u) = Ui.snackbarMessage u /\
  Ui.snackbarActive (Ui.hideSnackbar u) = false /\
  Ui.nextHandle (Ui.hideSnackbar u) = Ui.nextHandle u /\
  Ui.timers (Ui.hideSnackbar u) =
    match Ui.snackbarTimeout u with
    | Some h => Ui.timers (Ui.clearTimeout h u)
    | None => Ui.timers u
    end.
Proof.
  unfold Ui.hideSnackbar, Ui.cancelSnackbarTimeout. cbn.
  destruct (Ui.snackbarTimeout u) as [h|] eqn:E; cbn; rewrite ?E; auto.
Qed.

(** After [hideSnackbar] no timer that hides the snackbar is pending. *)
Lemma hideSnackbar_ok u : snackbar_timer u -> snackbar_ok (Ui.hideSnackbar u).
Proof.
  intros (Hf & Hi).
  destruct (hideSnackbar_fields u) as (S1 & _ & S3 & S4 & S5).
  assert (Hsub : forall x, In x (Ui.timers (Ui.hideSnackbar u)) ->
                           In x (Ui.timers u) /\
                           Ui.snackbarTimeout u <> Some (Ui.handle x)).
  { intros x. rewrite S5. destruct (Ui.snackbarTimeout u) as [h|].
    - rewrite clearTimeout_In. intros [Hx Hh]. split; [exact Hx|congruence].
    - intros Hx. split; [exact Hx|discriminate]. }
  assert (Hnone : forall x, In x (Ui.timers (Ui.hideSnackbar u)) ->
                            Ui.action x <> Api.HideSnackbar).
  { intros x Hx Ha. destruct (Hsub x Hx) as [Hin Hne].
    apply Hne. now apply Hi. }
  split; [split|].
  - assert (Hc : forall h, handles_fresh (Ui.clearTimeout h u))
      by (intros h; now apply clearTimeout_fresh).
    destruct Hf as (Hn & Hb & Hs). unfold handles_fresh.
    rewrite S1, S4, S5. destruct (Ui.snackbarTimeout u) as [h|].
    + destruct (Hc h) as (H1 & H2 & _).
      split; [exact H1|]. split; [exact H2|exact Hs].
    + split; [exact Hn|]. split; [exact Hb|exact Hs].
  - intros x Hx. rewrite S1. split.
    + intros Ha. now destruct (Hnone x Hx).
    + intros Ht. now destruct (Hsub x Hx) as [_ Hne].
  - rewrite S3. split; [discriminate|].
    intros (x & Hx & Ha). now destruct (Hnone x Hx).
Qed.

Lemma showSnackbar_ok t msg u :
  snackbar_timer u -> snackbar_ok (Ui.showSnackbar Api.HideSnackbar t msg u).
Proof.
  intros Hu. destruct (hideSnackbar_ok u Hu) as (((Hn & Hb & Hs) & Hi) & Ha).
  assert (Hnone : forall x, In x (Ui.timers (Ui.cancelSnackbarTimeout u)) ->
                            Ui.action x <> Api.HideSnackbar).
  { intros x Hx E. destruct Ha as [_ Ha].
    assert (F : Ui.snackbarActive (Ui.hideSnackbar u) = true).
    { apply Ha. exists x. split; [|exact E].
      unfold Ui.hideSnackbar, Ui.cancelSnackbarTimeout in *. cbn in *.
      now destruct (Ui.snackbarTimeout u). }
    unfold Ui.hideSnackbar, Ui.cancelSnackbarTimeout in F. cbn in F.
    destruct (Ui.snackbarTimeout u); discriminate. }
  assert (Eq : Ui.timers (Ui.hideSnackbar u) =
               Ui.timers (Ui.cancelSnackbarTimeout u) /\
               Ui.nextHandle (Ui.hideSnackbar u) =
               Ui.nextHandle (Ui.cancelSnackbarTimeout u)).
  { unfold Ui.hideSnackbar, Ui.cancelSnackbarTimeout. cbn.
    now destruct (Ui.snackbarTimeout u). }
  destruct Eq as [Et En]. rewrite Et in Hn, Hb. rewrite En in Hb.
  unfold Ui.showSnackbar, Ui.setTimeout. cbn.
  set (c := Ui.cancelSnackbarTimeout u) in *.
  split; [split; [split; [|split]|]|]; cbn.
  - rewrite map_app. cbn.
    apply NoDup_app; [exact Hn|repeat constructor; simpl; tauto|].
    intros h Hh [<-|[]]. apply in_map_iff in Hh as (x & E & Hx).
    rewrite Forall_forall in Hb. specialize (Hb x Hx). lia.
  - apply Forall_app. split.
    + eapply Forall_impl; [|exact Hb]. cbn. intros x Hx. lia.
    + repeat constructor.
  - intros h [= <-]. lia.
  - intros x Hx. apply in_app_or in Hx as [Hx|[<-|[]]].
    + split.
      * intros E. now destruct (Hnone x Hx).
      * intros [= E]. rewrite Forall_forall in Hb. specialize (Hb x Hx). lia.
    + cbn. split; reflexivity.
  - split; [|reflexivity]. intros _.
    eexists. split; [apply in_or_app; right; now left|reflexivity].
Qed.

Lemma ok_timer u : snackbar_ok u -> snackbar_timer u.
Proof. now intros [H _]. Qed.

Lemma setTimeout_countdown_ok d t u :
  snackbar_ok u -> snackbar_ok (snd (Ui.setTimeout Api.ClearUndo d t u)).
Proof.
  intros (((Hn & Hb & Hs) & Hi) & Ha). unfold Ui.setTimeout. cbn.
  split; [split; [split; [|split]|]|]; cbn.
  - rewrite map_app. cbn.
    apply NoDup_app; [exact Hn|repeat constructor; simpl; tauto|].
    intros h Hh [<-|[]]. apply in_map_iff in Hh as (x & E & Hx).
    rewrite Forall_forall in Hb. specialize (Hb x Hx). lia.
  - apply Forall_app. split.
    + eapply Forall_impl; [|exact Hb]. cbn. intros x Hx. lia.
    + repeat constructor.
  - intros h Hh. specialize (Hs h Hh). lia.
  - intros x Hx. apply in_app_or in Hx as [Hx|[<-|[]]]; [now apply Hi|].
    cbn. split; [discriminate|]. intros E. specialize (Hs _ E). lia.
  - rewrite Ha. split.
    + intros (x & Hx & E). exists x. split; [apply in_or_app; now left|exact E].
    + intros (x & Hx & E). apply in_app_or in Hx as [Hx|[<-|[]]];
        [eauto|discriminate].
Qed.

(** Firing a timer that is among the pending ones. *)
Lemma fire_ok x a :
  snackbar_ok (Api.ui a) ->
  (Ui.pending (Ui.handle x) (Api.ui a) = true -> In x (Ui.timers (Api.ui a))) ->
  snackbar_ok (Api.ui (Api.fire x a)).
Proof.
  intros Hok Hin. unfold Api.fire.
  destruct (Ui.pending (Ui.handle x) (Api.ui a)) eqn:Ep; [|exact Hok].
  specialize (Hin eq_refl).
  destruct (Ui.action x) eqn:Ea; cbn.
  - destruct Hok as (Ht & Ha). split; [now apply clearTimeout_timer|].
    cbn. rewrite Ha. split.
    + intros (y & Hy & E). exists y. split; [|exact E].
      apply clearTimeout_In. split; [exact Hy|].
      intros Eh. destruct Ht as ((Hn & _) & _).
      assert (y = x) by (apply (same_handle (Api.ui a)); auto).
      subst y. congruence.
    + intros (y & Hy & E). apply clearTimeout_In in Hy as [Hy _]. eauto.
  - apply hideSnackbar_ok. apply clearTimeout_timer. now apply ok_timer.
Qed.

Lemma fire_timers x a :
  incl (Ui.timers (Api.ui (Api.fire x a))) (Ui.timers (Api.ui a)).
Proof.
  unfold Api.fire. destruct (Ui.pending _ _); [|apply incl_refl].
  destruct (Ui.action x); cbn.
  - intros y Hy. now apply filter_In in Hy as [Hy _].
  - unfold Ui.hideSnackbar, Ui.cancelSnackbarTimeout. cbn.
    destruct (Ui.snackbarTimeout (Api.ui a)); cbn; intros y Hy.
    + apply filter_In in Hy as [Hy _]. now apply filter_In in Hy as [Hy _].
    + now apply filter_In in Hy as [Hy _].
Qed.

Lemma pending_In (u0 u : Ui.t Api.callback) y :
  NoDup (map Ui.handle (Ui.timers u0)) ->
  In y (Ui.timers u0) -> incl (Ui.timers u) (Ui.timers u0) ->
  Ui.pending (Ui.handle y) u = true -> In y (Ui.timers u).
Proof.
  intros Hn Hy Hi Hp. apply pending_iff in Hp as (z & Hz & E).
  assert (z = y) by (apply (same_handle u0); auto). now subst z.
Qed.

Lemma fireAll_ok u0 l a :
  NoDup (map Ui.handle (Ui.timers u0)) ->
  incl l (Ui.timers u0) ->
  incl (Ui.timers (Api.ui a)) (Ui.timers u0) ->
  snackbar_ok (Api.ui a) ->
  snackbar_ok (Api.ui (fireAll l a)).
Proof.
  intros Hn. revert a.
  induction l as [|y l IH]; intros a Hl Ha Hok; [exact Hok|].
  cbn. apply IH.
  - intros z Hz. apply Hl. now right.
  - intros z Hz. apply Ha. now apply (fire_timers y a).
  - apply fire_ok; [exact Hok|].
    apply (pending_In u0); auto. apply Hl. now left.
Qed.

Lemma insertByDue_In (x : Ui.timer Api.callback) l y :
  In y (Ui.insertByDue Api.callback x l) <-> y = x \/ In y l.
Proof.
  induction l as [|z l IH]; simpl; [intuition|].
  destruct (Ui.due x <=? Ui.due z); simpl; [intuition|].
  rewrite IH. intuition.
Qed.

Lemma expired_In t (u : Ui.t Api.callback) y :
  In y (Ui.expired t u) <-> In y (Ui.timers u) /\ Ui.due y <= t.
Proof.
  unfold Ui.expired.
  assert (H : forall l, In y (fold_right (Ui.insertByDue Api.callback) [] l)
                        <-> In y l).
  { induction l as [|z l IH]; simpl; [tauto|].
    rewrite insertByDue_In, IH. intuition. }
  rewrite H, filter_In, Z.leb_le. reflexivity.
Qed.

Lemma runTimers_ok t a :
  snackbar_ok (Api.ui a) -> snackbar_ok (Api.ui (Api.runTimers t a)).
Proof.
  intros Hok. apply (fireAll_ok (Api.ui a)); auto.
  - now destruct Hok as (((Hn & _) & _) & _).
  - intros y Hy. now apply expired_In in Hy.
  - apply incl_refl.
Qed.

(** *** What firing changes *)

Lemma fireAll_cons y l a : fireAll (y :: l) a = fireAll l (Api.fire y a).
Proof. reflexivity. Qed.

Lemma fire_inactive x a :
  Ui.snackbarActive (Api.ui a) = false ->
  Ui.snackbarActive (Api.ui (Api.fire x a)) = false.
Proof.
  intros H. unfold Api.fire. destruct (Ui.pending _ _); [|exact H].
  destruct (Ui.action x); cbn; [exact H|].
  now destruct (hideSnackbar_fields (Ui.clearTimeout (Ui.handle x) (Api.ui a)))
    as (_ & _ & S3 & _).
Qed.

Lemma fireAll_inactive l a :
  Ui.snackbarActive (Api.ui a) = false ->
  Ui.snackbarActive (Api.ui (fireAll l a)) = false.
Proof.
  revert a. induction l as [|y l IH]; intros a H; [exact H|].
  cbn. apply IH. now apply fire_inactive.
Qed.

Lemma fire_cleared x a :
  Api.deletedTask a = None /\ Api.deletedTaskIndex a = -1 ->
  Api.deletedTask (Api.fire x a) = None /\
  Api.deletedTaskIndex (Api.fire x a) = -1.
Proof.
  intros H. unfold Api.fire. destruct (Ui.pending _ _); [|exact H].
  destruct (Ui.action x); cbn; [auto|exact H].
Qed.

Lemma fireAll_cleared l a :
  Api.deletedTask a = None /\ Api.deletedTaskIndex a = -1 ->
  Api.deletedTask (fireAll l a) = None /\
  Api.deletedTaskIndex (fireAll l a) = -1.
Proof.
  revert a. induction l as [|y l IH]; intros a H; [exact H|].
  cbn. apply IH. now apply fire_cleared.
Qed.

(** Countdowns leave the snackbar alone. *)
Lemma fireAll_keeps_snackbar l a :
  (forall y, In y l -> Ui.action y = Api.ClearUndo) ->
  Ui.snackbarActive (Api.ui (fireAll l a)) = Ui.snackbarActive (Api.ui a) /\
  Ui.snackbarMessage (Api.ui (fireAll l a)) = Ui.snackbarMessage (Api.ui a).
Proof.
  revert a. induction l as [|y l IH]; intros a H; [now split|].
  rewrite fireAll_cons. destruct (IH (Api.fire y a)) as [H1 H2];
    [intros z Hz; apply H; now right|].
  rewrite H1, H2. unfold Api.fire.
  destruct (Ui.pending _ _); [|now split].
  rewrite (H y (or_introl eq_refl)). now split.
Qed.

(** The timers of the snackbar leave the pending-undo record alone. *)
Lemma fireAll_keeps_record l a :
  (forall y, In y l -> Ui.action y = Api.HideSnackbar) ->
  Api.deletedTask (fireAll l a) = Api.deletedTask a /\
  Api.deletedTaskIndex (fireAll l a) = Api.deletedTaskIndex a.
Proof.
  revert a. induction l as [|y l IH]; intros a H; [now split|].
  rewrite fireAll_cons. destruct (IH (Api.fire y a)) as [H1 H2];
    [intros z Hz; apply H; now right|].
  rewrite H1, H2. unfold Api.fire.
  destruct (Ui.pending _ _); [|now split].
  rewrite (H y (or_introl eq_refl)). now split.
Qed.

Lemma In_pending x (u : Ui.t Api.callback) :
  In x (Ui.timers u) -> Ui.pending (Ui.handle x) u = true.
Proof. intros H. apply pending_iff. now exists x. Qed.

(** A timer of another handle stays pending when a timer fires, unless
    both hide the snackbar. *)
Lemma fire_keeps_other x y a :
  snackbar_ok (Api.ui a) ->
  In x (Ui.timers (Api.ui a)) ->
  (Ui.pending (Ui.handle y) (Api.ui a) = true -> In y (Ui.timers (Api.ui a))) ->
  Ui.handle y <> Ui.handle x ->
  In x (Ui.timers (Api.ui (Api.fire y a))).
Proof.
  intros ((Hf & Hi) & _) Hx Hy Hne. unfold Api.fire.
  destruct (Ui.pending (Ui.handle y) (Api.ui a)) eqn:Ep; [|exact Hx].
  specialize (Hy eq_refl).
  assert (Hc : In x (Ui.timers (Ui.clearTimeout (Ui.handle y) (Api.ui a))))
    by (apply clearTimeout_In; split; [exact Hx|congruence]).
  destruct (Ui.action y) eqn:Ea; [exact Hc|].
  change (In x (Ui.timers
                  (Ui.hideSnackbar
                     (Ui.clearTimeout (Ui.handle y) (Api.ui a))))).
  destruct (hideSnackbar_fields (Ui.clearTimeout (Ui.handle y) (Api.ui a)))
    as (_ & _ & _ & _ & S5).
  rewrite S5.
  change (Ui.snackbarTimeout (Ui.clearTimeout (Ui.handle y) (Api.ui a)))
    with (Ui.snackbarTimeout (Api.ui a)).
  apply (Hi y Hy) in Ea. rewrite Ea.
  apply clearTimeout_In. split; [exact Hc|congruence].
Qed.

Lemma fireAll_hides u0 l a x :
  NoDup (map Ui.handle (Ui.timers u0)) ->
  incl l (Ui.timers u0) ->
  incl (Ui.timers (Api.ui a)) (Ui.timers u0) ->
  snackbar_ok (Api.ui a) ->
  In x l -> In x (Ui.timers (Api.ui a)) ->
  Ui.action x = Api.HideSnackbar ->
  Ui.snackbarActive (Api.ui (fireAll l a)) = false.
Proof.
  intros Hn. revert a. induction l as [|y l IH];
    intros a Hl Ha Hok Hxl Hxa Hx; [destruct Hxl|].
  rewrite fireAll_cons.
  assert (Hy : Ui.pending (Ui.handle y) (Api.ui a) = true ->
               In y (Ui.timers (Api.ui a))).
  { apply (pending_In u0); auto. apply Hl. now left. }
  destruct (Nat.eq_dec (Ui.handle y) (Ui.handle x)) as [E|E].
  - assert (y = x).
    { apply (same_handle u0); auto. apply Hl. now left. }
    subst y. apply fireAll_inactive. unfold Api.fire.
    rewrite (In_pending x _ Hxa), Hx. cbn.
    now destruct (hideSnackbar_fields
                    (Ui.clearTimeout (Ui.handle x) (Api.ui a)))
      as (_ & _ & S3 & _).
  - destruct Hxl as [->|Hxl]; [now destruct E|].
    apply IH; auto.
    + intros z Hz. apply Hl. now right.
    + intros z Hz. apply Ha. now apply (fire_timers y a).
    + now apply fire_ok.
    + now apply fire_keeps_other.
Qed.

Lemma fireAll_clears u0 l a x :
  NoDup (map Ui.handle (Ui.timers u0)) ->
  incl l (Ui.timers u0) ->
  incl (Ui.timers (Api.ui a)) (Ui.timers u0) ->
  snackbar_ok (Api.ui a) ->
  In x l -> In x (Ui.timers (Api.ui a)) ->
  Ui.action x = Api.ClearUndo ->
  Api.deletedTask (fireAll l a) = None /\
  Api.deletedTaskIndex (fireAll l a) = -1.
Proof.
  intros Hn. revert a. induction l as [|y l IH];
    intros a Hl Ha Hok Hxl Hxa Hx; [destruct Hxl|].
  rewrite fireAll_cons.
  assert (Hy : Ui.pending (Ui.handle y) (Api.ui a) = true ->
               In y (Ui.timers (Api.ui a))).
  { apply (pending_In u0); auto. apply Hl. now left. }
  destruct (Nat.eq_dec (Ui.handle y) (Ui.handle x)) as [E|E].
  - assert (y = x).
    { apply (same_handle u0); auto. apply Hl. now left. }
    subst y. apply fireAll_cleared. unfold Api.fire.
    rewrite (In_pending x _ Hxa), Hx. cbn. auto.
  - destruct Hxl as [->|Hxl]; [now destruct E|].
    apply IH; auto.
    + intros z Hz. apply Hl. now right.
    + intros z Hz. apply Ha. now apply (fire_timers y a).
    + now apply fire_ok.
    + now apply fire_keeps_other.
Qed.

Lemma runTimers_fireAll t a :
  Api.runTimers t a = fireAll (Ui.expired t (Api.ui a)) a.
Proof. reflexivity. Qed.

(** *** The snackbar over a session *)

Lemma init_ok : snackbar_ok (Ui.init (callback := Api.callback)).
Proof.
  split; [split; [split; [|split]|]|]; cbn.
  - constructor.
  - constructor.
  - discriminate.
  - intros x [].
  - split; [discriminate|]. now intros (x & [] & _).
Qed.

Ltac snackbar :=
  cbn [Api.ui Api.app Api.setTasks Api.setDeleted Api.setUi
       Api.showSnackbar Api.hideSnackbar];
  repeat first
    [ assumption
    | apply showSnackbar_ok
    | apply hideSnackbar_ok
    | apply setTimeout_countdown_ok
    | apply runTimers_ok
    | apply ok_timer ].

Lemma apiCall_ok e req w :
  snackbar_ok (Api.ui (Api.app w)) ->
  snackbar_ok (Api.ui (Api.app (snd (Api.apiCall e req w)))).
Proof.
  intros H. rewrite ApiFacts.apiCall_eq.
  destruct (Api.exchange e req (Api.db w)) as [[m|r] tbl']; cbn [snd];
    snackbar.
Qed.

Ltac call e req w H :=
  let E := fresh "E" in
  let Hc := fresh "Hc" in
  pose proof (apiCall_ok e req w H) as Hc;
  destruct (Api.apiCall e req w) as [[?m|?r] ?w1] eqn:E; cbn [snd] in Hc.

Lemma loadTasks_ok e w :
  snackbar_ok (Api.ui (Api.app w)) ->
  snackbar_ok (Api.ui (Api.app (Api.loadTasks e w))).
Proof.
  intros H. unfold Api.loadTasks. call e Server.GetTasks w H; [snackbar|].
  destruct (Server.success r); [|snackbar].
  destruct (Server.data r); snackbar.
Qed.

Lemma addTask_ok e title w :
  snackbar_ok (Api.ui (Api.app w)) ->
  snackbar_ok (Api.ui (Api.app (Api.addTask e title w))).
Proof.
  intros H. unfold Api.addTask.
  call e (Server.PostTask (Some title)) w H; [snackbar|].
  destruct (Server.success r); [|snackbar].
  destruct (Server.data r); snackbar.
Qed.

Lemma toggleTask_ok e i w :
  snackbar_ok (Api.ui (Api.app w)) ->
  snackbar_ok (Api.ui (Api.app (Api.toggleTask e i w))).
Proof.
  intros H. unfold Api.toggleTask.
  destruct (JS.find _ _) as [task|]; [|exact H].
  call e (Server.PutTask i None (Some (negb (Task.isDone task)))) w H;
    [snackbar|].
  destruct (Server.success r); [|snackbar].
  destruct (Server.data r); snackbar.
Qed.

Lemma editTask_ok e i newTitle w :
  snackbar_ok (Api.ui (Api.app w)) ->
  snackbar_ok (Api.ui (Api.app (Api.editTask e i newTitle w))).
Proof.
  intros H. unfold Api.editTask.
  destruct (negb _); [exact H|].
  call e (Server.PutTask i (Some newTitle) None) w H; [snackbar|].
  destruct (Server.success r); [|snackbar].
  destruct (JS.find _ _); [|snackbar].
  destruct (Server.data r); snackbar.
Qed.

Lemma deleteTask_ok e i w :
  snackbar_ok (Api.ui (Api.app w)) ->
  snackbar_ok (Api.ui (Api.app (Api.deleteTask e i w))).
Proof.
  intros H. unfold Api.deleteTask.
  destruct (_ =? -1); [exact H|].
  match goal with
  | |- context [Api.apiCall e ?req ?w0] =>
      assert (H0 : snackbar_ok (Api.ui (Api.app w0))) by exact H;
      call e req w0 H0
  end.
  - destruct (Api.deletedTask (Api.app w1)); [|snackbar].
    destruct (negb _); snackbar.
  - destruct (Api.deletedTask (Api.app w1)); [|snackbar].
    match goal with
    | |- context [Ui.setTimeout Api.ClearUndo ?d ?t ?u] =>
        pose proof (setTimeout_countdown_ok d t u) as Hs;
        destruct (Ui.setTimeout Api.ClearUndo d t u) as [h u'] eqn:Eu
    end.
    cbn [snd] in Hs. cbn [Api.ui Api.app Api.setUi]. apply Hs. snackbar.
Qed.

Lemma undoDelete_ok e w :
  snackbar_ok (Api.ui (Api.app w)) ->
  snackbar_ok (Api.ui (Api.app (Api.undoDelete e w))).
Proof.
  intros H. unfold Api.undoDelete.
  destruct (Api.deletedTask (Api.app w)) as [d|]; [|exact H].
  call e (Server.PostTask (Some (Task.title d))) w H; [snackbar|].
  destruct (Server.success r); [|snackbar].
  destruct (Server.data r); snackbar.
Qed.

Lemma step_ok e ev w :
  snackbar_ok (Api.ui (Api.app w)) ->
  snackbar_ok (Api.ui (Api.app (Api.step e ev w))).
Proof.
  intros H.
  assert (H0 : snackbar_ok
                 (Api.ui (Api.app (Api.mkWorld
                                     (Api.runTimers (Api.started e) (Api.app w))
                                     (Api.db w)))))
    by now apply runTimers_ok.
  destruct ev; cbn [Api.step].
  - apply loadTasks_ok. apply init_ok.
  - now apply addTask_ok.
  - now apply toggleTask_ok.
  - now apply editTask_ok.
  - now apply deleteTask_ok.
  - now apply undoDelete_ok.
  - exact H0.
Qed.

Lemma reachable_ok w : Api.reachable w -> snackbar_ok (Api.ui (Api.app w)).
Proof.
  induction 1 as [|e ev w _ IH]; [apply init_ok|now apply step_ok].
Qed.

Lemma at_most_one (l : list (Ui.timer Api.callback)) h :
  NoDup (map Ui.handle l) -> (forall x, In x l -> Ui.handle x = h) ->
  (length l <= 1)%nat.
Proof.
  destruct l as [|x [|y l]]; simpl; [lia|lia|].
  intros Hn Hh. exfalso. inversion Hn as [|? ? Hx _]; subst.
  apply Hx. left. rewrite (Hh x), (Hh y); auto.
Qed.

Lemma one_hide_timer u : snackbar_ok u -> (length (hideTimers u) <= 1)%nat.
Proof.
  intros (((Hn & _) & Hi) & _). unfold hideTimers.
  destruct (Ui.snackbarTimeout u) as [h|] eqn:E.
  - apply (at_most_one _ h); [now apply ServerFacts.NoDup_map_filter|].
    intros x Hx. apply filter_In in Hx as [Hx Hh].
    unfold isHide in Hh. destruct (Ui.action x) eqn:Ea; [discriminate|].
    apply (Hi x Hx) in Ea. congruence.
  - destruct (filter isHide (Ui.timers u)) as [|x l] eqn:F; [simpl; lia|].
    assert (Hx : In x (filter isHide (Ui.timers u))) by (rewrite F; now left).
    apply filter_In in Hx as [Hx Hh].
    unfold isHide in Hh. destruct (Ui.action x) eqn:Ea; [discriminate|].
    apply (Hi x Hx) in Ea. congruence.
Qed.

(** *** The two delays *)

Lemma showSnackbar_fields t msg (u : Ui.t Api.callback) :
  let u' := Ui.showSnackbar Api.HideSnackbar t msg u in
  Ui.snackbarActive u' = true /\
  Ui.snackbarMessage u' = msg /\
  Ui.timers u' =
    Ui.timers (Ui.cancelSnackbarTimeout u) ++
    [Ui.mkTimer (Ui.nextHandle u) (t + 4000) Api.HideSnackbar].
Proof.
  cbn. unfold Ui.showSnackbar, Ui.setTimeout, Ui.cancelSnackbarTimeout. cbn.
  destruct (Ui.snackbarTimeout u); cbn; auto.
Qed.

Lemma cancel_In (u : Ui.t Api.callback) y :
  In y (Ui.timers (Ui.cancelSnackbarTimeout u)) -> In y (Ui.timers u).
Proof.
  unfold Ui.cancelSnackbarTimeout. destruct (Ui.snackbarTimeout u); [|auto].
  intros H. now apply clearTimeout_In in H as [H _].
Qed.

(** After [showSnackbar] at [t] the one timer that hides the snackbar is
    due at [t + 4000]; the countdowns are those there were. *)
Lemma showSnackbar_timers t msg u y :
  snackbar_timer u ->
  In y (Ui.timers (Ui.showSnackbar Api.HideSnackbar t msg u)) ->
  match Ui.action y with
  | Api.HideSnackbar =>
      y = Ui.mkTimer (Ui.nextHandle u) (t + 4000) Api.HideSnackbar
  | Api.ClearUndo => In y (Ui.timers u)
  end.
Proof.
  intros Hu Hy.
  destruct (showSnackbar_fields t msg u) as (_ & _ & Et).
  rewrite Et in Hy. apply in_app_or in Hy as [Hy|[<-|[]]]; [|reflexivity].
  destruct (Ui.action y) eqn:Ea; [now apply cancel_In|].
  exfalso. destruct (hideSnackbar_ok u Hu) as (_ & _ & Ha).
  destruct (hideSnackbar_fields u) as (_ & _ & S3 & _ & S5).
  rewrite S3 in Ha. discriminate Ha.
  exists y. split; [|exact Ea]. rewrite S5.
  unfold Ui.cancelSnackbarTimeout in Hy.
  now destruct (Ui.snackbarTimeout u).
Qed.

Lemma fireAll_timers l a :
  incl (Ui.timers (Api.ui (fireAll l a))) (Ui.timers (Api.ui a)).
Proof.
  revert a. induction l as [|y l IH]; intros a; [apply incl_refl|].
  rewrite fireAll_cons. intros z Hz. apply (fire_timers y a). now apply IH.
Qed.

(** Firing timers starts no countdown. *)
Lemma runTimers_countdowns t a :
  countdowns (Api.ui a) = [] -> countdowns (Api.ui (Api.runTimers t a)) = [].
Proof.
  intros H. rewrite runTimers_fireAll.
  destruct (countdowns (Api.ui (fireAll _ a))) as [|x l] eqn:E; [reflexivity|].
  assert (Hx : In x (countdowns (Api.ui a))).
  { assert (Hin : In x (x :: l)) by now left.
    rewrite <- E in Hin. apply filter_In in Hin as [H1 H2].
    apply filter_In. split; [|exact H2].
    exact (fireAll_timers _ a x H1). }
  rewrite H in Hx. destruct Hx.
Qed.

(** With no countdown pending, none runs out. *)
Lemma no_countdown_quiet t a : countdowns (Api.ui a) = [] -> quiet t a.
Proof.
  intros H. apply Forall_forall. intros x Hx _.
  destruct (Ui.action x) eqn:Ea; [|reflexivity].
  assert (Hin : In x (countdowns (Api.ui a))).
  { apply filter_In. split; [exact Hx|]. unfold isCountdown. now rewrite Ea. }
  rewrite H in Hin. destruct Hin.
Qed.

Lemma deleteTask_success_ui e i w n task :
  Api.net e = Api.Delivered -> Api.dbUp e = true ->
  existsb (Server.hasId i) (Api.db w) = true ->
  JS.findIndex (Task.hasId i) (Api.tasks (Api.app w)) = Z.of_nat n ->
  nth_error (Api.tasks (Api.app w)) n = Some task ->
  quiet (Api.now e) (Api.app w) ->
  Api.ui (Api.app (Api.deleteTask e i w)) =
  snd (Ui.setTimeout Api.ClearUndo 5000 (Api.now e)
         (Ui.showSnackbar Api.HideSnackbar (Api.now e)
            (JS.str "Deleted " ++ [JS.quote] ++ Task.title task ++ [JS.quote])
            (Api.ui
               (Api.runTimers (Api.now e)
                  (Api.setTasks
                     (JS.splice (Z.of_nat n) 1 [] (Api.tasks (Api.app w)))
                     (Api.setDeleted (Some task) (Z.of_nat n)
                        (Api.app w))))))).
Proof.
  intros Hn Hu Hr Hi Hx Hq. unfold Api.deleteTask. rewrite Hi.
  assert (E : (Z.of_nat n =? -1) = false) by (apply Z.eqb_neq; lia).
  rewrite E, ApiFacts.apiCall_eq. cbn [Api.db Api.app].
  rewrite (ApiFacts.exchange_delivered e _ (Api.db w) Hn).
  cbn [Server.handle].
  destruct (ApiFacts.delete_found (Api.dbUp e) i (Api.db w) Hu Hr)
    as (r & tbl' & ->).
  cbn [fst snd Api.responseOk Server.status Z.leb Z.compare Pos.compare
       Pos.compare_cont andb Api.app Api.db].
  rewrite JSFacts.index_of_nat, Hx.
  cbn [Api.tasks Api.setDeleted].
  set (a2 := Api.setTasks _ _).
  destruct (ApiFacts.runTimers_quiet (Api.now e) a2 Hq) as [Q1 _].
  change (Api.deletedTask a2) with (Some task) in Q1.
  clearbody a2. revert Q1. generalize (Api.runTimers (Api.now e) a2).
  intros a' Q1. rewrite Q1. reflexivity.
Qed.

End TimerFacts.

(** In every state a session of the API client can reach, at most one
    timer that hides the snackbar is pending, it is the one
    [snackbarTimeout] names, and the snackbar is shown exactly while it
    is pending: no message stays for ever, and no stale timer hides a
    later message. *)
Theorem one_pending_timer_hides_the_snackbar (w : Api.world) :
  Api.reachable w ->
  let u := Api.ui (Api.app w) in
  (length (Timers.hideTimers u) <= 1)%nat /\
  (forall x, In x (Ui.timers u) ->
     (Ui.action x = Api.HideSnackbar <->
      Ui.snackbarTimeout u = Some (Ui.handle x))) /\
  (Ui.snackbarActive u = true <->
   exists x, In x (Ui.timers u) /\ Ui.action x = Api.HideSnackbar) /\
  NoDup (map Ui.handle (Ui.timers u)).
Proof.
  intros Hw. cbn zeta. pose proof (TimerFacts.reachable_ok w Hw) as Hok.
  split; [now apply TimerFacts.one_hide_timer|].
  destruct Hok as (((Hn & _) & Hi) & Ha). auto.
Qed.

(** Witness: after the two deletes one timer hides the snackbar, next to
    the two countdowns. *)
Lemma one_pending_timer_hides_the_snackbar_witness :
  (length (Timers.hideTimers (Api.ui (Api.app Sample.twoDeletes))) <= 1)%nat.
Proof.
  apply (one_pending_timer_hides_the_snackbar Sample.twoDeletes).
  unfold Sample.twoDeletes, Sample.twoTasks.
  repeat apply ApiFacts.reachable_run_events. apply Api.reachable_initial.
Defined.

(** A message shown at [t] stays, unchanged, while the clock is below
    [t + 4000] and is hidden by the timers that fire once the clock has
    reached [t + 4000], whatever other timers are pending. *)
Theorem snackbar_hides_after_four_seconds
    (a : Api.App) (t t' : Z) (msg : JS.jsstring) :
  Timers.snackbar_ok (Api.ui a) ->
  let a1 := Api.showSnackbar t msg a in
  (t' < t + 4000 ->
   Ui.snackbarActive (Api.ui (Api.runTimers t' a1)) = true /\
   Ui.snackbarMessage (Api.ui (Api.runTimers t' a1)) = msg) /\
  (t + 4000 <= t' ->
   Ui.snackbarActive (Api.ui (Api.runTimers t' a1)) = false).
Proof.
  intros Hok. cbn zeta.
  set (a1 := Api.showSnackbar t msg a).
  assert (Hu : Timers.snackbar_timer (Api.ui a))
    by now apply TimerFacts.ok_timer.
  assert (Hok1 : Timers.snackbar_ok (Api.ui a1))
    by now apply TimerFacts.showSnackbar_ok.
  destruct (TimerFacts.showSnackbar_fields t msg (Api.ui a)) as (F1 & F2 & F3).
  split.
  - intros Ht. rewrite TimerFacts.runTimers_fireAll.
    destruct (TimerFacts.fireAll_keeps_snackbar
                (Ui.expired t' (Api.ui a1)) a1) as [H1 H2].
    + intros y Hy. apply TimerFacts.expired_In in Hy as [Hy Hd].
      pose proof (TimerFacts.showSnackbar_timers t msg (Api.ui a) y Hu Hy) as H.
      destruct (Ui.action y); [reflexivity|]. subst y. cbn in Hd. lia.
    + rewrite H1, H2. split; [exact F1|exact F2].
  - intros Ht. rewrite TimerFacts.runTimers_fireAll.
    apply (TimerFacts.fireAll_hides (Api.ui a1) _ a1
             (Ui.mkTimer (Ui.nextHandle (Api.ui a)) (t + 4000)
                Api.HideSnackbar)).
    + now destruct Hok1 as (((Hn & _) & _) & _).
    + intros y Hy. now apply TimerFacts.expired_In in Hy.
    + apply incl_refl.
    + exact Hok1.
    + apply TimerFacts.expired_In. split; [|cbn; lia].
      change (Api.ui a1)
        with (Ui.showSnackbar Api.HideSnackbar t msg (Api.ui a)).
      rewrite F3. apply in_or_app. right. now left.
    + change (Api.ui a1)
        with (Ui.showSnackbar Api.HideSnackbar t msg (Api.ui a)).
      rewrite F3. apply in_or_app. right. now left.
    + reflexivity.
Qed.

(** Witness: a message shown at 1000 in a fresh page is there at 4999
    and gone at 5000. *)
Lemma snackbar_hides_after_four_seconds_witness :
  Ui.snackbarActive
    (Api.ui (Api.runTimers 4999
               (Api.showSnackbar 1000 (JS.str "Task restored") Api.init)))
    = true /\
  Ui.snackbarActive
    (Api.ui (Api.runTimers 5000
               (Api.showSnackbar 1000 (JS.str "Task restored") Api.init)))
    = false.
Proof.
  split.
  - destruct (snackbar_hides_after_four_seconds Api.init 1000 4999
                (JS.str "Task restored") TimerFacts.init_ok) as (H & _).
    destruct H as (H & _); [lia|exact H].
  - destruct (snackbar_hides_after_four_seconds Api.init 1000 5000
                (JS.str "Task restored") TimerFacts.init_ok) as (_ & H).
    apply H. lia.
Defined.

(** When no undo countdown is pending, a delete the server confirms at
    time [t] leaves its pending-undo record in place while the clock is
    below [t + 5000], and the record is cleared by the timers that fire
    once the clock has reached [t + 5000]. *)
Theorem undo_record_lasts_five_seconds
    (e : Api.env) (i : JS.jsstring) (w : Api.world) (n : nat)
    (task : Task.t) (t' : Z) :
  Timers.snackbar_ok (Api.ui (Api.app w)) ->
  Timers.countdowns (Api.ui (Api.app w)) = [] ->
  Api.net e = Api.Delivered -> Api.dbUp e = true ->
  existsb (Server.hasId i) (Api.db w) = true ->
  JS.findIndex (Task.hasId i) (Api.tasks (Api.app w)) = Z.of_nat n ->
  nth_error (Api.tasks (Api.app w)) n = Some task ->
  let a1 := Api.app (Api.deleteTask e i w) in
  (t' < Api.now e + 5000 ->
   Api.deletedTask (Api.runTimers t' a1) = Some task /\
   Api.deletedTaskIndex (Api.runTimers t' a1) = Z.of_nat n) /\
  (Api.now e + 5000 <= t' ->
   Api.deletedTask (Api.runTimers t' a1) = None /\
   Api.deletedTaskIndex (Api.runTimers t' a1) = -1).
Proof.
  intros Hok Hc Hn Hu Hr Hi Hx. cbn zeta.
  set (a1 := Api.app (Api.deleteTask e i w)).
  assert (Hq : quiet (Api.now e) (Api.app w))
    by now apply TimerFacts.no_countdown_quiet.
  destruct (ApiFacts.deleteTask_success e i w n task Hn Hu Hr Hi Hx)
    as (_ & D). destruct (D Hq) as (D2 & D3). clear D.
  pose proof (TimerFacts.deleteTask_success_ui e i w n task Hn Hu Hr Hi Hx Hq)
    as Eui.
  fold a1 in D2, D3, Eui.
  assert (Hok1 : Timers.snackbar_ok (Api.ui a1))
    by now apply TimerFacts.deleteTask_ok.
  set (msg := JS.str "Deleted " ++ [JS.quote] ++ Task.title task ++ [JS.quote])
    in Eui.
  set (a0 := Api.runTimers (Api.now e) _) in Eui.
  assert (Hok0 : Timers.snackbar_ok (Api.ui a0))
    by (apply TimerFacts.runTimers_ok; exact Hok).
  assert (Hc0 : Timers.countdowns (Api.ui a0) = [])
    by (apply TimerFacts.runTimers_countdowns; exact Hc).
  set (u1 := Ui.showSnackbar Api.HideSnackbar (Api.now e) msg (Api.ui a0))
    in Eui.
  set (c := Ui.mkTimer (Ui.nextHandle u1) (Api.now e + 5000) Api.ClearUndo).
  assert (Et : Ui.timers (Api.ui a1) = Ui.timers u1 ++ [c])
    by (rewrite Eui; reflexivity).
  assert (Hcd : forall y, In y (Ui.timers (Api.ui a1)) ->
                          Ui.action y = Api.ClearUndo -> y = c).
  { intros y Hy Ha. rewrite Et in Hy.
    apply in_app_or in Hy as [Hy|[<-|[]]]; [|reflexivity].
    pose proof (TimerFacts.showSnackbar_timers (Api.now e) msg _ y
                  (TimerFacts.ok_timer _ Hok0) Hy) as H.
    rewrite Ha in H.
    assert (Hin : In y (Timers.countdowns (Api.ui a0))).
    { apply filter_In. split; [exact H|].
      unfold Timers.isCountdown. now rewrite Ha. }
    rewrite Hc0 in Hin. destruct Hin. }
  split.
  - intros Ht. rewrite TimerFacts.runTimers_fireAll.
    destruct (TimerFacts.fireAll_keeps_record
                (Ui.expired t' (Api.ui a1)) a1) as [H1 H2].
    + intros y Hy. apply TimerFacts.expired_In in Hy as [Hy Hd].
      destruct (Ui.action y) eqn:Ea; [|reflexivity].
      rewrite (Hcd y Hy Ea) in Hd. cbn in Hd. lia.
    + rewrite H1, H2. auto.
  - intros Ht. rewrite TimerFacts.runTimers_fireAll.
    apply (TimerFacts.fireAll_clears (Api.ui a1) _ a1 c).
    + now destruct Hok1 as (((Hd & _) & _) & _).
    + intros y Hy. now apply TimerFacts.expired_In in Hy.
    + apply incl_refl.
    + exact Hok1.
    + apply TimerFacts.expired_In. split; [|cbn; lia].
      rewrite Et. apply in_or_app. right. now left.
    + rewrite Et. apply in_or_app. right. now left.
    + reflexivity.
Qed.

(** Witness: the task 1000 deleted at 10000 from the session of the two
    tasks can be restored until 14999 and no longer at 15000. *)
Lemma undo_record_lasts_five_seconds_witness :
  Api.deletedTask
    (Api.runTimers 14999
       (Api.app (Api.deleteTask (Sample.healthy 10000) (JS.str "1000")
                   Sample.twoTasks))) = Some Sample.milk /\
  Api.deletedTask
    (Api.runTimers 15000
       (Api.app (Api.deleteTask (Sample.healthy 10000) (JS.str "1000")
                   Sample.twoTasks))) = None.
Proof.
  assert (Hr : Api.reachable Sample.twoTasks).
  { unfold Sample.twoTasks. apply ApiFacts.reachable_run_events.
    apply Api.reachable_initial. }
  assert (H : forall t',
             (t' < 15000 ->
              Api.deletedTask
                (Api.runTimers t'
                   (Api.app (Api.deleteTask (Sample.healthy 10000)
                               (JS.str "1000") Sample.twoTasks))) =
              Some Sample.milk) /\
             (15000 <= t' ->
              Api.deletedTask
                (Api.runTimers t'
                   (Api.app (Api.deleteTask (Sample.healthy 10000)
                               (JS.str "1000") Sample.twoTasks))) = None)).
  { intros t'.
    destruct (undo_record_lasts_five_seconds (Sample.healthy 10000)
                (JS.str "1000") Sample.twoTasks 1 Sample.milk t')
      as (H1 & H2).
    - now apply TimerFacts.reachable_ok.
    - vm_compute. reflexivity.
    - reflexivity.
    - reflexivity.
    - vm_compute. reflexivity.
    - vm_compute. reflexivity.
    - vm_compute. reflexivity.
    - split; intros Ht; [apply H1|apply H2]; cbn; lia. }
  split; [apply (H 14999)|apply (H 15000)]; lia.
Defined.

(* ====================================================================== *)
(** ** The task array against the table *)
(* ====================================================================== *)

Module MirrorFacts.

Lemma handle_failure_keeps_table up now req tbl :
  Api.responseOk (fst (Server.handle up now req tbl)) = false ->
  snd (Server.handle up now req tbl) = tbl.
Proof.
  destruct req as [|title|i title isDone|i|]; cbn [Server.handle].
  - unfold Server.getTasks. now destruct up.
  - unfold Server.postTask. destruct title as [s|]; [|reflexivity].
    destruct (negb (JS.truthy s) || JS.eqb (JS.trim s) []); [reflexivity|].
    destruct up; [|reflexivity]. unfold Server.sqlInsert.
    destruct (existsb _ tbl); [reflexivity|]. discriminate.
  - unfold Server.putTask. destruct up; [|reflexivity].
    unfold Server.sqlUpdate.
    destruct (filter (Server.hasId i) tbl) as [|x l] eqn:E; cbn;
      [|discriminate].
    intros _. apply ServerFacts.no_row_update. apply ServerFacts.no_row_existsb.
    destruct (existsb (Server.hasId i) tbl) eqn:Ex; [|reflexivity].
    apply ApiFacts.existsb_filter in Ex as (y & r & Ey & _). congruence.
  - unfold Server.deleteTask. destruct up; [|reflexivity].
    unfold Server.sqlDelete.
    destruct (filter (Server.hasId i) tbl) as [|x l] eqn:E; cbn;
      [|discriminate].
    intros _. apply ServerFacts.no_row_keep. apply ServerFacts.no_row_existsb.
    destruct (existsb (Server.hasId i) tbl) eqn:Ex; [|reflexivity].
    apply ApiFacts.existsb_filter in Ex as (y & r & Ey & _). congruence.
  - unfold Server.deleteCompleted. destruct up; [discriminate|reflexivity].
Qed.

(** Unless the answer is lost, a call that throws has left the table
    alone. *)
Lemma exchange_failure_table e req tbl m :
  (forall m', Api.net e <> Api.ResponseLost m') ->
  fst (Api.exchange e req tbl) = inl m ->
  snd (Api.exchange e req tbl) = tbl.
Proof.
  intros Hl. unfold Api.exchange, Api.fetch.
  destruct (Api.net e) as [|m'|m'] eqn:En.
  - destruct (Server.handle (Api.dbUp e) (Api.serverNow e) req tbl)
      as [r tbl'] eqn:Eh. cbn.
    destruct (Api.responseOk r) eqn:Er; [discriminate|]. intros _.
    change tbl' with (snd (r, tbl')). rewrite <- Eh.
    apply handle_failure_keeps_table. now rewrite Eh.
  - reflexivity.
  - now destruct (Hl m').
Qed.

(** *** Lists *)










(** *** What a call that succeeds did to the table *)

Lemma exchange_cases e req tbl :
  (forall m, Api.net e <> Api.ResponseLost m) ->
  (exists m, Api.exchange e req tbl = (inl m, tbl)) \/
  (exists r,
     Api.exchange e req tbl =
       (inr r, snd (Server.handle (Api.dbUp e) (Api.serverNow e) req tbl)) /\
     r = fst (Server.handle (Api.dbUp e) (Api.serverNow e) req tbl) /\
     Api.responseOk r = true).
Proof.
  intros Hl. destruct (Api.exchange e req tbl) as [[m|r] tbl'] eqn:E.
  - left. exists m. f_equal.
    pose proof (exchange_failure_table e req tbl m Hl) as H.
    rewrite E in H. exact (H eq_refl).
  - right. exists r.
    destruct (ApiFacts.exchange_response e req tbl r) as (H1 & H2 & _ & H4);
      [now rewrite E|].
    rewrite E in H2. cbn in H2. subst tbl'. auto.
Qed.





(** *** Each operation keeps the array in step with the table *)

Section Operations.

Variable e : Api.env.
Hypothesis answered : forall m, Api.net e <> Api.ResponseLost m.

Variable w : Api.world.
Hypothesis Hw : mirrors w.







End Operations.



End MirrorFacts.



(** A lost answer (API client [apiCall], [addTask] over
    [router.post('/tasks')]): when the POST of an add reaches a working
    server with a title that is not blank and a free id, but the answer
    does not come back, the row is in the table and the array does not
    show it, so the array no longer holds the tasks of the table; the
    snackbar shows the error. *)
Theorem lost_answer_leaves_a_row_the_array_lacks e title w m :
  Api.net e = Api.ResponseLost m -> Api.dbUp e = true ->
  JS.trim title <> [] -> no_row (JS.toString (Api.serverNow e)) (Api.db w) ->
  mirrors w ->
  Api.tasks (Api.app (Api.step e (Api.Add title) w)) = Api.tasks (Api.app w) /\
  Api.db (Api.step e (Api.Add title) w) =
    Api.db w ++
    [Server.mkRow (JS.toString (Api.serverNow e)) (JS.trim title) false
       (Api.serverNow e) (Api.serverNow e)] /\
  Ui.snackbarMessage (Api.ui (Api.app (Api.step e (Api.Add title) w))) =
    JS.str "Error: " ++ m /\
  ~ mirrors (Api.step e (Api.Add title) w).
Proof.
  intros Hn Hu Ht Hr Hw.
  assert (E : forall a,
             Api.addTask e title (Api.mkWorld a (Api.db w)) =
             Api.mkWorld
               (Api.showSnackbar (Api.now e) (JS.str "Error: " ++ m)
                  (Api.runTimers (Api.now e) a))
               (Api.db w ++
                [Server.mkRow (JS.toString (Api.serverNow e)) (JS.trim title)
                   false (Api.serverNow e) (Api.serverNow e)])).
  { intros a. unfold Api.addTask. rewrite ApiFacts.apiCall_eq.
    unfold Api.exchange, Api.fetch. rewrite Hn. cbn [Server.handle Api.db].
    rewrite (ApiFacts.post_created _ _ _ _ Hu Ht Hr). reflexivity. }
  cbn [Api.step]. rewrite E. cbn [Api.app Api.db].
  assert (Et : Api.tasks
                 (Api.showSnackbar (Api.now e) (JS.str "Error: " ++ m)
                    (Api.runTimers (Api.now e)
                       (Api.runTimers (Api.started e) (Api.app w)))) =
               Api.tasks (Api.app w)).
  { cbn. now rewrite !ApiFacts.runTimers_tasks. }
  split; [exact Et|]. split; [reflexivity|]. split.
  - unfold Api.showSnackbar, Ui.showSnackbar. cbn. reflexivity.
  - intros [Hp _]. cbn [Api.app Api.db] in Hp. rewrite Et in Hp.
    destruct Hw as [Hq _].
    apply Permutation_length in Hp, Hq.
    rewrite length_map, length_app in Hp. rewrite length_map in Hq.
    cbn in Hp. lia.
Qed.

(** Witness: the second add of the session of two tasks, its answer
    lost. *)
Lemma lost_answer_leaves_a_row_the_array_lacks_witness :
  let e := Api.mkEnv 3000 3000 3000 true
             (Api.ResponseLost (JS.str "Failed")) in
  Api.tasks (Api.app (Api.step e (Api.Add (JS.str "Pay rent"))
                        Sample.twoTasks)) =
    Api.tasks (Api.app Sample.twoTasks) /\
  length (Api.db (Api.step e (Api.Add (JS.str "Pay rent"))
                    Sample.twoTasks)) = 3%nat.
Proof.
  intros e.
  assert (Hw : mirrors Sample.twoTasks).
  { split; cbn; repeat constructor; cbn; intuition discriminate. }
  destruct (lost_answer_leaves_a_row_the_array_lacks e (JS.str "Pay rent")
              Sample.twoTasks (JS.str "Failed") eq_refl eq_refl)
    as (H1 & H2 & _); [cbn; discriminate| |exact Hw|].
  - repeat constructor; cbn; discriminate.
  - split; [exact H1|]. rewrite H2. reflexivity.
Defined.

(* ====================================================================== *)
(** ** The modal form *)
(* ====================================================================== *)

Module ModalFacts.

Lemma setTitle_same task : Task.setTitle (Task.title task) task = task.
Proof. now destruct task. Qed.

Lemma stored_truthy s : stored_title s -> JS.truthy (JS.trim s) = true.
Proof. intros [-> Hs]. destruct s; [now destruct Hs|reflexivity]. Qed.

Lemma given_truthy i s : Modal.given i = Some s -> i = Some s.
Proof.
  destruct i as [x|]; cbn; [|discriminate].
  destruct (JS.truthy x); [|discriminate]. now intros [= ->].
Qed.

Lemma given_some s : Modal.given (Some s) = Some s \/ s = [].
Proof. destruct s; cbn; auto. Qed.

(** Whatever the backend does, renaming a task to the title it has
    leaves the array as it is. *)
Lemma api_rename_same e i w task :
  JS.find (Task.hasId i) (Api.tasks (Api.app w)) = Some task ->
  stored_title (Task.title task) ->
  Api.tasks (Api.app (Api.editTask e i (Task.title task) w)) =
  Api.tasks (Api.app w).
Proof.
  intros Hf Hs. pose proof (stored_truthy _ Hs) as Ht.
  destruct Hs as [Etrim Hne].
  unfold Api.editTask. rewrite Ht, ApiFacts.apiCall_eq. cbn [negb].
  destruct (Api.exchange e _ (Api.db w)) as [[m|r] tbl'] eqn:E;
    [cbn; apply ApiFacts.runTimers_tasks|].
  cbn. rewrite ApiFacts.runTimers_tasks.
  destruct (Server.success r); [|cbn; apply ApiFacts.runTimers_tasks].
  rewrite Hf.
  destruct (Server.data r) as [|d|l] eqn:Ed; cbn;
    rewrite ?ApiFacts.runTimers_tasks; try reflexivity.
  apply LocalMore.assignFirst_fixed with (t := task); [exact Hf|].
  destruct (ApiFacts.exchange_response e
              (Server.PutTask i (Some (Task.title task)) None) (Api.db w) r)
    as (Er & _); [now rewrite E|].
  assert (Ep : Server.pushedTitle (Some (Task.title task)) =
               Some (Task.title task)).
  { unfold Server.pushedTitle. rewrite Etrim.
    apply JSFacts.eqb_neq in Hne. now rewrite Hne. }
  cbn [Server.handle] in Er. unfold Server.putTask in Er.
  rewrite Ep in Er.
  destruct (Api.dbUp e); [|subst r; discriminate].
  unfold Server.sqlUpdate in Er.
  destruct (filter (Server.hasId i) (Api.db w)) as [|x l];
    [subst r; discriminate|].
  subst r. cbn in Ed. injection Ed as <-. cbn [Server.returning
    Server.setClause Task.title Server.r_title]. apply setTitle_same.
Qed.

Lemma local_rename_same e i w task :
  JS.find (Task.hasId i) (Local.tasks (Local.app w)) = Some task ->
  stored_title (Task.title task) ->
  Local.tasks (Local.app (Local.editTask e i (Task.title task) w)) =
  Local.tasks (Local.app w).
Proof.
  intros Hf [Etrim Hne].
  rewrite (LocalFacts.local_editTask_tasks e i _ w task);
    [|congruence|exact Hf].
  rewrite Etrim. apply LocalMore.assignFirst_fixed with (t := task);
    [exact Hf|apply setTitle_same].
Qed.

Lemma find_stored i l task :
  tasks_stored l -> JS.find (Task.hasId i) l = Some task ->
  stored_title (Task.title task).
Proof.
  intros Hl Hf. apply find_some in Hf as [Hin _].
  unfold tasks_stored in Hl. rewrite Forall_forall in Hl. now apply Hl.
Qed.

End ModalFacts.

(** Saving the edit form untouched ([openModal], [handleSubmit] and
    [editTask] of both clients): opening the form for any id, known or
    not, and submitting it right away leaves the task array as it was,
    whatever the backend does, provided the titles of the array are
    trimmed and not empty, as they are in every reachable session. *)
Theorem edit_form_saved_untouched_keeps_array :
  (forall e i f w,
     tasks_stored (Local.tasks (Local.app w)) ->
     Local.tasks
       (Local.app
          (snd (Modal.localHandleSubmit e
                  (Modal.openModal i (Local.tasks (Local.app w)) f, w)))) =
     Local.tasks (Local.app w)) /\
  (forall e i f w,
     tasks_stored (Api.tasks (Api.app w)) ->
     Api.tasks
       (Api.app
          (snd (Modal.apiHandleSubmit e
                  (Modal.openModal i (Api.tasks (Api.app w)) f, w)))) =
     Api.tasks (Api.app w)).
Proof.
  split; intros e i f w Hs.
  - unfold Modal.localHandleSubmit, Modal.openModal. cbn [fst snd].
    destruct (Modal.given i) as [s|] eqn:Eg; [|reflexivity].
    apply ModalFacts.given_truthy in Eg as Ei. subst i.
    destruct (JS.find (Task.hasId s) (Local.tasks (Local.app w)))
      as [task|] eqn:Hf; cbn [Modal.taskInput Modal.editingTaskId
                               Modal.setEditing].
    + pose proof (ModalFacts.find_stored _ _ _ Hs Hf) as Ht.
      rewrite (ModalFacts.stored_truthy _ Ht), Eg. cbn [negb snd].
      destruct Ht as [Et Hne]. rewrite Et.
      apply ModalFacts.local_rename_same; [exact Hf|now split].
    + destruct (negb (JS.truthy (JS.trim (Modal.taskInput f))));
        [reflexivity|].
      rewrite Eg. cbn [snd].
      now rewrite LocalFacts.local_editTask_unknown.
  - unfold Modal.apiHandleSubmit, Modal.openModal. cbn [fst snd].
    destruct (Modal.given i) as [s|] eqn:Eg; [|reflexivity].
    apply ModalFacts.given_truthy in Eg as Ei. subst i.
    destruct (JS.find (Task.hasId s) (Api.tasks (Api.app w)))
      as [task|] eqn:Hf; cbn [Modal.taskInput Modal.editingTaskId
                               Modal.setEditing].
    + pose proof (ModalFacts.find_stored _ _ _ Hs Hf) as Ht.
      rewrite (ModalFacts.stored_truthy _ Ht), Eg. cbn [negb snd].
      destruct Ht as [Et Hne]. rewrite Et.
      apply ModalFacts.api_rename_same; [exact Hf|now split].
    + destruct (negb (JS.truthy (JS.trim (Modal.taskInput f))));
        [reflexivity|].
      rewrite Eg. cbn [snd].
      now apply ApiFacts.editTask_unknown.
Qed.

(** Witness: the form opened for the task 1000 of the session of two
    tasks and saved as it is. *)
Lemma edit_form_saved_untouched_keeps_array_witness :
  tasks_stored (Api.tasks (Api.app Sample.twoTasks)) /\
  Api.tasks
    (Api.app
       (snd (Modal.apiHandleSubmit (Sample.healthy 3000)
               (Modal.openModal (Some (JS.str "1000"))
                  (Api.tasks (Api.app Sample.twoTasks))
                  (Modal.mk None [] [] false),
                Sample.twoTasks)))) =
  Api.tasks (Api.app Sample.twoTasks).
Proof.
  assert (Hs : tasks_stored (Api.tasks (Api.app Sample.twoTasks))).
  { repeat constructor; cbn; discriminate. }
  split; [exact Hs|].
  exact (proj2 edit_form_saved_untouched_keeps_array (Sample.healthy 3000)
           (Some (JS.str "1000")) (Modal.mk None [] [] false)
           Sample.twoTasks Hs).
Defined.

(** Submitting the add form ([openModal], [handleSubmit] and [addTask]
    of both clients).  [openModal()] puts the form in add mode with an
    empty input.  In add mode a blank input changes nothing and the form
    stays as it is; any other input dismisses the form, whatever the
    backend does, and puts a task with the trimmed input as title in
    front of the array: always in the localStorage client, and in the
    API client when the POST reaches a working server at a clock reading
    whose numeral is no id of the table. *)
Theorem add_form_puts_trimmed_title_in_front :
  (forall tasks f,
     Modal.given (Modal.editingTaskId (Modal.openModal None tasks f)) = None /\
     Modal.taskInput (Modal.openModal None tasks f) = [] /\
     Modal.active (Modal.openModal None tasks f) = true) /\
  (forall e f w,
     Modal.given (Modal.editingTaskId f) = None ->
     (JS.trim (Modal.taskInput f) = [] ->
      Modal.localHandleSubmit e (f, w) = (f, w)) /\
     (JS.trim (Modal.taskInput f) <> [] ->
      fst (Modal.localHandleSubmit e (f, w)) = Modal.dismiss f /\
      Local.tasks (Local.app (snd (Modal.localHandleSubmit e (f, w)))) =
        Task.new (JS.toString (Local.now e)) (JS.trim (Modal.taskInput f))
          false (Local.now e)
        :: Local.tasks (Local.app w))) /\
  (forall e f w,
     Modal.given (Modal.editingTaskId f) = None ->
     (JS.trim (Modal.taskInput f) = [] ->
      Modal.apiHandleSubmit e (f, w) = (f, w)) /\
     (JS.trim (Modal.taskInput f) <> [] ->
      fst (Modal.apiHandleSubmit e (f, w)) = Modal.dismiss f /\
      (Api.net e = Api.Delivered -> Api.dbUp e = true ->
       no_row (JS.toString (Api.serverNow e)) (Api.db w) ->
       Api.tasks (Api.app (snd (Modal.apiHandleSubmit e (f, w)))) =
         Task.new (JS.toString (Api.serverNow e))
           (JS.trim (Modal.taskInput f)) false (Api.serverNow e)
         :: Api.tasks (Api.app w)))).
Proof.
  split; [|split].
  - intros tasks f. cbn. auto.
  - intros e f w Hg. unfold Modal.localHandleSubmit. cbn [fst snd].
    rewrite Hg. split; intros Ht.
    + now rewrite Ht.
    + assert (E : JS.truthy (JS.trim (Modal.taskInput f)) = true)
        by (destruct (JS.trim (Modal.taskInput f));
            [now destruct Ht|reflexivity]).
      rewrite E. cbn [negb]. unfold Modal.localAddTask. cbn [fst snd].
      rewrite E. cbn [negb fst snd]. split; [reflexivity|].
      rewrite LocalFacts.local_addTask_tasks. unfold Local.created.
      rewrite E. unfold Task.create. now rewrite JSFacts.trim_idem.
  - intros e f w Hg. unfold Modal.apiHandleSubmit. cbn [fst snd].
    rewrite Hg. split; intros Ht.
    + now rewrite Ht.
    + assert (E : JS.truthy (JS.trim (Modal.taskInput f)) = true)
        by (destruct (JS.trim (Modal.taskInput f));
            [now destruct Ht|reflexivity]).
      rewrite E. cbn [negb]. unfold Modal.apiAddTask. cbn [fst snd].
      split.
      * now destruct (Api.created e _ (Api.db w)).
      * intros Hn Hu Hr. rewrite ApiFacts.addTask_tasks.
        rewrite (ApiFacts.created_new e _ (Api.db w) Hn Hu);
          [|now rewrite JSFacts.trim_idem|exact Hr].
        now rewrite JSFacts.trim_idem.
Qed.

(** Witness: [Call Bob] typed with spaces around it into the add form of
    the session that holds [Buy milk]. *)
Lemma add_form_puts_trimmed_title_in_front_witness :
  let f := Modal.typeInput (JS.str "  Call Bob ")
             (Modal.openModal None [Sample.milk] (Modal.mk None [] [] false)) in
  let w := Api.step (Sample.healthy 1000) (Api.Add (JS.str "Buy milk"))
             Api.initial in
  Modal.given (Modal.editingTaskId f) = None /\
  JS.trim (Modal.taskInput f) <> [] /\
  Modal.active (fst (Modal.apiHandleSubmit (Sample.healthy 2000) (f, w))) =
    false /\
  Api.tasks
    (Api.app (snd (Modal.apiHandleSubmit (Sample.healthy 2000) (f, w)))) =
  [Sample.bob; Sample.milk].
Proof.
  intros f w.
  assert (Hg : Modal.given (Modal.editingTaskId f) = None) by reflexivity.
  assert (Ht : JS.trim (Modal.taskInput f) <> []) by (cbn; discriminate).
  split; [exact Hg|]. split; [exact Ht|].
  destruct (proj2 (proj2 add_form_puts_trimmed_title_in_front)
              (Sample.healthy 2000) f w Hg) as [_ H].
  destruct (H Ht) as [H1 H2]. split.
  - rewrite H1. reflexivity.
  - rewrite H2; [reflexivity|reflexivity|reflexivity|].
    repeat constructor; cbn; discriminate.
Defined.
